(** * WhisperManager: the local speech-to-text backend orchestrator

    A shallow embedding of [WhisperManager] (the helper class that resolves
    the Python interpreter, installs the speech-recognition package, locates
    the decoder binary, runs the worker script and manages model downloads),
    together with the properties its design document states about it, and
    of the parts of [AudioManager], the recorder on the renderer side, that
    call it or stand beside it: the WAV encoder, the local processing path
    and the cached settings.

    JavaScript strings are sequences of UTF-16 code units; they are modelled
    as [list N].  Asynchronous methods are modelled by explicit state
    passing: the fields of the manager object, the file system and the trace
    of spawned processes and signals are threaded through each operation,
    and what the outside world answers (a probe's output, a process's exit
    code, a failing [unlink]) is an explicit argument. *)

From Stdlib Require Import String Ascii.
From stdpp Require Import base option list numbers gmap.

Set Warnings "-register-all".
Local Open Scope N_scope.

(** ** JavaScript strings *)

Module JsString.

Abbreviation jsstring := (list N).

(** The code units of an ASCII literal. *)
Definition js (s : string) : jsstring :=
  (fun a => N_of_ascii a) <$> list_ascii_of_string s.

(** The same, with every apostrophe read as a double quote: used to write
    JSON text in examples. *)
Definition jsq (s : string) : jsstring :=
  (fun c => if c =? 39 then 34 else c) <$> js s.

(** [WhiteSpace] and [LineTerminator] of ECMA-262: what [String.prototype.trim]
    strips. *)
Definition isWhiteSpace (c : N) : bool :=
  (c =? 9) || (c =? 10) || (c =? 11) || (c =? 12) || (c =? 13) || (c =? 32)
  || (c =? 160) || (c =? 5760) || ((8192 <=? c) && (c <=? 8202))
  || (c =? 8232) || (c =? 8233) || (c =? 8239) || (c =? 8287)
  || (c =? 12288) || (c =? 65279).

Fixpoint trimStart (s : jsstring) : jsstring :=
  match s with
  | [] => []
  | c :: r => if isWhiteSpace c then trimStart r else s
  end.

Definition trimEnd (s : jsstring) : jsstring := rev (trimStart (rev s)).

Definition trim (s : jsstring) : jsstring := trimEnd (trimStart s).

(** [s.startsWith(p)], returning what follows the prefix. *)
Fixpoint stripPrefix (p s : jsstring) : option jsstring :=
  match p, s with
  | [], _ => Some s
  | a :: p', b :: s' => if a =? b then stripPrefix p' s' else None
  | _ :: _, [] => None
  end.

Definition startsWith (s p : jsstring) : bool :=
  match stripPrefix p s with Some _ => true | None => false end.

Definition endsWith (s p : jsstring) : bool := startsWith (rev s) (rev p).

(** [s.includes(p)]. *)
Fixpoint includes (s p : jsstring) : bool :=
  startsWith s p || match s with [] => false | _ :: r => includes r p end.

(** [s.split("\n")]: never empty, one more piece than there are line feeds. *)
Fixpoint splitLines (s : jsstring) : list jsstring :=
  match s with
  | [] => [[]]
  | c :: r =>
      if c =? 10 then [] :: splitLines r
      else match splitLines r with
           | l :: ls => (c :: l) :: ls
           | [] => [[c]]
           end
  end.

(** [lines.join("\n")]. *)
Fixpoint joinLines (ls : list jsstring) : jsstring :=
  match ls with
  | [] => []
  | [l] => l
  | l :: ls' => l ++ 10 :: joinLines ls'
  end.

(** [s.replace(p, by)] with a string pattern: the first occurrence only. *)
Fixpoint replaceFirst (p by_ s : jsstring) : jsstring :=
  match stripPrefix p s with
  | Some rest => by_ ++ rest
  | None => match s with [] => [] | c :: r => c :: replaceFirst p by_ r end
  end.

(** [String.prototype.toLowerCase] as far as an ASCII needle can observe it:
    A-Z, and the two code units outside ASCII whose lower-case form contains
    an ASCII letter (U+212A KELVIN SIGN, U+0130 capital I with dot above).
    Every other code unit is left as it is; its lower-case form holds no
    ASCII code unit either way. *)
Definition lowerUnit (c : N) : jsstring :=
  if (65 <=? c) && (c <=? 90) then [c + 32]
  else if c =? 8490 then [107]
  else if c =? 304 then [105; 775]
  else [c].

Definition toLowerCase (s : jsstring) : jsstring := s ≫= lowerUnit.

Definition isDigit (c : N) : bool := (48 <=? c) && (c <=? 57).

(** The longest run of decimal digits at the front, and what follows it. *)
Fixpoint spanDigits (s : jsstring) : jsstring * jsstring :=
  match s with
  | c :: r => if isDigit c then let '(ds, r') := spanDigits r in (c :: ds, r')
              else ([], s)
  | [] => ([], [])
  end.

(** The value of a run of decimal digits. *)
Definition digitsValue (ds : jsstring) : N :=
  foldl (fun acc c => 10 * acc + (c - 48)) 0 ds.

End JsString.
Import JsString.

(** ** JSON values and [JSON.parse] *)

Module Json.

(** A number keeps its exact decimal value, [(-1)^neg * mantissa * 10^exponent];
    the conversion to a double only matters through [numberIsZero]. *)
Inductive json :=
| JNull
| JBool (b : bool)
| JNumber (neg : bool) (mantissa : N) (exponent : Z)
| JString (s : jsstring)
| JArray (items : list json)
| JObject (members : list (jsstring * json)).

(** The result of a parser: a value and the unread input, a syntax error, or
    recursion budget exhausted. *)
Inductive presult (A : Type) :=
| POk (a : A) (rest : jsstring)
| PErr
| PFuel.
Arguments POk {A} a rest.
Arguments PErr {A}.
Arguments PFuel {A}.

(** JSON white space: tab, line feed, carriage return, space. *)
Definition isJsonWs (c : N) : bool :=
  (c =? 9) || (c =? 10) || (c =? 13) || (c =? 32).

Fixpoint skipWs (s : jsstring) : jsstring :=
  match s with
  | c :: r => if isJsonWs c then skipWs r else s
  | [] => []
  end.

Definition hexValue (c : N) : option N :=
  if (48 <=? c) && (c <=? 57) then Some (c - 48)
  else if (65 <=? c) && (c <=? 70) then Some (c - 55)
  else if (97 <=? c) && (c <=? 102) then Some (c - 87)
  else None.

Definition hex4 (a b c d : N) : option N :=
  match hexValue a, hexValue b, hexValue c, hexValue d with
  | Some a, Some b, Some c, Some d => Some (((a * 16 + b) * 16 + c) * 16 + d)
  | _, _, _, _ => None
  end.

(** The single-character escapes after a backslash. *)
Definition simpleEscape (c : N) : option N :=
  if c =? 34 then Some 34 else if c =? 92 then Some 92
  else if c =? 47 then Some 47 else if c =? 98 then Some 8
  else if c =? 102 then Some 12 else if c =? 110 then Some 10
  else if c =? 114 then Some 13 else if c =? 116 then Some 9
  else None.

Definition consTo (c : N) (r : option (jsstring * jsstring)) :=
  match r with Some (str, rest) => Some (c :: str, rest) | None => None end.

(** The characters of a string literal after its opening quote, up to and
    including the closing quote. *)
Fixpoint parseStringBody (s : jsstring) : option (jsstring * jsstring) :=
  match s with
  | [] => None
  | c :: r =>
      if c =? 34 then Some ([], r)
      else if c =? 92 then
        match r with
        | [] => None
        | e :: r1 =>
            if e =? 117 then
              match r1 with
              | a :: b :: c' :: d :: r2 =>
                  match hex4 a b c' d with
                  | Some u => consTo u (parseStringBody r2)
                  | None => None
                  end
              | _ => None
              end
            else match simpleEscape e with
                 | Some u => consTo u (parseStringBody r1)
                 | None => None
                 end
        end
      else if c <? 32 then None
      else consTo c (parseStringBody r)
  end.

(** A JSON number: an optional minus sign; a single zero or a run of digits
    that does not start with zero; an optional fraction (a dot and at least
    one digit); an optional exponent (e or E, an optional sign, at least one
    digit). *)
Definition parseSign (s : jsstring) : bool * jsstring :=
  match s with
  | c :: r => if c =? 45 then (true, r) else (false, s)
  | [] => (false, s)
  end.

Definition parseInt (s : jsstring) : option (jsstring * jsstring) :=
  match s with
  | c :: r => if c =? 48 then Some ([c], r)
              else if isDigit c then Some (spanDigits s)
              else None
  | [] => None
  end.

Definition parseFrac (s : jsstring) : option (jsstring * jsstring) :=
  match s with
  | c :: r => if c =? 46 then
                match spanDigits r with
                | ([], _) => None
                | (fds, r') => Some (fds, r')
                end
              else Some ([], s)
  | [] => Some ([], s)
  end.

Definition parseExp (s : jsstring) : option (Z * jsstring) :=
  match s with
  | c :: r =>
      if (c =? 101) || (c =? 69) then
        let '(eneg, r1) :=
          match r with
          | g :: r' => if g =? 45 then (true, r')
                       else if g =? 43 then (false, r')
                       else (false, r)
          | [] => (false, r)
          end in
        match spanDigits r1 with
        | ([], _) => None
        | (eds, r2) =>
            let e := Z.of_N (digitsValue eds) in
            Some ((if eneg then - e else e)%Z, r2)
        end
      else Some (0%Z, s)
  | [] => Some (0%Z, s)
  end.

Definition parseNumber (s : jsstring) : presult json :=
  let '(neg, s1) := parseSign s in
  match parseInt s1 with
  | None => PErr
  | Some (ids, s2) =>
      match parseFrac s2 with
      | None => PErr
      | Some (fds, s3) =>
          match parseExp s3 with
          | None => PErr
          | Some (e, s4) =>
              POk (JNumber neg (digitsValue (ids ++ fds))
                     (e - Z.of_nat (length fds))%Z) s4
          end
      end
  end.

(** One level of the grammar, given the parsers of the level below: a
    value at the front of [s] (no leading white space); the members of an
    object from its first key on; the elements of an array from its first
    element on. *)
Definition valueStep
  (members : jsstring -> list (jsstring * json) -> presult json)
  (elements : jsstring -> list json -> presult json)
  (s : jsstring) : presult json :=
  match s with
  | [] => PErr
  | c :: r =>
      if c =? 123 then
        match skipWs r with
        | [] => PErr
        | c' :: r' => if c' =? 125 then POk (JObject []) r'
                      else members (c' :: r') []
        end
      else if c =? 91 then
        match skipWs r with
        | [] => PErr
        | c' :: r' => if c' =? 93 then POk (JArray []) r'
                      else elements (c' :: r') []
        end
      else if c =? 34 then
        match parseStringBody r with
        | Some (str, r') => POk (JString str) r'
        | None => PErr
        end
      else match stripPrefix (js "true") s with
           | Some r' => POk (JBool true) r'
           | None =>
           match stripPrefix (js "false") s with
           | Some r' => POk (JBool false) r'
           | None =>
           match stripPrefix (js "null") s with
           | Some r' => POk JNull r'
           | None => parseNumber s
           end end end
  end.

Definition membersStep
  (value : jsstring -> presult json)
  (members : jsstring -> list (jsstring * json) -> presult json)
  (s : jsstring) (acc : list (jsstring * json)) : presult json :=
  match s with
  | [] => PErr
  | c :: r =>
      if c =? 34 then
        match parseStringBody r with
        | None => PErr
        | Some (key, r1) =>
            match skipWs r1 with
            | [] => PErr
            | c1 :: r2 =>
                if c1 =? 58 then
                  match value (skipWs r2) with
                  | POk v r3 =>
                      match skipWs r3 with
                      | [] => PErr
                      | c3 :: r4 =>
                          if c3 =? 44 then
                            members (skipWs r4) (acc ++ [(key, v)])
                          else if c3 =? 125 then
                            POk (JObject (acc ++ [(key, v)])) r4
                          else PErr
                      end
                  | PErr => PErr
                  | PFuel => PFuel
                  end
                else PErr
            end
        end
      else PErr
  end.

Definition elementsStep
  (value : jsstring -> presult json)
  (elements : jsstring -> list json -> presult json)
  (s : jsstring) (acc : list json) : presult json :=
  match value s with
  | POk v r1 =>
      match skipWs r1 with
      | [] => PErr
      | c :: r2 =>
          if c =? 44 then elements (skipWs r2) (acc ++ [v])
          else if c =? 93 then POk (JArray (acc ++ [v])) r2
          else PErr
      end
  | PErr => PErr
  | PFuel => PFuel
  end.

(** The three parsers, tied together over a recursion budget.  A budget
    above twice the length of the input is never exhausted
    ([parse_budget]). *)
Fixpoint parseValue (fuel : nat) (s : jsstring) : presult json :=
  match fuel with
  | O => PFuel
  | S fuel => valueStep (parseMembers fuel) (parseElements fuel) s
  end
with parseMembers (fuel : nat) (s : jsstring) (acc : list (jsstring * json))
  : presult json :=
  match fuel with
  | O => PFuel
  | S fuel => membersStep (parseValue fuel) (parseMembers fuel) s acc
  end
with parseElements (fuel : nat) (s : jsstring) (acc : list json)
  : presult json :=
  match fuel with
  | O => PFuel
  | S fuel => elementsStep (parseValue fuel) (parseElements fuel) s acc
  end.

(** [JSON.parse(text)]: [None] stands for the [SyntaxError] it throws. *)
Definition parse (text : jsstring) : option json :=
  match parseValue (S (2 * length text)) (skipWs text) with
  | POk v rest => match skipWs rest with [] => Some v | _ :: _ => None end
  | PErr | PFuel => None
  end.

(** Reading a property of a parsed object: a repeated key keeps its last
    value; [None] is [undefined]. *)
Fixpoint lookupMember (key : jsstring) (ms : list (jsstring * json))
  : option json :=
  match ms with
  | [] => None
  | (k, v) :: r =>
      match lookupMember key r with
      | Some v' => Some v'
      | None => if decide (k = key) then Some v else None
      end
  end.

Definition getProp (v : json) (key : jsstring) : option json :=
  match v with
  | JObject ms => lookupMember key ms
  | _ => None
  end.

(** The double nearest to [mantissa * 10^exponent] is zero: the mantissa is
    zero, or the value is at most [2^-1075], half the least subnormal. *)
Definition numberIsZero (mantissa : N) (exponent : Z) : bool :=
  (mantissa =? 0)
  || ((exponent <? 0)%Z
      && (mantissa * 2 ^ 1075 <=? 10 ^ Z.to_N (- exponent))).

(** [ToBoolean] on a parsed value ([undefined] is falsy). *)
Definition truthy (v : json) : bool :=
  match v with
  | JNull => false
  | JBool b => b
  | JNumber _ m e => negb (numberIsZero m e)
  | JString s => match s with [] => false | _ :: _ => true end
  | JArray _ | JObject _ => true
  end.

Definition truthyProp (v : option json) : bool :=
  match v with Some v => truthy v | None => false end.

End Json.
Import Json.

(** ** Parsing the worker's output: [parseWhisperResult] *)

Module ParseResult.

(** Why [parseWhisperResult] throws.  Each one reaches the caller as
    [Error("Failed to parse Whisper output: ...")]. *)
Inductive ParseFailure :=
| NoJsonOutput        (* no line looked like JSON *)
| JsonSyntaxError     (* [JSON.parse] threw *)
| NotAnObject         (* a property of [null] was read *)
| TextNotAString.     (* [result.text.trim] is not a function *)

(** What [parseWhisperResult] does: [{success: true, text}],
    [{success: false, message}], or a thrown error. *)
Inductive ParsedTranscript :=
| Success (text : jsstring)
| SoftFailure (message : json)
| Throws (why : ParseFailure).

(** [trimmed.startsWith("{") && trimmed.endsWith("}")] *)
Definition looksLikeJson (trimmed : jsstring) : bool :=
  startsWith trimmed (js "{") && endsWith trimmed (js "}").

(** [stdout.split("\n").filter((line) => line.trim())] *)
Definition nonBlankLines (stdout : jsstring) : list jsstring :=
  filter (fun line => trim line ≠ []) (splitLines stdout).

(** The [for] loop: [jsonLine] starts as the empty string and takes the
    trimmed form of the first line that looks like JSON. *)
Fixpoint findJsonLine (lines : list jsstring) : jsstring :=
  match lines with
  | [] => []
  | line :: rest =>
      let trimmed := trim line in
      if looksLikeJson trimmed then trimmed else findJsonLine rest
  end.

Definition transcriptionFailed : json := JString (js "Transcription failed").

Definition noTextMessage : json :=
  JString (js "Transcription produced no text (possible audio issue or model failure)").

(** The body after [const result = JSON.parse(jsonLine)]. *)
Definition interpretResult (result : json) : ParsedTranscript :=
  match result with
  | JNull => Throws NotAnObject
  | _ =>
      match getProp result (js "success") with
      | Some (JBool false) =>
          let error := getProp result (js "error") in
          SoftFailure (if truthyProp error then default transcriptionFailed error
                       else transcriptionFailed)
      | _ =>
          let text := getProp result (js "text") in
          if negb (truthyProp text) then SoftFailure noTextMessage
          else match text with
               | Some (JString t) =>
                   if decide (length (trim t) = 0%nat) then SoftFailure noTextMessage
                   else Success (trim t)
               | _ => Throws TextNotAString
               end
      end
  end.

Definition parseWhisperResult (stdout : jsstring) : ParsedTranscript :=
  let lines := nonBlankLines stdout in
  let jsonLine := findJsonLine lines in
  match jsonLine with
  | [] => Throws NoJsonOutput
  | _ :: _ =>
      match Json.parse jsonLine with
      | None => Throws JsonSyntaxError
      | Some result => interpretResult result
      end
  end.

End ParseResult.
Import ParseResult.

(** ** The runtime the manager runs in *)

Module Runtime.

(** A JavaScript completion: a returned value or a thrown error. *)
Inductive Completion (E A : Type) :=
| Returns (a : A)
| Raises (e : E).
Arguments Returns {E A} a.
Arguments Raises {E A} e.

(** [process.platform], as far as the manager distinguishes it: [Linux]
    stands for every platform that is neither darwin nor win32. *)
Inductive Platform := Darwin | Win32 | Linux.

Definition isDarwin (p : Platform) : bool :=
  match p with Darwin => true | _ => false end.

Definition isWin32 (p : Platform) : bool :=
  match p with Win32 => true | _ => false end.

(** A file on disk. *)
Record File := { content : list N; executable : bool }.

Abbreviation FS := (gmap jsstring File).

(** [fs.existsSync(p)]: the empty path never exists. *)
Definition existsSync (fs : FS) (p : jsstring) : bool :=
  match p with
  | [] => false
  | _ :: _ => bool_decide (is_Some (fs !! p))
  end.

(** [fs.accessSync(p, fs.constants.X_OK)] does not throw. *)
Definition accessExecutable (fs : FS) (p : jsstring) : bool :=
  match fs !! p with Some f => executable f | None => false end.

Inductive Signal := SIGTERM | SIGKILL.

(** What an operation does to the outside world, in order. *)
Inductive Effect :=
| Spawn (command : jsstring) (args : list jsstring)
| WriteFile (path : jsstring) (size : nat)
| Unlink (path : jsstring).

(** The part of [process] and of the [path] and [os] modules the manager
    reads. *)
Record Env := {
  platform : Platform;
  getenv : jsstring -> option jsstring;         (* process.env[name] *)
  resourcesPath : option jsstring;              (* process.resourcesPath *)
  dirname : jsstring;                           (* __dirname *)
  homedir : jsstring;                           (* os.homedir() *)
  tmpdir : jsstring;                            (* os.tmpdir() *)
  pathJoin : list jsstring -> jsstring;         (* path.join(...) *)
  isAbsolute : jsstring -> bool;                (* path.isAbsolute(p) *)
  base64Decode : jsstring -> list N             (* Buffer.from(s, "base64") *)
}.

(** A string read as a condition: [undefined] and the empty string are falsy. *)
Definition truthyString (s : option jsstring) : bool :=
  match s with Some (_ :: _) => true | _ => false end.

(** [process.env.NODE_ENV === "development"] *)
Definition isDevelopment (env : Env) : bool :=
  bool_decide (getenv env (js "NODE_ENV") = Some (js "development")).

(** The fields of a [WhisperManager] the modelled methods read or write.
    [cachedFFmpegAvailability] holds a parsed JSON value; [JNull] is the
    [null] the constructor stores. *)
Record Manager := {
  pythonCmd : option jsstring;
  useMlx : bool;
  mlxInstalled : bool;                          (* this.mlxInstalled?.installed *)
  currentDownloadProcess : option nat;
  cachedFFmpegPath : option jsstring;
  cachedFFmpegAvailability : json
}.

(** The manager as its constructor leaves it. *)
Definition newManager : Manager :=
  {| pythonCmd := None; useMlx := false; mlxInstalled := false;
     currentDownloadProcess := None; cachedFFmpegPath := None;
     cachedFFmpegAvailability := JNull |}.

Definition setPythonCmd (m : Manager) (v : option jsstring) : Manager :=
  {| pythonCmd := v; useMlx := useMlx m; mlxInstalled := mlxInstalled m;
     currentDownloadProcess := currentDownloadProcess m;
     cachedFFmpegPath := cachedFFmpegPath m;
     cachedFFmpegAvailability := cachedFFmpegAvailability m |}.

Definition setCurrentDownloadProcess (m : Manager) (v : option nat) : Manager :=
  {| pythonCmd := pythonCmd m; useMlx := useMlx m; mlxInstalled := mlxInstalled m;
     currentDownloadProcess := v;
     cachedFFmpegPath := cachedFFmpegPath m;
     cachedFFmpegAvailability := cachedFFmpegAvailability m |}.

Definition setCachedFFmpegPath (m : Manager) (v : option jsstring) : Manager :=
  {| pythonCmd := pythonCmd m; useMlx := useMlx m; mlxInstalled := mlxInstalled m;
     currentDownloadProcess := currentDownloadProcess m;
     cachedFFmpegPath := v;
     cachedFFmpegAvailability := cachedFFmpegAvailability m |}.

Definition setCachedFFmpegAvailability (m : Manager) (v : json) : Manager :=
  {| pythonCmd := pythonCmd m; useMlx := useMlx m; mlxInstalled := mlxInstalled m;
     currentDownloadProcess := currentDownloadProcess m;
     cachedFFmpegPath := cachedFFmpegPath m;
     cachedFFmpegAvailability := v |}.

(** How a spawned process that is only run to completion ends: [spawn]
    throws, the child emits [error], or it closes with an exit code ([None]
    is the [null] of a child ended by a signal) and what it wrote. *)
Inductive ProcessEnd :=
| SpawnThrows (message : jsstring)
| SpawnError (message : jsstring)
| Closed (code : option Z) (stdout stderr : jsstring).

(** An environment to run the model in: a development checkout on a POSIX
    machine.  [path.join] is taken without normalisation, and the base64
    decoder ignores what is outside the alphabet and stops at the first
    padding character. *)
Fixpoint joinWith (sep : jsstring) (parts : list jsstring) : jsstring :=
  match parts with
  | [] => []
  | [p] => p
  | p :: rest => p ++ sep ++ joinWith sep rest
  end.

Definition base64Value (c : N) : option N :=
  if (65 <=? c) && (c <=? 90) then Some (c - 65)
  else if (97 <=? c) && (c <=? 122) then Some (c - 71)
  else if (48 <=? c) && (c <=? 57) then Some (c + 4)
  else if (c =? 43) || (c =? 45) then Some 62
  else if (c =? 47) || (c =? 95) then Some 63
  else None.

Fixpoint sextets (s : jsstring) : list N :=
  match s with
  | [] => []
  | c :: r => if c =? 61 then []
              else match base64Value c with
                   | Some v => v :: sextets r
                   | None => sextets r
                   end
  end.

Fixpoint octets (six : list N) : list N :=
  match six with
  | a :: b :: c :: d :: r =>
      (a * 4 + b / 16) :: ((b mod 16) * 16 + c / 4) :: ((c mod 4) * 64 + d)
      :: octets r
  | [a; b; c] => [a * 4 + b / 16; (b mod 16) * 16 + c / 4]
  | [a; b] => [a * 4 + b / 16]
  | _ => []
  end.

Definition posixEnv : Env :=
  {| platform := Linux;
     getenv := fun name => if decide (name = js "NODE_ENV")
                           then Some (js "development") else None;
     resourcesPath := None;
     dirname := js "/opt/app/src/helpers";
     homedir := js "/home/user";
     tmpdir := js "/tmp";
     pathJoin := joinWith (js "/");
     isAbsolute := fun p => startsWith p (js "/");
     base64Decode := fun s => octets (sextets s) |}.

End Runtime.
Import Runtime.

(** ** Interpreter discovery: [findPythonExecutable] *)

Module Interpreter.

(** The number unary [+] reads from a run of digits: the double nearest to
    the digits' value, or [Infinity] when that lies beyond the largest
    double.  The doubles met here are natural numbers. *)
Inductive Double := Whole (n : N) | Infinity.

(** Rounding to the 53 bits of a double's significand, ties to even.  Below
    [2 ^ 53] every natural number is a double; above, [k] bits are dropped
    and the result is a multiple of [2 ^ k]. *)
Definition toDouble (n : N) : Double :=
  if n <? 2 ^ 53 then Whole n
  else
    let k := N.log2 n - 52 in
    let q := N.shiftr n k in
    let r := N.land n (N.ones k) in
    let half := 2 ^ (k - 1) in
    let q := if (half <? r) || ((r =? half) && N.odd q) then q + 1 else q in
    if 2 ^ 1024 <=? N.shiftl q k then Infinity else Whole (N.shiftl q k).

(** [{ major, minor }] *)
Record Version := { major : Double; minor : Double }.

(** A code unit matches a letter of the pattern under the [i] flag: the
    letter itself or its other ASCII case.  (No code unit outside ASCII
    canonicalizes to an ASCII letter in a non-Unicode pattern.) *)
Definition foldAscii (c : N) : N :=
  if (65 <=? c) && (c <=? 90) then c + 32 else c.

Fixpoint stripPrefixIgnoreCase (p s : jsstring) : option jsstring :=
  match p, s with
  | [], _ => Some s
  | a :: p', b :: s' =>
      if foldAscii a =? foldAscii b then stripPrefixIgnoreCase p' s' else None
  | _ :: _, [] => None
  end.

(** [/Python (\d+)\.(\d+)/i] anchored at the front of [s].  Both digit runs
    are greedy; a shorter first run would be followed by a digit, never by
    the dot, so backtracking finds nothing more. *)
Definition matchVersionAt (s : jsstring) : option Version :=
  match stripPrefixIgnoreCase (js "python ") s with
  | None => None
  | Some r =>
      match spanDigits r with
      | ([], _) => None
      | (mj, r1) =>
          match r1 with
          | c :: r2 =>
              if c =? 46 then
                match spanDigits r2 with
                | ([], _) => None
                | (mn, _) =>
                    Some {| major := toDouble (digitsValue mj);       (* +match[1] *)
                            minor := toDouble (digitsValue mn) |}     (* +match[2] *)
                end
              else None
          | [] => None
          end
      end
  end.

(** [output.match(/Python (\d+)\.(\d+)/i)]: the leftmost match. *)
Fixpoint matchVersion (output : jsstring) : option Version :=
  match matchVersionAt output with
  | Some v => Some v
  | None => match output with [] => None | _ :: r => matchVersion r end
  end.

(** How a [--version] probe ends: [spawn] throws, the child emits [error],
    or it closes with an exit code and [output], everything it wrote to
    stdout and stderr in the order it arrived. *)
Inductive ProbeEnd :=
| ProbeThrows
| ProbeError
| ProbeClosed (code : option Z) (output : jsstring).

(** [getPythonVersion(pythonPath)], given how the probe ends.  The promise
    resolves with a version or [null]; it rejects only when [spawn] itself
    throws. *)
Definition getPythonVersion (probe : ProbeEnd)
  : Completion unit (option Version) :=
  match probe with
  | ProbeThrows => Raises ()
  | ProbeError => Returns None
  | ProbeClosed code output =>
      if decide (code = Some 0%Z) then Returns (matchVersion output)
      else Returns None
  end.

(** [version && version.major === 3] *)
Definition isPythonVersionSupported (version : option Version) : bool :=
  match version with
  | Some v => match major v with Whole n => n =? 3 | Infinity => false end
  | None => false
  end.

Definition isQuote (c : N) : bool := (c =? 34) || (c =? 39).

(** [candidate.trim().replace(/^["']|["']$/g, "")] *)
Definition sanitizeCandidate (candidate : jsstring) : jsstring :=
  let t := trim candidate in
  let t1 := match t with c :: r => if isQuote c then r else t | [] => [] end in
  match rev t1 with
  | c :: r => if isQuote c then rev r else t1
  | [] => []
  end.

(** [addCandidate]: a [Set] keeps insertion order and no duplicates. *)
Definition addCandidate (set : list jsstring) (candidate : jsstring)
  : list jsstring :=
  match sanitizeCandidate candidate with
  | [] => set
  | sanitized => if decide (sanitized ∈ set) then set else set ++ [sanitized]
  end.

Definition envOr (env : Env) (name : string) (fallback : jsstring) : jsstring :=
  if truthyString (getenv env (js name)) then default [] (getenv env (js name))
  else fallback.

Definition versionSuffixes : list jsstring :=
  [js "313"; js "312"; js "311"; js "310"; js "39"; js "38"].

Definition getWindowsPythonCandidates (env : Env) : list jsstring :=
  let systemDrive := envOr env "SystemDrive" (js "C:") in
  let windowsDir := envOr env "WINDIR" (pathJoin env [systemDrive; js "Windows"]) in
  let localAppData := getenv env (js "LOCALAPPDATA") in
  let launchers :=
    [js "py"; js "py.exe"; js "python3"; js "python3.exe"; js "python";
     js "python.exe"; pathJoin env [windowsDir; js "py.exe"]] in
  let apps :=
    if truthyString localAppData then
      let windowsApps :=
        pathJoin env [default [] localAppData; js "Microsoft"; js "WindowsApps"] in
      [pathJoin env [windowsApps; js "python.exe"];
       pathJoin env [windowsApps; js "python3.exe"]]
    else [] in
  let baseDirs :=
    (if truthyString localAppData
     then [pathJoin env [default [] localAppData; js "Programs"; js "Python"]]
     else [])
    ++ (if truthyString (getenv env (js "ProgramFiles"))
        then [default [] (getenv env (js "ProgramFiles"))] else [])
    ++ (if truthyString (getenv env (js "ProgramFiles(x86)"))
        then [default [] (getenv env (js "ProgramFiles(x86)"))] else [])
    ++ [systemDrive] in
  launchers ++ apps
  ++ (filter (fun d => d ≠ []) baseDirs ≫= fun baseDir =>
        (fun suffix => pathJoin env [baseDir; js "Python" ++ suffix; js "python.exe"])
          <$> versionSuffixes).

Definition commonCandidates : list jsstring :=
  [js "python3.12"; js "python3.11"; js "python3.10"; js "python3"; js "python";
   js "/usr/bin/python3.12"; js "/usr/bin/python3.11"; js "/usr/bin/python3.10";
   js "/usr/bin/python3";
   js "/usr/local/bin/python3.12"; js "/usr/local/bin/python3.11";
   js "/usr/local/bin/python3.10"; js "/usr/local/bin/python3";
   js "/opt/homebrew/bin/python3.12"; js "/opt/homebrew/bin/python3.11";
   js "/opt/homebrew/bin/python3.10"; js "/opt/homebrew/bin/python3";
   js "/usr/bin/python"; js "/usr/local/bin/python"].

(** The candidates in the order they are offered to [addCandidate]. *)
Definition rawCandidates (env : Env) : list jsstring :=
  (if truthyString (getenv env (js "OPENWHISPR_PYTHON"))
   then [default [] (getenv env (js "OPENWHISPR_PYTHON"))] else [])
  ++ (if isWin32 (platform env) then getWindowsPythonCandidates env else [])
  ++ [pathJoin env [homedir env; js ".pyenv"; js "shims"; js "python3"];
      pathJoin env [homedir env; js ".pyenv"; js "shims"; js "python"]]
  ++ commonCandidates.

Definition candidateSet (raw : list jsstring) : list jsstring :=
  foldl addCandidate [] raw.

(** [path.isAbsolute(pythonPath) && !fs.existsSync(pythonPath)] *)
Definition skipped (env : Env) (fs : FS) (pythonPath : jsstring) : bool :=
  isAbsolute env pythonPath && negb (existsSync fs pythonPath).

(** The candidate's probe reports a supported version. *)
Definition supported (probe : jsstring -> ProbeEnd) (pythonPath : jsstring)
  : bool :=
  match getPythonVersion (probe pythonPath) with
  | Returns v => isPythonVersionSupported v
  | Raises _ => false
  end.

(** The [for (const pythonPath of candidateSet)] loop: the first accepted
    candidate, if any, and the probes spawned on the way. *)
Fixpoint searchCandidates (env : Env) (fs : FS) (probe : jsstring -> ProbeEnd)
  (candidates : list jsstring) : option jsstring * list Effect :=
  match candidates with
  | [] => (None, [])
  | pythonPath :: rest =>
      if skipped env fs pythonPath then searchCandidates env fs probe rest
      else
        let spawned := Spawn pythonPath [js "--version"] in
        match getPythonVersion (probe pythonPath) with
        | Returns version =>
            if isPythonVersionSupported version then (Some pythonPath, [spawned])
            else let '(found, trace) := searchCandidates env fs probe rest in
                 (found, spawned :: trace)
        | Raises _ =>
            let '(found, trace) := searchCandidates env fs probe rest in
            (found, spawned :: trace)
        end
  end.

Inductive InterpreterError := PythonNotFound.

(** [findPythonExecutable()] over the candidates [raw] offered to
    [addCandidate]. *)
Definition findPythonExecutableFrom (raw : list jsstring) (env : Env) (fs : FS)
  (probe : jsstring -> ProbeEnd) (m : Manager)
  : Completion InterpreterError jsstring * Manager * list Effect :=
  if truthyString (pythonCmd m) then (Returns (default [] (pythonCmd m)), m, [])
  else
    match searchCandidates env fs probe (candidateSet raw) with
    | (Some pythonPath, trace) =>
        (Returns pythonPath, setPythonCmd m (Some pythonPath), trace)
    | (None, trace) => (Raises PythonNotFound, m, trace)
    end.

Definition findPythonExecutable (env : Env) :=
  findPythonExecutableFrom (rawCandidates env) env.

End Interpreter.
Import Interpreter.

(** ** Dependency installation: [installWhisper] *)

Module Installer.

Definition isAnsiParam (c : N) : bool := isDigit c || (c =? 59).

Fixpoint spanAnsiParams (s : jsstring) : nat * jsstring :=
  match s with
  | c :: r => if isAnsiParam c then let '(n, r') := spanAnsiParams r in (S n, r')
              else (O, s)
  | [] => (O, [])
  end.

(** The length of a match of [/\x1B\[[0-9;]*m/] at the front of [s]. *)
Definition ansiLength (s : jsstring) : option nat :=
  match s with
  | a :: b :: r =>
      if (a =? 27) && (b =? 91) then
        match spanAnsiParams r with
        | (n, c :: _) => if c =? 109 then Some (3 + n)%nat else None
        | (_, []) => None
        end
      else None
  | _ => None
  end.

(** Drops [skip] code units, then every escape sequence. *)
Fixpoint dropAnsi (skip : nat) (s : jsstring) : jsstring :=
  match s with
  | [] => []
  | c :: r =>
      match skip with
      | S k => dropAnsi k r
      | O => match ansiLength s with
             | Some n => dropAnsi (n - 1) r
             | None => c :: dropAnsi 0 r
             end
      end
  end.

(** [message.replace(/\x1B\[[0-9;]*m/g, "")] *)
Definition sanitizeErrorMessage (message : jsstring) : jsstring :=
  dropAnsi 0 message.

Definition shouldRetryWithUserInstall (message : jsstring) : bool :=
  let normalized := toLowerCase (sanitizeErrorMessage message) in
  includes normalized (js "permission denied")
  || includes normalized (js "access is denied")
  || includes normalized (js "externally-managed-environment")
  || includes normalized (js "externally managed environment")
  || includes normalized (js "pep 668")
  || includes normalized (js "--break-system-packages").

Definition isTomlResolverError (message : jsstring) : bool :=
  let normalized := toLowerCase (sanitizeErrorMessage message) in
  includes normalized (js "pyproject.toml") || includes normalized (js "tomlerror").

Definition formatWhisperInstallError (message : jsstring) : jsstring :=
  let formatted := match sanitizeErrorMessage message with
                   | [] => js "Whisper installation failed."
                   | m => m
                   end in
  let lower := toLowerCase formatted in
  if includes lower (js "microsoft visual c++") then
    js "Microsoft Visual C++ build tools required. Install Visual Studio Build Tools."
  else if includes lower (js "no matching distribution") then
    js "Python version incompatible. OpenAI Whisper requires Python 3.8-3.11."
  else formatted.

(** An install strategy: the options given to [buildInstallArgs]. *)
Record Strategy := { user : bool; legacy : bool }.

Global Instance Strategy_eq_dec : EqDecision Strategy.
Proof. solve_decision. Defined.

Definition buildInstallArgs (s : Strategy) : list jsstring :=
  [js "-m"; js "pip"; js "install"]
  ++ (if legacy s then [js "--use-deprecated=legacy-resolver"] else [])
  ++ (if user s then [js "--user"] else [])
  ++ [js "-U"; js "openai-whisper"].

(** The [pip install ... --upgrade pip] commands. *)
Definition upgradePipArgs (p : Platform) : list jsstring :=
  [js "-m"; js "pip"; js "install"]
  ++ (if isDarwin p then [js "--user"] else [])
  ++ [js "--upgrade"; js "pip"].

Definition upgradePipUserArgs : list jsstring :=
  [js "-m"; js "pip"; js "install"; js "--user"; js "--upgrade"; js "pip"].

Definition upgradePipLegacyArgs : list jsstring :=
  [js "-m"; js "pip"; js "install"; js "--use-deprecated=legacy-resolver";
   js "--upgrade"; js "pip"].

(** One call of [runCommand(pythonCmd, args, ...)] made by [installWhisper]. *)
Inductive Step :=
| UpgradePip (args : list jsstring)
| InstallPackage (strategy : Strategy).

Definition stepArgs (s : Step) : list jsstring :=
  match s with
  | UpgradePip args => args
  | InstallPackage strategy => buildInstallArgs strategy
  end.

(** What [runCommand] answers: the [n]-th call of the run, made with [args],
    resolves with the command's result or rejects with an error message. *)
Abbreviation CommandOracle := (nat -> list jsstring -> Completion jsstring jsstring).

Definition runCommand (oracle : CommandOracle) (log : list Step) (step : Step)
  : Completion jsstring jsstring * list Step :=
  (oracle (length log) (stepArgs step), log ++ [step]).

Definition failedToUpgradePip : jsstring :=
  js "Failed to upgrade pip. Please manually run: python -m pip install --upgrade pip".

(** The first [try] of [installWhisper]: upgrade pip.  [Raises] is the one
    error this part throws; every other failure is logged and passed over. *)
Definition upgradePipPhase (p : Platform) (oracle : CommandOracle)
  : Completion jsstring unit * list Step :=
  match runCommand oracle [] (UpgradePip (upgradePipArgs p)) with
  | (Returns _, log) => (Returns (), log)
  | (Raises error, log) =>
      let cleanUpgradeError := sanitizeErrorMessage error in
      match runCommand oracle log (UpgradePip upgradePipUserArgs) with
      | (Returns _, log) => (Returns (), log)
      | (Raises userError, log) =>
          let cleanUserError := sanitizeErrorMessage userError in
          if isTomlResolverError cleanUpgradeError
             || isTomlResolverError cleanUserError then
            match runCommand oracle log (UpgradePip upgradePipLegacyArgs) with
            | (Returns _, log) => (Returns (), log)
            | (Raises _, log) => (Raises failedToUpgradePip, log)
            end
          else (Returns (), log)
      end
  end.

(** The second [try] of [installWhisper]: install the package. *)
Definition installPackagePhase (p : Platform) (oracle : CommandOracle)
  (log : list Step) : Completion jsstring jsstring * list Step :=
  let defaultUseUser := isDarwin p in
  match runCommand oracle log
          (InstallPackage {| user := defaultUseUser; legacy := false |}) with
  | (Returns r, log) => (Returns r, log)
  | (Raises error, log) =>
      let cleanMessage := sanitizeErrorMessage error in
      if shouldRetryWithUserInstall cleanMessage then
        match runCommand oracle log
                (InstallPackage {| user := true; legacy := false |}) with
        | (Returns r, log) => (Returns r, log)
        | (Raises userError, log) =>
            let userMessage := sanitizeErrorMessage userError in
            if isTomlResolverError userMessage then
              runCommand oracle log
                (InstallPackage {| user := true; legacy := true |})
            else (Raises (formatWhisperInstallError userMessage), log)
        end
      else if isTomlResolverError cleanMessage then
        match runCommand oracle log
                (InstallPackage {| user := false; legacy := true |}) with
        | (Returns r, log) => (Returns r, log)
        | (Raises legacyError, log) =>
            let legacyMessage := sanitizeErrorMessage legacyError in
            if shouldRetryWithUserInstall legacyMessage then
              runCommand oracle log
                (InstallPackage {| user := true; legacy := true |})
            else (Raises (formatWhisperInstallError legacyMessage), log)
        end
      else (Raises (formatWhisperInstallError cleanMessage), log)
  end.

(** [installWhisper()] once [findPythonExecutable()] has returned: the
    outcome and every command run, in order. *)
Definition installWhisper (p : Platform) (oracle : CommandOracle)
  : Completion jsstring jsstring * list Step :=
  match upgradePipPhase p oracle with
  | (Raises e, log) => (Raises e, log)
  | (Returns _, log) => installPackagePhase p oracle log
  end.

(** The strategies tried on the package-install command, in order. *)
Definition strategiesTried (log : list Step) : list Strategy :=
  omap (fun s => match s with InstallPackage st => Some st | UpgradePip _ => None end)
       log.

End Installer.
Import Installer.

(** ** Locating the decoder binary: [getFFmpegPath], [checkFFmpegAvailability] *)

Module Decoder.

Definition isLineTerminator (c : N) : bool :=
  (c =? 10) || (c =? 13) || (c =? 8232) || (c =? 8233).

(** A match of [/.*app\.asar/] anchored at the front of [s]: what follows
    the last [app.asar] that starts before the first line terminator. *)
Fixpoint matchUpToAsar (s : jsstring) : option jsstring :=
  match s with
  | [] => None
  | c :: r =>
      if isLineTerminator c then None
      else match matchUpToAsar r with
           | Some tail => Some tail
           | None => stripPrefix (js "app.asar") s
           end
  end.

(** [s.replace(/.*app\.asar/, by)], for a replacement without [$]
    patterns. *)
Fixpoint replaceUpToAsar (by_ s : jsstring) : jsstring :=
  match matchUpToAsar s with
  | Some tail => by_ ++ tail
  | None => match s with [] => [] | c :: r => c :: replaceUpToAsar by_ r end
  end.

Definition binaryName (env : Env) : jsstring :=
  if isWin32 (platform env) then js "ffmpeg.exe" else js "ffmpeg".

Definition packagedFFmpegPath (env : Env) (resources : jsstring) : jsstring :=
  pathJoin env [resources; js "app.asar.unpacked"; js "node_modules";
                js "ffmpeg-static"; binaryName env].

(** The first path of [possiblePaths] that exists, else the path as it was. *)
Definition firstExisting (fs : FS) (paths : list jsstring) (otherwise : jsstring)
  : jsstring :=
  default otherwise (head (filter (fun p => existsSync fs p = true) paths)).

(** The outer [try] block of [getFFmpegPath]: the verified bundled path, or
    [None] when anything in the block throws.  [ffmpegStatic] is what
    [require("ffmpeg-static")] evaluates to: it throws, or gives a path or
    [null]. *)
Definition bundledFFmpegPath (env : Env) (fs : FS)
  (ffmpegStatic : Completion unit (option jsstring)) : option jsstring :=
  let primary : option jsstring :=
    if negb (isDevelopment env) && truthyString (resourcesPath env) then
      Some (packagedFFmpegPath env (default [] (resourcesPath env)))
    else
      match ffmpegStatic with
      | Raises _ => None
      | Returns None => None      (* [null.endsWith] or [null.replace] throws *)
      | Returns (Some p) =>
          if isWin32 (platform env) && negb (endsWith p (js ".exe"))
          then Some (p ++ js ".exe") else Some p
      end in
  match primary with
  | None => None
  | Some ffmpegPath =>
      let ffmpegPath :=
        if existsSync fs ffmpegPath then ffmpegPath
        else
          firstExisting fs
            [replaceFirst (js "app.asar") (js "app.asar.unpacked") ffmpegPath;
             replaceUpToAsar
               (pathJoin env [dirname env; js ".."; js ".."; js "app.asar.unpacked"])
               ffmpegPath;
             packagedFFmpegPath env (default [] (resourcesPath env))]
            ffmpegPath in
      if negb (existsSync fs ffmpegPath) then None
      else if negb (accessExecutable fs ffmpegPath) then None
      else Some ffmpegPath
  end.

(** [getFFmpegPath()].  A thrown error is all the [catch] blocks can see,
    so the method is modelled as a completion; [getFFmpegPath_never_throws]
    shows it always returns.  In the fallback the system binary is probed
    with [--version] ([systemProbe] is how that [runCommand] settles). *)
Definition getFFmpegPath (env : Env) (fs : FS)
  (ffmpegStatic : Completion unit (option jsstring))
  (systemProbe : Completion jsstring jsstring) (m : Manager)
  : Completion jsstring jsstring * Manager * list Effect :=
  if truthyString (cachedFFmpegPath m) then
    (Returns (default [] (cachedFFmpegPath m)), m, [])
  else
    let '(ffmpegPath, trace) :=
      match bundledFFmpegPath env fs ffmpegStatic with
      | Some ffmpegPath => (ffmpegPath, [])
      | None =>
          let systemFFmpeg := binaryName env in
          (match systemProbe with
           | Returns versionResult => systemFFmpeg
           | Raises systemError => systemFFmpeg
           end,
           [Spawn systemFFmpeg [js "--version"]])
      end in
    (Returns ffmpegPath, setCachedFFmpegPath m (Some ffmpegPath), trace).

Definition bridgeName (m : Manager) : jsstring :=
  if useMlx m && mlxInstalled m then js "whisper_bridge_mlx_official.py"
  else js "whisper_bridge.py".

(** The message of the [TypeError] that [path.join] throws when an
    argument is [undefined]. *)
Definition pathArgumentError : jsstring :=
  jsq "The 'path' argument must be of type string. Received undefined".

(** [getWhisperScriptPath()].  Outside development the path is joined from
    [process.resourcesPath]; where that is [undefined], [path.join] throws. *)
Definition getWhisperScriptPath (env : Env) (m : Manager)
  : Completion jsstring jsstring :=
  if isDevelopment env then
    Returns (pathJoin env [dirname env; js ".."; js ".."; bridgeName m])
  else
    match resourcesPath env with
    | Some resources =>
        Returns (pathJoin env [resources; js "app.asar.unpacked"; bridgeName m])
    | None => Raises pathArgumentError
    end.

(** [{ available: false, error }] *)
Definition unavailable (error : jsstring) : json :=
  JObject [(js "available", JBool false); (js "error", JString error)].

(** The message of the error [spawn] throws. *)
Definition rejection (check : ProcessEnd) : jsstring :=
  match check with SpawnThrows message => message | _ => [] end.

(** What the promise around the [check-ffmpeg] process resolves with; [None]
    when [spawn] throws and the promise rejects. *)
Definition ffmpegCheckResult (check : ProcessEnd) : option json :=
  match check with
  | SpawnThrows _ => None
  | SpawnError message => Some (unavailable message)
  | Closed code output stderr =>
      if decide (code = Some 0%Z) then
        match Json.parse output with
        | Some result => Some result
        | None => Some (unavailable (js "Failed to parse FFmpeg check result"))
        end
      else Some (unavailable (match stderr with
                              | [] => js "FFmpeg check failed"
                              | _ => stderr
                              end))
  end.

(** What the outside world answers during one operation of the manager. *)
Record World := {
  probe : jsstring -> ProbeEnd;                   (* <candidate> --version *)
  ffmpegStatic : Completion unit (option jsstring); (* require("ffmpeg-static") *)
  systemProbe : Completion jsstring jsstring;     (* ffmpeg --version *)
  ffmpegCheck : ProcessEnd                        (* <script> --mode check-ffmpeg *)
}.

Definition pythonNotFoundMessage : jsstring :=
  jsq "Python 3.x not found. Click 'Install Python' in Settings or set OPENWHISPR_PYTHON to a valid interpreter path.".

(** [checkFFmpegAvailability()] *)
Definition checkFFmpegAvailability (env : Env) (fs : FS) (w : World) (m : Manager)
  : json * Manager * list Effect :=
  match cachedFFmpegAvailability m with
  | JNull =>
      match findPythonExecutable env fs (probe w) m with
      | (Raises _, m, t1) =>
          let errorResult := unavailable pythonNotFoundMessage in
          (errorResult, setCachedFFmpegAvailability m errorResult, t1)
      | (Returns pythonCmd, m, t1) =>
          match getWhisperScriptPath env m with
          | Raises error =>
              let errorResult := unavailable error in
              (errorResult, setCachedFFmpegAvailability m errorResult, t1)
          | Returns whisperScriptPath =>
              match getFFmpegPath env fs (ffmpegStatic w) (systemProbe w) m with
              | (Raises error, m, t2) =>
                  let errorResult := unavailable error in
                  (errorResult, setCachedFFmpegAvailability m errorResult, t1 ++ t2)
              | (Returns ffmpegPath, m, t2) =>
                  let spawned :=
                    Spawn pythonCmd
                      [whisperScriptPath; js "--mode"; js "check-ffmpeg"] in
                  match ffmpegCheckResult (ffmpegCheck w) with
                  | Some result =>
                      (result, setCachedFFmpegAvailability m result,
                       t1 ++ t2 ++ [spawned])
                  | None =>
                      let errorResult := unavailable (rejection (ffmpegCheck w)) in
                      (errorResult, setCachedFFmpegAvailability m errorResult,
                       t1 ++ t2 ++ [spawned])
                  end
              end
          end
      end
  | cached => (cached, m, [])
  end.

End Decoder.
Import Decoder.

(** ** Running the worker: the promise of [runWhisperProcess] *)

Module Runner.

(** What the promise is rejected with. *)
Inductive RunError :=
| InterpreterNotFound                     (* findPythonExecutable threw *)
| ScriptPathError (message : jsstring)    (* getWhisperScriptPath threw *)
| ScriptNotFound (path : jsstring)        (* "Whisper script not found at: ..." *)
| TimedOut                                (* "Whisper transcription timed out (120 seconds)" *)
| ExitFailure (code : option Z) (stderr : jsstring) (ffmpegHint : bool)
                                          (* "Whisper transcription failed (code ...): ..." *)
| PythonMissing                           (* error.code === "ENOENT" *)
| ProcessError (message : jsstring).      (* "Whisper process error: ..." *)

(** What happens to the invocation after [spawn]: the events the timer, the
    child's streams and the child deliver to the handlers. *)
Inductive RunEvent :=
| TimerFires
| StdoutData (data : jsstring)
| StderrData (data : jsstring)
| CloseEvent (code : option Z)
| ErrorEvent (enoent : bool) (message : jsstring).

(** The variables the handlers close over, the state of the promise, and what
    an observer sees: every call of [resolve] or [reject] in order, and the
    signals sent to the child.  A promise keeps its first settlement; later
    calls of [resolve] and [reject] leave it as it is. *)
Record RunState := {
  isResolved : bool;
  timerPending : bool;
  stdout : jsstring;
  stderr : jsstring;
  promise : option (Completion RunError jsstring);
  settleCalls : list (Completion RunError jsstring);
  signals : list Signal
}.

Definition spawned : RunState :=
  {| isResolved := false; timerPending := true; stdout := []; stderr := [];
     promise := None; settleCalls := []; signals := [] |}.

(** A call of [resolve(v)] or [reject(e)]. *)
Definition settle (c : Completion RunError jsstring) (s : RunState) : RunState :=
  {| isResolved := isResolved s; timerPending := timerPending s;
     stdout := stdout s; stderr := stderr s;
     promise := match promise s with Some p => Some p | None => Some c end;
     settleCalls := settleCalls s ++ [c];
     signals := signals s |}.

(** [isResolved = true; clearTimeout(timeout);] *)
Definition markResolved (s : RunState) : RunState :=
  {| isResolved := true; timerPending := false;
     stdout := stdout s; stderr := stderr s; promise := promise s;
     settleCalls := settleCalls s; signals := signals s |}.

(** [whisperProcess.kill("SIGTERM")] *)
Definition killTerm (s : RunState) : RunState :=
  {| isResolved := isResolved s; timerPending := timerPending s;
     stdout := stdout s; stderr := stderr s; promise := promise s;
     settleCalls := settleCalls s; signals := signals s ++ [SIGTERM] |}.

Definition timerDone (s : RunState) : RunState :=
  {| isResolved := isResolved s; timerPending := false;
     stdout := stdout s; stderr := stderr s; promise := promise s;
     settleCalls := settleCalls s; signals := signals s |}.

Definition appendOutput (out err : jsstring) (s : RunState) : RunState :=
  {| isResolved := isResolved s; timerPending := timerPending s;
     stdout := stdout s ++ out; stderr := stderr s ++ err; promise := promise s;
     settleCalls := settleCalls s; signals := signals s |}.

Definition mentionsFFmpeg (stderr : jsstring) : bool :=
  includes stderr (js "ffmpeg")
  || includes stderr (js "No such file or directory")
  || includes stderr (js "FFmpeg not found").

(** The callback given to [setTimeout]. *)
Definition onTimeout (s : RunState) : RunState :=
  if timerPending s then
    let s := timerDone s in
    if negb (isResolved s) then settle (Raises TimedOut) (killTerm s) else s
  else s.

(** [whisperProcess.on("close", ...)] *)
Definition onClose (code : option Z) (s : RunState) : RunState :=
  if isResolved s then s
  else
    let s := markResolved s in
    if decide (code = Some 0%Z) then settle (Returns (stdout s)) s
    else settle (Raises (ExitFailure code (stderr s) (mentionsFFmpeg (stderr s)))) s.

(** [whisperProcess.on("error", ...)] *)
Definition onError (enoent : bool) (message : jsstring) (s : RunState) : RunState :=
  if isResolved s then s
  else
    let s := markResolved s in
    if enoent then settle (Raises PythonMissing) s
    else settle (Raises (ProcessError message)) s.

Definition handle (s : RunState) (e : RunEvent) : RunState :=
  match e with
  | TimerFires => onTimeout s
  | StdoutData d => appendOutput d [] s
  | StderrData d => appendOutput [] d s
  | CloseEvent code => onClose code s
  | ErrorEvent enoent message => onError enoent message s
  end.

(** The invocation after the events [es], delivered in order. *)
Definition runEvents (es : list RunEvent) : RunState := foldl handle spawned es.

End Runner.
Import Runner.

(** ** The transcription pipeline: [transcribeLocalWhisper] *)

Module Pipeline.

(** The values [createTempAudioFile] may be handed.  [ViewBlob] and
    [OpaqueBlob] are the other objects whose [buffer] property is truthy:
    [ViewBlob] where [Buffer.from] can read that property (a typed array or
    a [DataView] over an [ArrayBuffer]), with the bytes it reads;
    [OpaqueBlob] where it cannot (the property is a number, [true], a plain
    object).  [OtherBlob] is every value that is none of the above, with
    what [typeof] says of it. *)
Inductive AudioBlob :=
| ArrayBufferBlob (bytes : list N)
| Uint8ArrayBlob (bytes : list N)
| StringBlob (s : jsstring)
| ViewBlob (buffer : list N)
| OpaqueBlob
| OtherBlob (typeOf : jsstring).

Inductive TempFileError :=
| BufferTypeError                        (* the TypeError of [Buffer.from] *)
| UnsupportedAudio (typeOf : jsstring)   (* "Unsupported audio data type: ..." *)
| WriteFailed                            (* fsPromises.writeFile rejects *)
| StatFailed                             (* fsPromises.stat rejects *)
| AudioFileEmpty.                        (* "Audio file is empty" *)

Inductive TranscribeError :=
| FFmpegNotAvailable (error : option json)  (* "FFmpeg not available: ..." *)
| CheckResultNull                           (* the check result is [null] *)
| TempFile (e : TempFileError)
| Run (e : RunError)
| Parse (why : ParseFailure).

(** What the outside world answers during one transcription. *)
Record Answers := {
  world : World;
  uuid : jsstring;                  (* crypto.randomUUID() *)
  writeFails : bool;
  statFails : bool;
  unlinkFails : bool;
  workerEvents : list RunEvent      (* what the worker process does *)
}.

(** The [if] chain that turns the input into a [Buffer]. *)
Definition toBuffer (env : Env) (audioBlob : AudioBlob)
  : Completion TempFileError (list N) :=
  match audioBlob with
  | ArrayBufferBlob bytes => Returns bytes
  | Uint8ArrayBlob bytes => Returns bytes
  | StringBlob s => Returns (base64Decode env s)
  | ViewBlob buffer => Returns buffer
  | OpaqueBlob => Raises BufferTypeError
  | OtherBlob typeOf => Raises (UnsupportedAudio typeOf)
  end.

Definition tempAudioPathFor (env : Env) (uuid : jsstring) : jsstring :=
  pathJoin env [tmpdir env; js "whisper_audio_" ++ uuid ++ js ".wav"].

(** [createTempAudioFile(audioBlob)] *)
Definition createTempAudioFile (env : Env) (a : Answers) (fs : FS)
  (audioBlob : AudioBlob)
  : Completion TempFileError jsstring * FS * list Effect :=
  let tempAudioPath := tempAudioPathFor env (uuid a) in
  match toBuffer env audioBlob with
  | Raises e => (Raises e, fs, [])
  | Returns buffer =>
      if writeFails a then (Raises WriteFailed, fs, [])
      else
        let fs := <[tempAudioPath := {| content := buffer; executable := false |}]> fs in
        let written := [WriteFile tempAudioPath (length buffer)] in
        if statFails a then (Raises StatFailed, fs, written)
        else
          match fs !! tempAudioPath with
          | None => (Raises StatFailed, fs, written)
          | Some stats =>
              if decide (length (content stats) = 0%nat)
              then (Raises AudioFileEmpty, fs, written)
              else (Returns tempAudioPath, fs, written)
          end
  end.

(** [cleanupTempFile(tempAudioPath)]: an error of [unlink] is caught and
    dropped. *)
Definition cleanupTempFile (a : Answers) (fs : FS) (tempAudioPath : jsstring)
  : FS * list Effect :=
  if unlinkFails a then (fs, [Unlink tempAudioPath])
  else (delete tempAudioPath fs, [Unlink tempAudioPath]).

Definition workerArgs (whisperScriptPath tempAudioPath model : jsstring)
  (language : option jsstring) : list jsstring :=
  [whisperScriptPath; tempAudioPath; js "--model"; model]
  ++ (if truthyString language then [js "--language"; default [] language] else [])
  ++ [js "--output-format"; js "json"].

(** The branch of the promise executor that assigns the unpacked path to
    [ffmpegPath]: the path lies inside [app.asar] and its unpacked sibling
    exists.  [ffmpegPath] is declared [const], so the assignment throws
    inside the [async] executor and the promise is never settled. *)
Definition reassignsFFmpegPath (fs : FS) (ffmpegPath : jsstring) : bool :=
  includes ffmpegPath (js "app.asar")
  && negb (includes ffmpegPath (js "app.asar.unpacked"))
  && existsSync fs (replaceFirst (js "app.asar") (js "app.asar.unpacked") ffmpegPath).

(** [runWhisperProcess(tempAudioPath, model, language)]: what the promise
    settles with, [None] when it never settles. *)
Definition runWhisperProcess (env : Env) (a : Answers) (fs : FS) (m : Manager)
  (tempAudioPath model : jsstring) (language : option jsstring)
  : option (Completion RunError jsstring) * Manager * list Effect :=
  match findPythonExecutable env fs (probe (world a)) m with
  | (Raises _, m, t1) => (Some (Raises InterpreterNotFound), m, t1)
  | (Returns pythonCmd, m, t1) =>
      match getWhisperScriptPath env m with
      | Raises message => (Some (Raises (ScriptPathError message)), m, t1)
      | Returns whisperScriptPath =>
          if negb (existsSync fs whisperScriptPath) then
            (Some (Raises (ScriptNotFound whisperScriptPath)), m, t1)
          else
            let args := workerArgs whisperScriptPath tempAudioPath model language in
            match getFFmpegPath env fs (ffmpegStatic (world a))
                    (systemProbe (world a)) m with
            | (Raises _, m, t2) => (None, m, t1 ++ t2)
            | (Returns ffmpegPath, m, t2) =>
                if reassignsFFmpegPath fs ffmpegPath then (None, m, t1 ++ t2)
                else (promise (runEvents (workerEvents a)), m,
                      t1 ++ t2 ++ [Spawn pythonCmd args])
            end
      end
  end.

(** [options.model || "base"] *)
Definition modelOr (model : option jsstring) : jsstring :=
  if truthyString model then default [] model else js "base".

(** [transcribeLocalWhisper(audioBlob, options)]: what the call returns or
    throws ([None] when it never returns), the manager and the file system
    it leaves, and what it did. *)
Definition transcribeLocalWhisper (env : Env) (a : Answers) (fs : FS)
  (m : Manager) (audioBlob : AudioBlob) (model language : option jsstring)
  : option (Completion TranscribeError ParsedTranscript) * Manager * FS * list Effect :=
  let '(ffmpegCheck, m, t0) := checkFFmpegAvailability env fs (world a) m in
  match ffmpegCheck with
  | JNull => (Some (Raises CheckResultNull), m, fs, t0)
  | _ =>
      if negb (truthyProp (getProp ffmpegCheck (js "available"))) then
        (Some (Raises (FFmpegNotAvailable (getProp ffmpegCheck (js "error")))),
         m, fs, t0)
      else
        match createTempAudioFile env a fs audioBlob with
        | (Raises e, fs, t1) => (Some (Raises (TempFile e)), m, fs, t0 ++ t1)
        | (Returns tempAudioPath, fs, t1) =>
            let '(settled, m, t2) :=
              runWhisperProcess env a fs m tempAudioPath (modelOr model) language in
            match settled with
            | None => (None, m, fs, t0 ++ t1 ++ t2)
            | Some settled =>
                let outcome :=
                  match settled with
                  | Raises e => Raises (Run e)
                  | Returns result =>
                      match parseWhisperResult result with
                      | Throws why => Raises (Parse why)
                      | parsed => Returns parsed
                      end
                  end in
                let '(fs, t3) := cleanupTempFile a fs tempAudioPath in
                (Some outcome, m, fs, t0 ++ t1 ++ t2 ++ t3)
            end
        end
  end.

End Pipeline.
Import Pipeline.

(** ** Model downloads: [downloadWhisperModel], [cancelDownload] *)

Module Download.

(** A [ChildProcess] as Node keeps it.  [alive] is the operating-system
    process; [killed] is the property of that name, which [kill()] sets when
    a signal was delivered (it does not say the process has ended);
    [received] are the signals delivered to the process. *)
Record Child := {
  alive : bool;
  killed : bool;
  received : list Signal
}.

Definition freshChild : Child :=
  {| alive := true; killed := false; received := [] |}.

(** [child.kill(signal)]: the signal is delivered and [killed] is set when
    the process still runs; otherwise nothing changes. *)
Definition kill (signal : Signal) (c : Child) : Child :=
  if alive c then
    {| alive := alive c; killed := true; received := received c ++ [signal] |}
  else c.

(** The process ends. *)
Definition exits (c : Child) : Child :=
  {| alive := false; killed := killed c; received := received c |}.

(** The manager and the child processes it has spawned for downloads. *)
Record DownloadState := {
  manager : Manager;
  children : gmap nat Child
}.

Definition withManager (s : DownloadState) (m : Manager) : DownloadState :=
  {| manager := m; children := children s |}.

Definition withChild (s : DownloadState) (pid : nat) (c : Child) : DownloadState :=
  {| manager := manager s; children := <[pid := c]> (children s) |}.

(** The first process id not in use. *)
Definition freshPid (s : DownloadState) : nat :=
  fresh (dom (children s)).

(** [spawn(pythonCmd, args)] in [downloadWhisperModel], and
    [this.currentDownloadProcess = downloadProcess]. *)
Definition startDownload (s : DownloadState) : DownloadState :=
  let pid := freshPid s in
  withChild (withManager s (setCurrentDownloadProcess (manager s) (Some pid)))
            pid freshChild.

(** [downloadProcess.on("close", ...)]: the first statement of the handler. *)
Definition onDownloadClose (s : DownloadState) (pid : nat) : DownloadState :=
  withManager s (setCurrentDownloadProcess (manager s) None).

(** [downloadProcess.on("error", ...)]: the first statement of the handler. *)
Definition onDownloadError (s : DownloadState) (pid : nat) : DownloadState :=
  withManager s (setCurrentDownloadProcess (manager s) None).

(** What [cancelDownload()] returns. *)
Inductive CancelOutcome :=
| Cancelled                       (* { success: true, message: "Download cancelled" } *)
| CancelFailed (error : jsstring).  (* { success: false, error } *)

Definition noActiveDownload : jsstring := js "No active download to cancel".

Definition signal (s : DownloadState) (pid : nat) (sig : Signal) : DownloadState :=
  match children s !! pid with
  | Some c => withChild s pid (kill sig c)
  | None => s
  end.

(** [cancelDownload()] up to its [return]: the outcome, the state, and
    whether the three-second timer was set. *)
Definition cancelDownload (s : DownloadState)
  : CancelOutcome * DownloadState * bool :=
  match currentDownloadProcess (manager s) with
  | Some pid => (Cancelled, signal s pid SIGTERM, true)
  | None => (CancelFailed noActiveDownload, s, false)
  end.

(** The callback of the three-second timer set by [cancelDownload]. *)
Definition onGraceElapsed (s : DownloadState) : DownloadState :=
  match currentDownloadProcess (manager s) with
  | Some pid =>
      match children s !! pid with
      | Some c => if negb (killed c) then signal s pid SIGKILL else s
      | None => s
      end
  | None => s
  end.

(** The callback of the twenty-minute timer of [downloadWhisperModel], and
    of the five-second timer it sets. *)
Definition onDownloadTimeout (s : DownloadState) (pid : nat) : DownloadState :=
  signal s pid SIGTERM.

Definition onDownloadTimeoutGrace (s : DownloadState) (pid : nat) : DownloadState :=
  match children s !! pid with
  | Some c => if negb (killed c) then signal s pid SIGKILL else s
  | None => s
  end.

(** The process ends. *)
Definition processExits (s : DownloadState) (pid : nat) : DownloadState :=
  match children s !! pid with
  | Some c => withChild s pid (exits c)
  | None => s
  end.

(** What can happen to the manager's downloads, one event at a time. *)
Inductive DownloadEvent :=
| Start                              (* downloadWhisperModel spawns the worker *)
| ProcessExit (pid : nat)            (* the process ends *)
| CloseEmitted (pid : nat)           (* its "close" event *)
| ErrorEmitted (pid : nat)           (* its "error" event *)
| DownloadTimeout (pid : nat)        (* the twenty-minute timer fires *)
| DownloadTimeoutGrace (pid : nat)   (* five seconds later *)
| Cancel                             (* cancelDownload() is called *)
| CancelGrace.                       (* three seconds later *)

Definition step (s : DownloadState) (e : DownloadEvent) : DownloadState :=
  match e with
  | Start => startDownload s
  | ProcessExit pid => processExits s pid
  | CloseEmitted pid => onDownloadClose (processExits s pid) pid
  | ErrorEmitted pid => onDownloadError s pid
  | DownloadTimeout pid => onDownloadTimeout s pid
  | DownloadTimeoutGrace pid => onDownloadTimeoutGrace s pid
  | Cancel => (cancelDownload s).1.2
  | CancelGrace => onGraceElapsed s
  end.

Definition idle : DownloadState := {| manager := newManager; children := ∅ |}.

(** The signals a process has received. *)
Definition signalsOf (s : DownloadState) (pid : nat) : list Signal :=
  match children s !! pid with Some c => received c | None => [] end.

Definition isAlive (s : DownloadState) (pid : nat) : bool :=
  match children s !! pid with Some c => alive c | None => false end.

End Download.
Import Download.

(** ** Installation checks: [checkWhisperInstallation], [checkMlxInstallation],
    [installPython], [initializeAtStartup] *)

Module Installation.

(** What an installation check resolves with: [{ installed, working }], and
    [error] when the check could not be run. *)
Record InstallStatus := {
  installed : bool;
  working : bool;
  error : option jsstring
}.

(** The manager together with the fields only these methods use.  [None] is
    the [null] the constructor stores.  The [mlxInstalled] of [core] is the
    [installed] property of [mlxInstalledResult], which is all the other
    methods read of it. *)
Record Setup := {
  core : Manager;
  whisperInstalled : option InstallStatus;
  mlxInstalledResult : option InstallStatus;
  isInitialized : bool
}.

(** The object as its constructor leaves it. *)
Definition newSetup : Setup :=
  {| core := newManager; whisperInstalled := None; mlxInstalledResult := None;
     isInitialized := false |}.

Definition setUseMlx (m : Manager) (v : bool) : Manager :=
  {| pythonCmd := pythonCmd m; useMlx := v; mlxInstalled := mlxInstalled m;
     currentDownloadProcess := currentDownloadProcess m;
     cachedFFmpegPath := cachedFFmpegPath m;
     cachedFFmpegAvailability := cachedFFmpegAvailability m |}.

Definition setMlxInstalled (m : Manager) (v : bool) : Manager :=
  {| pythonCmd := pythonCmd m; useMlx := useMlx m; mlxInstalled := v;
     currentDownloadProcess := currentDownloadProcess m;
     cachedFFmpegPath := cachedFFmpegPath m;
     cachedFFmpegAvailability := cachedFFmpegAvailability m |}.

Definition withCore (s : Setup) (m : Manager) : Setup :=
  {| core := m; whisperInstalled := whisperInstalled s;
     mlxInstalledResult := mlxInstalledResult s; isInitialized := isInitialized s |}.

(** [this.whisperInstalled = result] *)
Definition setWhisperInstalled (s : Setup) (result : InstallStatus) : Setup :=
  {| core := core s; whisperInstalled := Some result;
     mlxInstalledResult := mlxInstalledResult s; isInitialized := isInitialized s |}.

(** [this.mlxInstalled = result] *)
Definition setMlxInstalledResult (s : Setup) (result : InstallStatus) : Setup :=
  {| core := setMlxInstalled (core s) (installed result);
     whisperInstalled := whisperInstalled s;
     mlxInstalledResult := Some result; isInitialized := isInitialized s |}.

(** [this.isInitialized = true] *)
Definition setInitialized (s : Setup) : Setup :=
  {| core := core s; whisperInstalled := whisperInstalled s;
     mlxInstalledResult := mlxInstalledResult s; isInitialized := true |}.

(** [{ installed: true, working: true }] *)
Definition succeeded : InstallStatus :=
  {| installed := true; working := true; error := None |}.

(** [{ installed: false, working: false }], with or without [error]. *)
Definition failed (error : option jsstring) : InstallStatus :=
  {| installed := false; working := false; error := error |}.

(** What the promise around the import check settles with: it resolves from
    the [close] or the [error] handler, and rejects when [spawn] throws. *)
Definition importCheckResult (check : ProcessEnd) : Completion jsstring InstallStatus :=
  match check with
  | SpawnThrows message => Raises message
  | SpawnError message => Returns (failed (Some message))
  | Closed code output stderr =>
      if bool_decide (code = Some 0%Z) && includes output (js "OK")
      then Returns succeeded else Returns (failed None)
  end.

Definition whisperImportArgs : list jsstring :=
  [js "-c"; jsq "import whisper; print('OK')"].

Definition mlxImportArgs : list jsstring :=
  [js "-c"; jsq "import mlx_whisper; print('OK')"].

(** The [try] block shared by the two checks, up to the assignment of the
    result: the interpreter is looked up again after [forceCheck] has
    cleared it, the import is tried, and an error thrown on the way becomes
    a failed result. *)
Definition runImportCheck (env : Env) (fs : FS) (probe : jsstring -> ProbeEnd)
  (args : list jsstring) (check : ProcessEnd) (forceCheck : bool) (m : Manager)
  : InstallStatus * Manager * list Effect :=
  let m := if forceCheck then setPythonCmd m None else m in
  match findPythonExecutable env fs probe m with
  | (Raises _, m, trace) => (failed (Some pythonNotFoundMessage), m, trace)
  | (Returns pythonCmd, m, trace) =>
      (match importCheckResult check with
       | Returns result => result
       | Raises message => failed (Some message)
       end, m, trace ++ [Spawn pythonCmd args])
  end.

(** [checkWhisperInstallation(forceCheck)] *)
Definition checkWhisperInstallation (env : Env) (fs : FS)
  (probe : jsstring -> ProbeEnd) (check : ProcessEnd) (forceCheck : bool)
  (s : Setup) : InstallStatus * Setup * list Effect :=
  match (if forceCheck then None else whisperInstalled s) with
  | Some cached => (cached, s, [])
  | None =>
      let '(result, m, trace) :=
        runImportCheck env fs probe whisperImportArgs check forceCheck (core s) in
      (result, setWhisperInstalled (withCore s m) result, trace)
  end.

(** [checkMlxInstallation(forceCheck)] *)
Definition checkMlxInstallation (env : Env) (fs : FS)
  (probe : jsstring -> ProbeEnd) (check : ProcessEnd) (forceCheck : bool)
  (s : Setup) : InstallStatus * Setup * list Effect :=
  match (if forceCheck then None else mlxInstalledResult s) with
  | Some cached => (cached, s, [])
  | None =>
      let '(result, m, trace) :=
        runImportCheck env fs probe mlxImportArgs check forceCheck (core s) in
      let s := setMlxInstalledResult (withCore s m) result in
      let s := if installed result && working result
               then withCore s (setUseMlx (core s) true) else s in
      (result, s, trace)
  end.

Definition installedButNotFound : jsstring :=
  js "Python installed but not found in PATH. Please restart the application.".

(** [installPython(progressCallback)], given how the installer's own
    [installPython] settles. *)
Definition installPython {R : Type} (env : Env) (fs : FS)
  (probe : jsstring -> ProbeEnd) (installer : Completion jsstring R) (m : Manager)
  : Completion jsstring R * Manager * list Effect :=
  let m := setPythonCmd m None in
  match installer with
  | Raises error => (Raises error, m, [])
  | Returns result =>
      match findPythonExecutable env fs probe m with
      | (Returns _, m, trace) => (Returns result, m, trace)
      | (Raises _, m, trace) => (Raises installedButNotFound, m, trace)
      end
  end.

(** [initializeAtStartup()] *)
Definition initializeAtStartup (env : Env) (fs : FS)
  (probe : jsstring -> ProbeEnd) (whisperCheck mlxCheck : ProcessEnd) (s : Setup)
  : Setup * list Effect :=
  match findPythonExecutable env fs probe (core s) with
  | (Raises _, m, t0) => (setInitialized (withCore s m), t0)
  | (Returns _, m, t0) =>
      let '(_, s, t1) :=
        checkWhisperInstallation env fs probe whisperCheck false (withCore s m) in
      let '(_, s, t2) := checkMlxInstallation env fs probe mlxCheck false s in
      (setInitialized s, t0 ++ t1 ++ t2)
  end.

End Installation.
Import Installation.

(** ** Model management: [checkModelStatus], [listWhisperModels],
    [deleteWhisperModel], and the progress lines of [downloadWhisperModel] *)

Module Models.

(** The three requests that run the worker script to completion and read
    its answer. *)
Inductive Request :=
| CheckModel (modelName : jsstring)     (* checkModelStatus *)
| ListModels                            (* listWhisperModels *)
| DeleteModel (modelName : jsstring).   (* deleteWhisperModel *)

Definition requestArgs (whisperScriptPath : jsstring) (request : Request)
  : list jsstring :=
  match request with
  | CheckModel modelName =>
      [whisperScriptPath; js "--mode"; js "check"; js "--model"; modelName]
  | ListModels => [whisperScriptPath; js "--mode"; js "list"]
  | DeleteModel modelName =>
      [whisperScriptPath; js "--mode"; js "delete"; js "--model"; modelName]
  end.

(** What a request is rejected with.  The texts name the request: "Model
    status check", "Model list" or "Model delete". *)
Inductive RequestError :=
| InterpreterMissing                     (* findPythonExecutable threw *)
| ScriptPathFailed (message : jsstring)  (* getWhisperScriptPath threw *)
| SpawnFailed (message : jsstring)       (* the error [spawn] threw *)
| ResultUnparsable                       (* "Failed to parse ...: ..." *)
| ExitedWith (code : option Z) (stderr : jsstring)
                                         (* "... failed (code N): <stderr>" *)
| ProcessFailed (message : jsstring).    (* "... error: <message>" *)

(** What the promise around the process settles with. *)
Definition requestResult (finish : ProcessEnd) : Completion RequestError json :=
  match finish with
  | SpawnThrows message => Raises (SpawnFailed message)
  | SpawnError message => Raises (ProcessFailed message)
  | Closed code stdout stderr =>
      if decide (code = Some 0%Z) then
        match Json.parse stdout with
        | Some result => Returns result
        | None => Raises ResultUnparsable
        end
      else Raises (ExitedWith code stderr)
  end.

(** The body the three methods share. *)
Definition modelRequest (env : Env) (fs : FS) (probe : jsstring -> ProbeEnd)
  (finish : ProcessEnd) (m : Manager) (request : Request)
  : Completion RequestError json * Manager * list Effect :=
  match findPythonExecutable env fs probe m with
  | (Raises _, m, trace) => (Raises InterpreterMissing, m, trace)
  | (Returns pythonCmd, m, trace) =>
      match getWhisperScriptPath env m with
      | Raises message => (Raises (ScriptPathFailed message), m, trace)
      | Returns whisperScriptPath =>
          (requestResult finish, m,
           trace ++ [Spawn pythonCmd (requestArgs whisperScriptPath request)])
      end
  end.

Definition checkModelStatus env fs probe finish m (modelName : jsstring) :=
  modelRequest env fs probe finish m (CheckModel modelName).

Definition listWhisperModels env fs probe finish m :=
  modelRequest env fs probe finish m ListModels.

Definition deleteWhisperModel env fs probe finish m (modelName : jsstring) :=
  modelRequest env fs probe finish m (DeleteModel modelName).

(** The decimal digits of a number, most significant first. *)
Fixpoint digitsOf (fuel : nat) (n : N) (acc : jsstring) : jsstring :=
  match fuel with
  | O => acc
  | S fuel =>
      let acc := (48 + n mod 10) :: acc in
      if n <? 10 then acc else digitsOf fuel (n / 10) acc
  end.

(** The property key of an array index or of a position in a string. *)
Definition indexKey (i : nat) : jsstring := digitsOf (S i) (N.of_nat i) [].

(** [{ ...value }]: the own enumerable properties of a parsed value.  An
    object gives its members, an array its items and a string its code
    units under their indices; [null], booleans and numbers give none. *)
Definition spread (value : json) : list (jsstring * json) :=
  match value with
  | JObject members => members
  | JArray items => imap (fun i item => (indexKey i, item)) items
  | JString s => imap (fun i c => (indexKey i, JString [c])) s
  | JNull | JBool _ | JNumber _ _ _ => []
  end.

(** [{ type: "progress", model: modelName, ...progressData }]; as in a
    parsed object, a key written again takes the later value. *)
Definition progressPayload (modelName : jsstring) (progressData : json) : json :=
  JObject ((js "type", JString (js "progress"))
           :: (js "model", JString modelName) :: spread progressData).

(** One turn of the loop over the lines of a chunk of stderr: the payload
    handed to [progressCallback], if any. *)
Definition progressOf (modelName : jsstring) (line : jsstring) : option json :=
  let trimmed := trim line in
  match stripPrefix (js "PROGRESS:") trimmed with
  | Some payload =>                       (* trimmed.substring(9) *)
      match Json.parse payload with
      | Some progressData => Some (progressPayload modelName progressData)
      | None => None                      (* the parse error is ignored *)
      end
  | None => None
  end.

(** The calls of [progressCallback] one chunk of stderr gives rise to, when
    a callback was given: the argument of each call, in order. *)
Definition progressUpdates (modelName : jsstring) (output : jsstring) : list json :=
  omap (progressOf modelName) (splitLines output).

End Models.
Import Models.

(** ** The recorder's WAV encoder: [AudioManager.audioBufferToWav] *)

Module Wav.

(** A JavaScript number as far as the encoder can tell numbers apart: not
    a number, an infinity, or the finite value [num / den].  Every sample
    of a [Float32Array] is of this form, and on such samples the two
    products the encoder forms (by [0x8000] and by [0x7fff]) are exact in
    double precision, as is the doubling of the sample rate. *)
Inductive Number :=
| NaN
| Infinite (negative : bool)
| Fraction (num : Z) (den : positive).

Definition ofZ (k : Z) : Number := Fraction k 1.

(** [Math.min(1, x)] *)
Definition min1 (x : Number) : Number :=
  match x with
  | NaN => NaN
  | Infinite true => x
  | Infinite false => ofZ 1
  | Fraction num den => if (Z.pos den <? num)%Z then ofZ 1 else x
  end.

(** [Math.max(-1, x)] *)
Definition maxMinus1 (x : Number) : Number :=
  match x with
  | NaN => NaN
  | Infinite true => ofZ (-1)
  | Infinite false => x
  | Fraction num den => if (num <? - Z.pos den)%Z then ofZ (-1) else x
  end.

(** [x < 0] *)
Definition isNegative (x : Number) : bool :=
  match x with
  | NaN => false
  | Infinite negative => negative
  | Fraction num _ => (num <? 0)%Z
  end.

(** [x * k] for a positive integer [k]. *)
Definition times (x : Number) (k : Z) : Number :=
  match x with
  | Fraction num den => Fraction (num * k) den
  | NaN | Infinite _ => x
  end.

(** The integer a number is converted to before it is stored: its integer
    part, rounded towards zero; 0 for [NaN] and the infinities. *)
Definition truncate (x : Number) : Z :=
  match x with
  | Fraction num den => (num ÷ Z.pos den)%Z
  | NaN | Infinite _ => 0%Z
  end.

(** The [width] bytes of [v] modulo [2^(8 * width)], least significant
    first. *)
Definition littleEndian (width : nat) (v : Z) : list N :=
  (fun k => Z.to_N ((v mod 2 ^ (8 * Z.of_nat width)) / 2 ^ (8 * Z.of_nat k) mod 256)%Z)
    <$> seq 0 width.

(** The setters of a [DataView] over a buffer of bytes, with
    [littleEndian = true].  A write outside the buffer is not modelled (it
    throws a [RangeError]); the encoder makes none. *)
Definition setUint8 (offset : nat) (value : Number) (view : list N) : list N :=
  list_inserts offset (littleEndian 1 (truncate value)) view.

Definition setUint16 (offset : nat) (value : Number) (view : list N) : list N :=
  list_inserts offset (littleEndian 2 (truncate value)) view.

Definition setInt16 (offset : nat) (value : Number) (view : list N) : list N :=
  list_inserts offset (littleEndian 2 (truncate value)) view.

Definition setUint32 (offset : nat) (value : Number) (view : list N) : list N :=
  list_inserts offset (littleEndian 4 (truncate value)) view.

(** The local function [writeString(offset, string)]. *)
Fixpoint writeString (offset : nat) (string : jsstring) (view : list N) : list N :=
  match string with
  | [] => view
  | c :: rest =>
      writeString (S offset) rest (setUint8 offset (ofZ (Z.of_N c)) view)
  end.

(** [buffer.sampleRate] and [buffer.getChannelData(0)]; [buffer.length] is
    the length of the channel. *)
Record AudioBuffer := {
  sampleRate : Number;
  channelData : list Number
}.

(** What is stored for one sample: clamped to [-1, 1], then scaled. *)
Definition scaled (x : Number) : Number :=
  let sample := maxMinus1 (min1 x) in
  if isNegative sample then times sample 32768 else times sample 32767.

(** The [for] loop over the samples. *)
Fixpoint writeSamples (offset : nat) (samples : list Number) (view : list N)
  : list N :=
  match samples with
  | [] => view
  | x :: rest => writeSamples (offset + 2) rest (setInt16 offset (scaled x) view)
  end.

(** [audioBufferToWav(buffer)]: the bytes of the blob. *)
Definition audioBufferToWav (buffer : AudioBuffer) : list N :=
  let length := length (channelData buffer) in
  let view := replicate (44 + length * 2) 0 in
  let view := writeString 0 (js "RIFF") view in
  let view := setUint32 4 (ofZ (36 + Z.of_nat length * 2)) view in
  let view := writeString 8 (js "WAVE") view in
  let view := writeString 12 (js "fmt ") view in
  let view := setUint32 16 (ofZ 16) view in
  let view := setUint16 20 (ofZ 1) view in
  let view := setUint16 22 (ofZ 1) view in
  let view := setUint32 24 (sampleRate buffer) view in
  let view := setUint32 28 (times (sampleRate buffer) 2) view in
  let view := setUint16 32 (ofZ 2) view in
  let view := setUint16 34 (ofZ 16) view in
  let view := writeString 36 (js "data") view in
  let view := setUint32 40 (ofZ (Z.of_nat length * 2)) view in
  writeSamples 44 (channelData buffer) view.

(** Reading back, as [getUint32], [getUint16] and [getInt16] with
    [littleEndian = true] do. *)
Definition littleEndianValue (field : list N) : Z :=
  foldr (fun b acc => Z.of_N b + 256 * acc)%Z 0%Z field.

Definition unsignedAt (width offset : nat) (bytes : list N) : option Z :=
  let field := take width (drop offset bytes) in
  if decide (length field = width) then Some (littleEndianValue field) else None.

Definition getUint32 (offset : nat) (bytes : list N) : option Z :=
  unsignedAt 4 offset bytes.

Definition getInt16 (offset : nat) (bytes : list N) : option Z :=
  (fun u => if (u <? 32768)%Z then u else (u - 65536)%Z) <$> unsignedAt 2 offset bytes.

End Wav.
Import Wav.

(** ** The recorder's use of the backend: [AudioManager.processTranscription],
    [AudioManager.processWithLocalWhisper] *)

Module Renderer.

(** [localStorage.getItem]: [None] is [null]. *)
Abbreviation Storage := (jsstring -> option jsstring).

(** [{ success: true, text, source }], what the processing methods return. *)
Record Transcript := {
  success : bool;
  text : json;
  source : jsstring
}.

(** What the outside world answers during one call of
    [processWithLocalWhisper]. *)
Record LocalAnswers := {
  arrayBuffer : Completion jsstring unit;
      (* audioBlob.arrayBuffer() *)
  ipc : Completion jsstring json;
      (* window.electronAPI.transcribeLocalWhisper(arrayBuffer, options) *)
  typeError : jsstring;
      (* the message of the TypeError for a property read of null *)
  toString : json -> jsstring;
      (* String(v) of a truthy value that is no string *)
  useReasoning : bool;
      (* what isReasoningAvailable() resolves with *)
  reasoned : Completion jsstring (option jsstring);
      (* ReasoningService.processText(...): a string, a value that is no
         string ([None]), or an error *)
  openai : Completion jsstring Transcript
      (* this.processWithOpenAIAPI(audioBlob, metadata) *)
}.

(** [processTranscription(text, source)].  A result of the reasoning
    service that is no string makes the logging inside the [try] block
    throw, so it is dropped like an error of the service. *)
Definition processTranscription (a : LocalAnswers) (text : json) : jsstring :=
  let normalizedText := match text with JString s => trim s | _ => [] end in
  if useReasoning a then
    match reasoned a with
    | Returns (Some result) => result
    | Returns None | Raises _ => normalizedText
    end
  else normalizedText.

Definition noAudioDetected : jsstring := js "No audio detected".

(** A call of [this.onError]. *)
Inductive Notice :=
| NoAudioNotice.          (* title "No Audio Detected" *)

(** [v === false] and [v === s] on a property that may be absent. *)
Definition isFalse (v : option json) : bool :=
  match v with Some (JBool false) => true | _ => false end.

Definition isString (v : option json) (s : jsstring) : bool :=
  match v with Some (JString t) => bool_decide (t = s) | _ => false end.

(** [result.error || "Local Whisper transcription failed"], as the message
    of the error made from it. *)
Definition failureMessage (a : LocalAnswers) (error : option json) : jsstring :=
  match error with
  | Some (JString (c :: s)) => c :: s
  | Some error =>
      if truthy error then toString a error
      else js "Local Whisper transcription failed"
  | None => js "Local Whisper transcription failed"
  end.

(** The [if] chain on the result of the backend, which is not [null]. *)
Definition interpretLocal (a : LocalAnswers) (result : json)
  : Completion jsstring Transcript * list Notice :=
  if truthyProp (getProp result (js "success"))
     && truthyProp (getProp result (js "text")) then
    let text := processTranscription a (default JNull (getProp result (js "text"))) in
    (Returns {| success := true;
                text := match text with
                        | [] => default JNull (getProp result (js "text"))
                        | _ :: _ => JString text
                        end;
                source := js "local" |}, [])
  else if isFalse (getProp result (js "success"))
          && isString (getProp result (js "message")) noAudioDetected then
    (Raises noAudioDetected, [NoAudioNotice])
  else (Raises (failureMessage a (getProp result (js "error"))), []).

(** The [try] block of [processWithLocalWhisper]: what it returns or the
    message of the error it throws, and the calls of [onError]. *)
Definition attemptLocal (a : LocalAnswers)
  : Completion jsstring Transcript * list Notice :=
  match arrayBuffer a with
  | Raises message => (Raises message, [])
  | Returns _ =>
      match ipc a with
      | Raises message => (Raises message, [])
      | Returns JNull => (Raises (typeError a), [])
      | Returns result => interpretLocal a result
      end
  end.

Definition localFailed (message : jsstring) : jsstring :=
  js "Local Whisper failed: " ++ message.

Definition bothFailed (message fallbackMessage : jsstring) : jsstring :=
  js "Local Whisper failed: " ++ message
  ++ js ". OpenAI fallback also failed: " ++ fallbackMessage.

(** [localStorage.getItem(key) === "true"] *)
Definition isTrue (storage : Storage) (key : string) : bool :=
  bool_decide (storage (js key) = Some (js "true")).

(** [processWithLocalWhisper(audioBlob, model, metadata)]: what it
    returns or the message of the error it throws, the calls of [onError],
    and whether [processWithOpenAIAPI] was called. *)
Definition processWithLocalWhisper (storage : Storage) (a : LocalAnswers)
  : Completion jsstring Transcript * list Notice * bool :=
  match attemptLocal a with
  | (Returns transcript, notices) => (Returns transcript, notices, false)
  | (Raises message, notices) =>
      if bool_decide (message = noAudioDetected) then
        (Raises message, notices, false)
      else
        let allowOpenAIFallback := isTrue storage "allowOpenAIFallback" in
        let isLocalMode := isTrue storage "useLocalWhisper" in
        if allowOpenAIFallback && isLocalMode then
          match openai a with
          | Returns fallbackResult =>
              (Returns {| success := success fallbackResult;
                          text := text fallbackResult;
                          source := js "openai-fallback" |}, notices, true)
          | Raises fallbackMessage =>
              (Raises (bothFailed message fallbackMessage), notices, true)
          end
        else (Raises (localFailed message), notices, false)
  end.

(** The object [parseWhisperResult] returns, as the renderer receives it. *)
Definition resultObject (parsed : ParsedTranscript) : option json :=
  match parsed with
  | Success text =>
      Some (JObject [(js "success", JBool true); (js "text", JString text)])
  | SoftFailure message =>
      Some (JObject [(js "success", JBool false); (js "message", message)])
  | Throws _ => None
  end.

End Renderer.
Import Renderer.

(** ** The recorder's settings: [AudioManager.getAPIKey],
    [AudioManager.isReasoningAvailable] *)

Module Settings.

(** [localStorage], when the global exists. *)
Abbreviation LocalStorage := (option (jsstring -> option jsstring)).

Definition placeholderKey : jsstring := js "your_openai_api_key_here".

(** [!apiKey || apiKey.trim() === "" || apiKey === "your_openai_api_key_here"] *)
Definition unusable (apiKey : option jsstring) : bool :=
  match apiKey with
  | None | Some [] => true
  | Some key => bool_decide (trim key = []) || bool_decide (key = placeholderKey)
  end.

Inductive KeyError :=
| KeyStoreFailed (message : jsstring)   (* getOpenAIKey() rejects *)
| NoLocalStorage                        (* localStorage is not defined *)
| KeyNotFound (customEndpoint : bool).  (* "API key not found ..." or
                                           "OpenAI API key not found ..." *)

(** [(localStorage.getItem("cloudTranscriptionBaseUrl") || "").trim()],
    the empty string without [localStorage]. *)
Definition customBaseUrl (localStorage : LocalStorage) : jsstring :=
  match localStorage with
  | Some getItem => trim (default [] (getItem (js "cloudTranscriptionBaseUrl")))
  | None => []
  end.

(** [customBaseUrl && !customBaseUrl.includes("api.openai.com")] *)
Definition isCustomEndpoint (localStorage : LocalStorage) : bool :=
  match customBaseUrl localStorage with
  | [] => false
  | url => negb (includes url (js "api.openai.com"))
  end.

(** The key stored for a custom endpoint, trimmed, when there is one that
    is not blank. *)
Definition transcriptionKey (localStorage : LocalStorage) : option jsstring :=
  match localStorage with
  | Some getItem =>
      match getItem (js "cloudTranscriptionApiKey") with
      | Some key => match trim key with [] => None | trimmed => Some trimmed end
      | None => None
      end
  | None => None
  end.

(** [getAPIKey()], given what [window.electronAPI.getOpenAIKey()] settles
    with: the outcome, [cachedApiKey] afterwards, and whether
    [getOpenAIKey] was called. *)
Definition getAPIKey (localStorage : LocalStorage)
  (getOpenAIKey : Completion jsstring (option jsstring))
  (cachedApiKey : option jsstring)
  : Completion KeyError jsstring * option jsstring * bool :=
  if truthyString cachedApiKey then
    (Returns (default [] cachedApiKey), cachedApiKey, false)
  else
    match (if isCustomEndpoint localStorage then transcriptionKey localStorage
           else None) with
    | Some key => (Returns key, Some key, false)
    | None =>
        match getOpenAIKey with
        | Raises message => (Raises (KeyStoreFailed message), cachedApiKey, true)
        | Returns apiKey =>
            let stored :=
              if unusable apiKey then
                match localStorage with
                | Some getItem => Returns (getItem (js "openaiApiKey"))
                | None => Raises NoLocalStorage
                end
              else Returns apiKey in
            match stored with
            | Raises e => (Raises e, cachedApiKey, true)
            | Returns apiKey =>
                if unusable apiKey then
                  (Raises (KeyNotFound (isCustomEndpoint localStorage)),
                   cachedApiKey, true)
                else (Returns (default [] apiKey), apiKey, true)
            end
        end
    end.

(** [REASONING_CACHE_TTL] *)
Definition REASONING_CACHE_TTL : Z := 30000.

(** The fields [isReasoningAvailable] keeps: [{ value, expiresAt }] and the
    preference it was computed for. *)
Record ReasoningState := {
  value : bool;
  expiresAt : Z;
  cachedReasoningPreference : option jsstring
}.

(** As the constructor leaves them. *)
Definition newReasoningState : ReasoningState :=
  {| value := false; expiresAt := 0; cachedReasoningPreference := None |}.

(** [storedValue === "true" || (!!storedValue && storedValue !== "false")] *)
Definition reasoningWanted (storedValue : option jsstring) : bool :=
  bool_decide (storedValue = Some (js "true"))
  || (truthyString storedValue && negb (bool_decide (storedValue = Some (js "false")))).

(** [isReasoningAvailable()] at the time [now], given what
    [ReasoningService.isAvailable()] settles with: the result, the state
    afterwards, and whether the service was asked. *)
Definition isReasoningAvailable (localStorage : LocalStorage) (now : Z)
  (isAvailable : Completion jsstring bool) (s : ReasoningState)
  : bool * ReasoningState * bool :=
  match localStorage with
  | None => (false, s, false)
  | Some getItem =>
      let storedValue := getItem (js "useReasoningModel") in
      let cacheValid :=
        (now <? expiresAt s)%Z
        && bool_decide (cachedReasoningPreference s = storedValue) in
      if cacheValid then (value s, s, false)
      else
        let remember (v : bool) :=
          {| value := v; expiresAt := (now + REASONING_CACHE_TTL)%Z;
             cachedReasoningPreference := storedValue |} in
        if negb (reasoningWanted storedValue) then (false, remember false, false)
        else
          match isAvailable with
          | Returns available => (available, remember available, true)
          | Raises _ => (false, remember false, true)
          end
  end.

End Settings.
Import Settings.

(** * Properties *)

(** ** Vocabulary of the statements, and example data *)

(** A line of output: a string with no line feed in it. *)
Definition noLineFeed (l : jsstring) : Prop := 10 ∉ l.

(** A string that does not start with white space. *)
Definition noLeadingWs (s : jsstring) : Prop :=
  match s with [] => True | c :: _ => isWhiteSpace c = false end.

(** A line whose trimmed form starts with an opening and ends with a closing
    brace, and one that does not. *)
Definition braced (line : jsstring) : Prop := looksLikeJson (trim line) = true.
Definition unbraced (line : jsstring) : Prop := looksLikeJson (trim line) = false.



(** Log noise, one JSON line, more noise. *)
Definition noisyStdout : jsstring :=
  joinLines [js "Loading model..."; jsq "{'success': true, 'text': '  hello world '}";
             js "done"].


(** The candidate is probed and its probe reports a supported version. *)
Definition accepted (env : Env) (fs : FS) (probe : jsstring -> ProbeEnd)
  (pythonPath : jsstring) : bool :=
  negb (skipped env fs pythonPath) && supported probe pythonPath.

Definition probeOf (pythonPath : jsstring) : Effect :=
  Spawn pythonPath [js "--version"].

(** The probes of the candidates that are not skipped, in order. *)
Definition probesOf (env : Env) (fs : FS) (candidates : list jsstring)
  : list Effect :=
  probeOf <$> filter (fun c => skipped env fs c = false) candidates.

(** A machine with Python 2 as [python2] and Python 3 as [python3.9] and
    [python3.11]. *)
Definition exampleProbe (c : jsstring) : ProbeEnd :=
  if decide (c = js "python2") then ProbeClosed (Some 0%Z) (js "Python 2.7.18")
  else if decide (c = js "python3.9") then ProbeClosed (Some 0%Z) (js "Python 3.9.1")
  else if decide (c = js "python3.11") then ProbeClosed (Some 0%Z) (js "Python 3.11.4")
  else ProbeError.

(** The words of the specification: an absolute path that is not on the
    disk. *)
Definition missingOnDisk (env : Env) (fs : FS) (pythonPath : jsstring) : Prop :=
  isAbsolute env pythonPath = true ∧ existsSync fs pythonPath = false.


(** One [--version] probe for each candidate that is not missing, in
    order. *)
Definition versionProbes (env : Env) (fs : FS) (candidates : list jsstring)
  : list Effect :=
  (λ pythonPath, Spawn pythonPath [js "--version"])
    <$> filter (λ pythonPath, ¬ missingOnDisk env fs pythonPath) candidates.




Definition userScoped : Strategy := {| user := true; legacy := false |}.

Definition managedEnvironmentError : jsstring :=
  js "error: externally-managed-environment".

(** pip itself upgrades; every install of the package is refused. *)
Definition managedEnvironmentOracle : CommandOracle :=
  fun n args =>
    match n with
    | O => Returns (js "Successfully installed pip")
    | _ => Raises managedEnvironmentError
    end.

(** The states the handlers of [runWhisperProcess] can reach: nothing has
    happened; only the timer has fired; or close or error has been handled,
    after the timer or not. *)
Definition reachable (s : RunState) : Prop :=
  (isResolved s = false ∧ settleCalls s = [] ∧ promise s = None)
  ∨ (isResolved s = false ∧ timerPending s = false
     ∧ settleCalls s = [Raises TimedOut] ∧ promise s = Some (Raises TimedOut))
  ∨ (isResolved s = true ∧ timerPending s = false
     ∧ ∃ c, promise s ≠ None
        ∧ (settleCalls s = [c] ∨ settleCalls s = [Raises TimedOut; c])).

(** A machine where [python3.11] is on the PATH, the bundled decoder is
    missing and the worker reports that the system decoder works. *)
Definition exampleWorld : World :=
  {| probe := exampleProbe;
     ffmpegStatic := Raises ();
     systemProbe := Returns (js "ffmpeg version 6.0");
     ffmpegCheck := Closed (Some 0%Z) (jsq "{'available': true}") [] |}.

Definition exampleAnswers : Answers :=
  {| world := exampleWorld;
     uuid := js "0b5c2d9e-7c1a-4f0e-9d3a-2f6a8f1e4b7c";
     writeFails := false; statFails := false; unlinkFails := false;
     workerEvents := [StdoutData (jsq "{'success': true, 'text': 'hi'}");
                      CloseEvent (Some 0%Z)] |}.

Definition exampleTempPath : jsstring :=
  js "/tmp/whisper_audio_0b5c2d9e-7c1a-4f0e-9d3a-2f6a8f1e4b7c.wav".

Definition exampleScript : jsstring :=
  js "/opt/app/src/helpers/../../whisper_bridge.py".

(** A disk that holds the worker script and nothing else. *)
Definition exampleDisk : FS :=
  {[ exampleScript := {| content := []; executable := false |} ]}.

Definition emptyTempFile : File := {| content := []; executable := false |}.

Definition isUnlink (e : Effect) : bool :=
  match e with Unlink _ => true | _ => false end.

(** The same answers, with [unlink] failing or not. *)
Definition withUnlinkFails (a : Answers) (b : bool) : Answers :=
  {| world := world a; uuid := uuid a; writeFails := writeFails a;
     statFails := statFails a; unlinkFails := b; workerEvents := workerEvents a |}.

(** A fresh manager after the events [es]. *)
Definition downloads (es : list DownloadEvent) : DownloadState := foldl step idle es.

(** The event is the [close] or the [error] event of a download process. *)
Definition endsDownload (e : DownloadEvent) : bool :=
  match e with CloseEmitted _ | ErrorEmitted _ => true | _ => false end.

(** A download has been started and no [close] or [error] event has come
    since. *)
Definition downloadActive (events : list DownloadEvent) : Prop :=
  ∃ pre post, events = pre ++ Start :: post
    ∧ Forall (λ e, endsDownload e = false) post.

Ltac oracle_cases :=
  repeat match goal with
  | |- context [match ?o ?n ?a with Returns _ => _ | Raises _ => _ end] =>
      destruct (o n a)
  | |- context [if ?b then _ else _] => destruct b eqn:?
  end.

Ltac pick_reachable :=
  first [ by left
        | by right; left
        | right; right; split_and!; [done..|];
          eexists; split; [|first [by left|by right]]; done ].

(** The messages [shouldRetryWithUserInstall] and [isTomlResolverError]
    look for. *)
Definition retryKeywords : list jsstring :=
  [js "permission denied"; js "access is denied";
   js "externally-managed-environment"; js "externally managed environment";
   js "pep 668"; js "--break-system-packages"].

Definition tomlKeywords : list jsstring := [js "pyproject.toml"; js "tomlerror"].

(** A refusal as pip prints it on a colour terminal. *)
Definition colouredRefusal : jsstring :=
  [27; 91] ++ js "31" ++ 109 :: js "ERROR: Externally-Managed-Environment"
  ++ [27; 91] ++ js "0" ++ [109].

(** The variable that names an interpreter to try first. *)
Definition pythonOverride : jsstring := js "OPENWHISPR_PYTHON".

(** A machine whose only interpreter is the one the variable names, quoted
    and padded as a shell profile may leave it. *)
Definition overrideEnv : Env :=
  {| platform := Linux;
     getenv := fun name => if decide (name = pythonOverride)
                           then Some (js " '/opt/py/bin/python3' ") else None;
     resourcesPath := None;
     dirname := js "/opt/app/src/helpers";
     homedir := js "/home/user";
     tmpdir := js "/tmp";
     pathJoin := joinWith (js "/");
     isAbsolute := fun p => startsWith p (js "/");
     base64Decode := fun s => octets (sextets s) |}.

Definition overrideDisk : FS :=
  {[ js "/opt/py/bin/python3" := {| content := []; executable := true |} ]}.

Definition overrideProbe (c : jsstring) : ProbeEnd :=
  if decide (c = js "/opt/py/bin/python3")
  then ProbeClosed (Some 0%Z) (js "Python 3.12.1") else ProbeError.

(** What follows a run of digits: nothing, or a code unit that is no digit. *)
Definition noDigitAhead (s : jsstring) : Prop :=
  match s with [] => True | c :: _ => isDigit c = false end.

Definition mlxBridge : jsstring := js "whisper_bridge_mlx_official.py".

(** A manager that remembers an interpreter which has since been removed. *)
Definition staleSetup : Setup :=
  withCore newSetup (setPythonCmd newManager (Some (js "/old/bin/python3"))).

(** The import check prints its marker and exits with 0. *)
Definition importWorks : ProcessEnd := Closed (Some 0%Z) (js "OK") [].

(** No interpreter answers. *)
Definition noPython : World :=
  {| probe := fun _ => ProbeError;
     ffmpegStatic := Raises ();
     systemProbe := Raises (js "spawn ffmpeg ENOENT");
     ffmpegCheck := SpawnError (js "spawn python ENOENT") |}.

(** A child process that has been signalled at most gently after its first
    signal: [killed] unset means nothing was delivered, and the forced
    signal is nowhere but in first place. *)
Definition gentle (c : Child) : Prop :=
  (killed c = false → received c = []) ∧ SIGKILL ∉ tail (received c).

Definition allGentle (s : DownloadState) : Prop :=
  ∀ pid c, children s !! pid = Some c → gentle c.

(** Standard error as a download prints it: a log line, a progress line,
    a progress line that is no JSON, and a padded progress line. *)
Definition progressChunk : list jsstring :=
  [js "Downloading base..."; jsq "PROGRESS:{'percent': 50}"; js "PROGRESS:half";
   js "  PROGRESS:100" ++ [13]].

(** The two bytes stored for a sample, and the integer they stand for. *)
Definition sampleBytes (x : Number) : list N := littleEndian 2 (truncate (scaled x)).

Definition stored (x : Number) : Z := truncate (scaled x).

(** The 44 bytes of the header of a file of [length] samples. *)
Definition wavHeader (length : nat) (rate : Number) : list N :=
  js "RIFF" ++ littleEndian 4 (36 + Z.of_nat length * 2)
  ++ js "WAVE" ++ js "fmt "
  ++ littleEndian 4 16 ++ littleEndian 2 1 ++ littleEndian 2 1
  ++ littleEndian 4 (truncate rate) ++ littleEndian 4 (truncate (times rate 2))
  ++ littleEndian 2 2 ++ littleEndian 2 16
  ++ js "data" ++ littleEndian 4 (Z.of_nat length * 2).

(** [x <= y] on numbers that are not [NaN]. *)
Definition below (x y : Number) : Prop :=
  match x, y with
  | NaN, _ | _, NaN => False
  | Infinite true, _ | _, Infinite false => True
  | Infinite false, _ | _, Infinite true => False
  | Fraction n1 d1, Fraction n2 d2 => (n1 * Z.pos d2 ≤ n2 * Z.pos d1)%Z
  end.

(** Half a second of nothing much: three samples at 16 kHz. *)
Definition exampleBuffer : AudioBuffer :=
  {| sampleRate := ofZ 16000;
     channelData := [Fraction 1 2; Fraction (-1) 1; NaN] |}.

(** [result.error || "Local Whisper transcription failed"] with no [error]. *)
Definition genericLocalFailure : jsstring := js "Local Whisper transcription failed".

(** [processWithOpenAIAPI] is to be called: both settings read "true". *)
Definition fallbackEnabled (storage : Storage) : bool :=
  isTrue storage "allowOpenAIFallback" && isTrue storage "useLocalWhisper".

(** Nothing has been stored. *)
Definition noSettings : Storage := fun _ => None.

(** The worker reports why it failed. *)
Definition outOfMemoryStdout : jsstring :=
  jsq "{'success': false, 'error': 'CUDA out of memory'}".

Definition outOfMemoryResult : json :=
  JObject [(js "success", JBool false); (js "message", JString (js "CUDA out of memory"))].

Definition outOfMemoryAnswers : LocalAnswers :=
  {| arrayBuffer := Returns ();
     ipc := Returns outOfMemoryResult;
     typeError := js "Cannot read properties of null";
     toString := fun _ => js "[object Object]";
     useReasoning := false;
     reasoned := Raises (js "unavailable");
     openai := Raises (js "API key not found") |}.

(** ** Lines and white space *)


Lemma splitLines_single l : noLineFeed l → splitLines l = [l].
Proof.
  unfold noLineFeed. induction l as [|c r IH]; intros H; simpl; [done|].
  apply not_elem_of_cons in H as [Hc Hr].
  destruct (N.eqb_spec c 10) as [->|_]; [done|]. by rewrite IH.
Qed.


Lemma trimStart_noLeading s : noLeadingWs (trimStart s).
Proof. induction s as [|c s IH]; simpl; [done|]. by destruct (isWhiteSpace c) eqn:E; simpl. Qed.

Lemma trimStart_id s : noLeadingWs s → trimStart s = s.
Proof. destruct s as [|c s]; simpl; [done|]. by intros ->. Qed.

Lemma trimStart_suffix s : ∃ w, s = w ++ trimStart s.
Proof.
  induction s as [|c s [w IH]]; simpl; [by exists []|].
  destruct (isWhiteSpace c); [|by exists []]. exists (c :: w). simpl. by f_equal.
Qed.

Lemma trimEnd_prefix s : ∃ w, s = trimEnd s ++ w.
Proof.
  unfold trimEnd. destruct (trimStart_suffix (rev s)) as [w Hw].
  exists (rev w). rewrite <- rev_app_distr, <- Hw. by rewrite rev_involutive.
Qed.

Lemma noLeadingWs_prefix p w : noLeadingWs (p ++ w) → p ≠ [] → noLeadingWs p.
Proof. by destruct p. Qed.

Lemma trim_noLeading s : noLeadingWs (trim s).
Proof.
  unfold trim. destruct (trimEnd_prefix (trimStart s)) as [w Hw].
  destruct (trimEnd (trimStart s)) as [|c p] eqn:E; [done|].
  apply (noLeadingWs_prefix _ w); [|done]. rewrite <- Hw. apply trimStart_noLeading.
Qed.

Lemma trim_idempotent s : trim (trim s) = trim s.
Proof.
  unfold trim at 1. rewrite (trimStart_id (trim s)) by apply trim_noLeading.
  unfold trim, trimEnd. rewrite rev_involutive.
  by rewrite (trimStart_id (trimStart _)) by apply trimStart_noLeading.
Qed.

(** ** [JSON.parse]: the recursion budget is never exhausted *)

Lemma skipWs_length s : (length (skipWs s) <= length s)%nat.
Proof. induction s as [|c r IH]; simpl; [lia|]. destruct (isJsonWs c); simpl; lia. Qed.

Lemma parseStringBody_length_aux n : ∀ s str r,
  (length s <= n)%nat → parseStringBody s = Some (str, r) → (length r < length s)%nat.
Proof.
  induction n as [|n IH]; intros s str r Hn H.
  - destruct s; simpl in *; [done|lia].
  - destruct s as [|c s]; simpl in *; [done|].
    unfold consTo in H.
    repeat case_match; simplify_eq; simpl in *; try lia;
      match goal with
      | E : parseStringBody ?x = Some (_, ?y) |- _ =>
          apply IH in E; simpl in *; lia
      end.
Qed.

Lemma parseStringBody_length s str r :
  parseStringBody s = Some (str, r) → (length r < length s)%nat.
Proof. by apply (parseStringBody_length_aux (length s)). Qed.

Lemma spanDigits_length s ds r :
  spanDigits s = (ds, r) → length s = (length ds + length r)%nat.
Proof.
  revert ds r. induction s as [|c s IH]; intros ds r H; simpl in *.
  - by simplify_eq.
  - destruct (isDigit c).
    + destruct (spanDigits s) as [ds' r'] eqn:E. simplify_eq. simpl. by rewrite (IH ds' r).
    + simplify_eq. done.
Qed.

Lemma stripPrefix_length p s r :
  stripPrefix p s = Some r → length s = (length p + length r)%nat.
Proof.
  revert s. induction p as [|a p IH]; intros s H; simpl in *.
  - by simplify_eq.
  - destruct s as [|b s]; [done|]. destruct (a =? b); [|done]. simpl. by rewrite (IH s).
Qed.

Lemma parseSign_length s neg r : parseSign s = (neg, r) → (length r <= length s)%nat.
Proof. destruct s as [|c s]; simpl; [by intros [= <- <-]|]. destruct (c =? 45); intros [= <- <-]; simpl; lia. Qed.

Lemma parseInt_length s ds r : parseInt s = Some (ds, r) → (length r < length s)%nat.
Proof.
  destruct s as [|c s]; [done|]. unfold parseInt.
  destruct (c =? 48); [intros [= <- <-]; simpl; lia|].
  destruct (isDigit c) eqn:Hd; [|done]. intros [= H].
  pose proof (spanDigits_length (c :: s) ds r H) as Hl.
  simpl in H. rewrite Hd in H. destruct (spanDigits s); simplify_eq. simpl in *. lia.
Qed.

Lemma parseFrac_length s ds r : parseFrac s = Some (ds, r) → (length r <= length s)%nat.
Proof.
  destruct s as [|c s]; simpl; [by intros [= <- <-]|].
  destruct (c =? 46); [|intros [= <- <-]; simpl; lia].
  destruct (spanDigits s) as [[|d fds] r'] eqn:E; [done|]. intros [= <- <-].
  apply spanDigits_length in E. simpl in *. lia.
Qed.

Lemma parseExp_length s e r : parseExp s = Some (e, r) → (length r <= length s)%nat.
Proof.
  destruct s as [|c s]; simpl; [by intros [= <- <-]|].
  destruct ((c =? 101) || (c =? 69)); [|intros [= <- <-]; simpl; lia].
  set (sg := match s with [] => _ | _ => _ end).
  assert (length sg.2 <= length s)%nat as Hsg.
  { subst sg. destruct s as [|g s']; simpl; [lia|].
    destruct (g =? 45); simpl; [lia|]. destruct (g =? 43); simpl; lia. }
  destruct sg as [eneg r1]. simpl in Hsg.
  destruct (spanDigits r1) as [[|d eds] r2] eqn:E; [done|]. intros [= <- <-].
  apply spanDigits_length in E. simpl in *. lia.
Qed.

Lemma parseNumber_length s v r :
  parseNumber s = POk v r → (length r < length s)%nat.
Proof.
  unfold parseNumber. destruct (parseSign s) as [neg s1] eqn:E1.
  destruct (parseInt s1) as [[ids s2]|] eqn:E2; [|done].
  destruct (parseFrac s2) as [[fds s3]|] eqn:E3; [|done].
  destruct (parseExp s3) as [[e s4]|] eqn:E4; [|done].
  intros [= <- <-].
  apply parseSign_length in E1. apply parseInt_length in E2.
  apply parseFrac_length in E3. apply parseExp_length in E4. lia.
Qed.

Lemma parseNumber_noFuel s : parseNumber s ≠ PFuel.
Proof. unfold parseNumber. by repeat case_match. Qed.

Ltac parser_facts :=
  repeat match goal with
  | E : parseStringBody _ = Some _ |- _ => apply parseStringBody_length in E
  | E : stripPrefix _ _ = Some _ |- _ =>
      apply stripPrefix_length in E; cbv [js] in E; simpl in E
  | E : parseNumber _ = POk _ _ |- _ => apply parseNumber_length in E
  end.

Lemma parse_lengths fuel :
  (∀ s v r, parseValue fuel s = POk v r → (length r < length s)%nat)
  ∧ (∀ s acc v r, parseMembers fuel s acc = POk v r → (length r < length s)%nat)
  ∧ (∀ s acc v r, parseElements fuel s acc = POk v r → (length r < length s)%nat).
Proof.
  induction fuel as [|fuel (IHv & IHm & IHe)]; [done|].
  split_and!.
  - intros s v r H. change (valueStep (parseMembers fuel) (parseElements fuel) s = POk v r) in H.
    unfold valueStep in H. destruct s as [|c s]; [done|].
    destruct (c =? 123).
    { pose proof (skipWs_length s). destruct (skipWs s) as [|c' r']; [done|].
      destruct (c' =? 125); [simplify_eq; simpl in *; lia|].
      apply IHm in H. simpl in *. lia. }
    destruct (c =? 91).
    { pose proof (skipWs_length s). destruct (skipWs s) as [|c' r']; [done|].
      destruct (c' =? 93); [simplify_eq; simpl in *; lia|].
      apply IHe in H. simpl in *. lia. }
    destruct (c =? 34).
    { destruct (parseStringBody s) as [[str r']|] eqn:E; [|done]. simplify_eq.
      parser_facts. simpl. lia. }
    destruct (stripPrefix (js "true") (c :: s)) eqn:E1; [simplify_eq; parser_facts; simpl; lia|].
    destruct (stripPrefix (js "false") (c :: s)) eqn:E2; [simplify_eq; parser_facts; simpl; lia|].
    destruct (stripPrefix (js "null") (c :: s)) eqn:E3; [simplify_eq; parser_facts; simpl; lia|].
    by apply parseNumber_length in H.
  - intros s acc v r H. change (membersStep (parseValue fuel) (parseMembers fuel) s acc = POk v r) in H.
    unfold membersStep in H. destruct s as [|c s]; [done|].
    destruct (c =? 34); [|done].
    destruct (parseStringBody s) as [[key r1]|] eqn:E1; [|done].
    apply parseStringBody_length in E1.
    pose proof (skipWs_length r1). destruct (skipWs r1) as [|c1 r2]; [done|].
    destruct (c1 =? 58); [|done].
    pose proof (skipWs_length r2). simpl in *.
    destruct (parseValue fuel (skipWs r2)) as [v' r3| |] eqn:E2; [|done..].
    apply IHv in E2.
    pose proof (skipWs_length r3). destruct (skipWs r3) as [|c3 r4]; [done|].
    destruct (c3 =? 44).
    { apply IHm in H. pose proof (skipWs_length r4). simpl in *. lia. }
    destruct (c3 =? 125); [|done]. simplify_eq. simpl in *. lia.
  - intros s acc v r H. change (elementsStep (parseValue fuel) (parseElements fuel) s acc = POk v r) in H.
    unfold elementsStep in H.
    destruct (parseValue fuel s) as [v' r1| |] eqn:E2; [|done..].
    apply IHv in E2.
    pose proof (skipWs_length r1). destruct (skipWs r1) as [|c r2]; [done|].
    destruct (c =? 44).
    { apply IHe in H. pose proof (skipWs_length r2). simpl in *. lia. }
    destruct (c =? 93); [|done]. simplify_eq. simpl in *. lia.
Qed.

Lemma parse_noFuel fuel :
  (∀ s, (2 * length s < fuel)%nat → parseValue fuel s ≠ PFuel)
  ∧ (∀ s acc, (2 * length s + 1 < fuel)%nat → parseMembers fuel s acc ≠ PFuel)
  ∧ (∀ s acc, (2 * length s + 1 < fuel)%nat → parseElements fuel s acc ≠ PFuel).
Proof.
  induction fuel as [|fuel (IHv & IHm & IHe)]; [split_and!; intros; lia|].
  split_and!.
  - intros s Hs. change (valueStep (parseMembers fuel) (parseElements fuel) s ≠ PFuel).
    unfold valueStep. destruct s as [|c s]; [done|]. simpl in Hs.
    destruct (c =? 123).
    { pose proof (skipWs_length s). destruct (skipWs s) as [|c' r']; [done|].
      destruct (c' =? 125); [done|]. apply IHm. simpl in *. lia. }
    destruct (c =? 91).
    { pose proof (skipWs_length s). destruct (skipWs s) as [|c' r']; [done|].
      destruct (c' =? 93); [done|]. apply IHe. simpl in *. lia. }
    destruct (c =? 34); [by destruct (parseStringBody s) as [[??]|]|].
    destruct (stripPrefix (js "true") (c :: s)); [done|].
    destruct (stripPrefix (js "false") (c :: s)); [done|].
    destruct (stripPrefix (js "null") (c :: s)); [done|].
    apply parseNumber_noFuel.
  - intros s acc Hs. change (membersStep (parseValue fuel) (parseMembers fuel) s acc ≠ PFuel).
    unfold membersStep. destruct s as [|c s]; [done|]. simpl in Hs.
    destruct (c =? 34); [|done].
    destruct (parseStringBody s) as [[key r1]|] eqn:E1; [|done].
    apply parseStringBody_length in E1.
    pose proof (skipWs_length r1). destruct (skipWs r1) as [|c1 r2]; [done|].
    destruct (c1 =? 58); [|done].
    pose proof (skipWs_length r2). simpl in *.
    destruct (parseValue fuel (skipWs r2)) as [v r3| |] eqn:E2; [|done|].
    + apply (proj1 (parse_lengths fuel)) in E2.
      pose proof (skipWs_length r3). destruct (skipWs r3) as [|c3 r4]; [done|].
      destruct (c3 =? 44); [|by destruct (c3 =? 125)].
      apply IHm. pose proof (skipWs_length r4). simpl in *. lia.
    + exfalso. revert E2. apply IHv. lia.
  - intros s acc Hs. change (elementsStep (parseValue fuel) (parseElements fuel) s acc ≠ PFuel).
    unfold elementsStep.
    destruct (parseValue fuel s) as [v r1| |] eqn:E2; [|done|].
    + apply (proj1 (parse_lengths fuel)) in E2.
      pose proof (skipWs_length r1). destruct (skipWs r1) as [|c r2]; [done|].
      destruct (c =? 44); [|by destruct (c =? 93)].
      apply IHe. pose proof (skipWs_length r2). simpl in *. lia.
    + exfalso. revert E2. apply IHv. lia.
Qed.

Lemma parse_budget text : parseValue (S (2 * length text)) (skipWs text) ≠ PFuel.
Proof. apply parse_noFuel. pose proof (skipWs_length text). lia. Qed.

Lemma parseMembers_object fuel : ∀ s acc v r,
  parseMembers fuel s acc = POk v r → ∃ ms, v = JObject ms.
Proof.
  induction fuel as [|fuel IH]; [done|]. intros s acc v r H.
  change (membersStep (parseValue fuel) (parseMembers fuel) s acc = POk v r) in H.
  unfold membersStep in H.
  repeat case_match; simplify_eq; eauto.
Qed.

Lemma startsWith_unit s a : startsWith s [a] = true → ∃ r, s = a :: r.
Proof.
  unfold startsWith. destruct s as [|c s]; [done|]. cbn [stripPrefix].
  destruct (N.eqb_spec a c) as [->|]; [eauto|done].
Qed.

Lemma parse_braced_object t v :
  startsWith t (js "{") = true → Json.parse t = Some v → ∃ ms, v = JObject ms.
Proof.
  change (js "{") with [123]. intros [r ->]%startsWith_unit.
  unfold Json.parse.
  change (skipWs (123 :: r)) with (123 :: r).
  change (parseValue (S ?f) ?s) with (valueStep (parseMembers f) (parseElements f) s).
  unfold valueStep. change (123 =? 123) with true. cbv iota.
  destruct (skipWs r) as [|c' r']; [done|].
  destruct (c' =? 125).
  - intros H. repeat case_match; simplify_eq. eauto.
  - destruct (parseMembers _ _ _) as [v' r0| |] eqn:E; [|done..].
    apply parseMembers_object in E as [ms ->].
    intros H. repeat case_match; simplify_eq. eauto.
Qed.

(** ** [parseWhisperResult] *)

Lemma looksLikeJson_nil : looksLikeJson [] = false.
Proof. reflexivity. Qed.

Lemma findJsonLine_filter ls :
  findJsonLine (filter (fun line => trim line ≠ []) ls) = findJsonLine ls.
Proof.
  induction ls as [|l ls IH]; [done|].
  rewrite filter_cons. destruct (decide (trim l ≠ [])) as [Hn|He]; simpl.
  - by rewrite IH.
  - apply dec_stable in He. rewrite He, looksLikeJson_nil. done.
Qed.

Lemma findJsonLine_first pre line post :
  Forall (fun l => looksLikeJson (trim l) = false) pre →
  looksLikeJson (trim line) = true →
  findJsonLine (pre ++ line :: post) = trim line.
Proof.
  intros Hpre Hline. induction Hpre as [|l pre Hl _ IH]; simpl.
  - by rewrite Hline.
  - by rewrite Hl.
Qed.


Lemma looksLikeJson_nonempty t : looksLikeJson t = true → t ≠ [].
Proof. by intros H ->. Qed.

Lemma parseWhisperResult_lines stdout :
  parseWhisperResult stdout =
    match findJsonLine (splitLines stdout) with
    | [] => Throws NoJsonOutput
    | jsonLine =>
        match Json.parse jsonLine with
        | None => Throws JsonSyntaxError
        | Some result => interpretResult result
        end
    end.
Proof.
  unfold parseWhisperResult, nonBlankLines. rewrite findJsonLine_filter.
  by destruct (findJsonLine (splitLines stdout)).
Qed.




Lemma findJsonLine_split ls :
  findJsonLine ls ≠ [] →
  ∃ pre line post, ls = pre ++ line :: post ∧ Forall unbraced pre ∧ braced line.
Proof.
  induction ls as [|l ls IH]; simpl; [done|].
  destruct (looksLikeJson (trim l)) eqn:E.
  - intros _. by exists [], l, ls.
  - intros (pre & line & post & -> & Hpre & Hline)%IH.
    exists (l :: pre), line, post. split_and!; [done| |done]. by constructor.
Qed.


Lemma parseWhisperResult_split stdout pre line post :
  splitLines stdout = pre ++ line :: post → Forall unbraced pre → braced line →
  parseWhisperResult stdout =
    match Json.parse (trim line) with
    | None => Throws JsonSyntaxError
    | Some result => interpretResult result
    end.
Proof.
  intros Hsplit Hpre Hline. rewrite parseWhisperResult_lines, Hsplit.
  rewrite (findJsonLine_first pre line post Hpre Hline).
  pose proof (looksLikeJson_nonempty _ Hline) as Hne. by destruct (trim line).
Qed.




(** C9.  A success carries the [text] string of the object on the first
    braced line, trimmed; it is not empty and has no white space left at
    either end. *)
Theorem parseWhisperResult_success_text (stdout text : jsstring) :
  parseWhisperResult stdout = Success text →
  ∃ pre line post ms t,
    splitLines stdout = pre ++ line :: post ∧ Forall unbraced pre ∧ braced line
    ∧ Json.parse (trim line) = Some (JObject ms)
    ∧ lookupMember (js "text") ms = Some (JString t)
    ∧ text = trim t ∧ text ≠ [] ∧ trim text = text.
Proof.
  intros H.
  destruct (findJsonLine_split (splitLines stdout)) as (pre & line & post & Hs & Hpre & Hline).
  { intros E. rewrite parseWhisperResult_lines, E in H. done. }
  rewrite (parseWhisperResult_split stdout pre line post) in H by done.
  destruct (Json.parse (trim line)) as [result|] eqn:E; [|done].
  pose proof E as E'.
  apply parse_braced_object in E' as [ms ->];
    [|by apply andb_prop in Hline as [? _]].
  exists pre, line, post, ms.
  unfold interpretResult, getProp in H.
  destruct (lookupMember (js "text") ms) as [v|] eqn:Et.
  2:{ by repeat case_match. }
  destruct v as [| | |t| |]; try by repeat case_match.
  exists t. split_and!; try done.
  - repeat case_match; by simplify_eq.
  - repeat case_match; simplify_eq; by destruct (trim t).
  - repeat case_match; simplify_eq; apply trim_idempotent.
Qed.

(** The hypothesis of C9 holds of the noisy example. *)
Lemma parseWhisperResult_success_text_witness :
  ∃ pre line post ms t,
    splitLines noisyStdout = pre ++ line :: post ∧ Forall unbraced pre ∧ braced line
    ∧ Json.parse (trim line) = Some (JObject ms)
    ∧ lookupMember (js "text") ms = Some (JString t)
    ∧ js "hello world" = trim t ∧ js "hello world" ≠ []
    ∧ trim (js "hello world") = js "hello world".
Proof.
  apply (parseWhisperResult_success_text noisyStdout (js "hello world")).
  vm_compute. reflexivity.
Defined.

(** ** [findPythonExecutable] *)

Section search.
Context (env : Env) (fs : FS) (probe : jsstring → ProbeEnd).

Lemma probesOf_cons_skipped c cs :
  skipped env fs c = true → probesOf env fs (c :: cs) = probesOf env fs cs.
Proof. intros H. unfold probesOf. rewrite filter_cons, H. by case_decide. Qed.

Lemma probesOf_cons_probed c cs :
  skipped env fs c = false → probesOf env fs (c :: cs) = probeOf c :: probesOf env fs cs.
Proof. intros H. unfold probesOf. rewrite filter_cons, H. by case_decide. Qed.

Lemma searchCandidates_spec cs :
  match searchCandidates env fs probe cs with
  | (Some c, trace) =>
      ∃ pre post, cs = pre ++ c :: post
        ∧ Forall (fun x => accepted env fs probe x = false) pre
        ∧ skipped env fs c = false ∧ supported probe c = true
        ∧ trace = probesOf env fs (pre ++ [c])
  | (None, trace) =>
      Forall (fun x => accepted env fs probe x = false) cs
      ∧ trace = probesOf env fs cs
  end.
Proof.
  induction cs as [|c cs IH]; cbn [searchCandidates].
  - split; [constructor|done].
  - destruct (skipped env fs c) eqn:Hs.
    + destruct (searchCandidates env fs probe cs) as [[found|] trace].
      * destruct IH as (pre & post & -> & Hpre & Hsk & Hsu & ->).
        exists (c :: pre), post. split_and!; try done.
        -- constructor; [|done]. unfold accepted. by rewrite Hs.
        -- simpl. by rewrite probesOf_cons_skipped.
      * destruct IH as [Hall ->]. split.
        -- constructor; [|done]. unfold accepted. by rewrite Hs.
        -- by rewrite probesOf_cons_skipped.
    + assert (supported probe c = false →
              match (let '(found, trace) := searchCandidates env fs probe cs in
                     (found, Spawn c [js "--version"] :: trace)) with
              | (Some c', trace) =>
                  ∃ pre post, c :: cs = pre ++ c' :: post
                    ∧ Forall (fun x => accepted env fs probe x = false) pre
                    ∧ skipped env fs c' = false ∧ supported probe c' = true
                    ∧ trace = probesOf env fs (pre ++ [c'])
              | (None, trace) =>
                  Forall (fun x => accepted env fs probe x = false) (c :: cs)
                  ∧ trace = probesOf env fs (c :: cs)
              end) as Hrest.
      { intros Hu.
        destruct (searchCandidates env fs probe cs) as [[found|] trace].
        - destruct IH as (pre & post & -> & Hpre & Hsk & Hsu & ->).
          exists (c :: pre), post. split_and!; try done.
          + constructor; [|done]. unfold accepted. by rewrite Hu, andb_false_r.
          + simpl. by rewrite probesOf_cons_probed.
        - destruct IH as [Hall ->]. split.
          + constructor; [|done]. unfold accepted. by rewrite Hu, andb_false_r.
          + by rewrite probesOf_cons_probed. }
      unfold supported in Hrest at 1.
      destruct (getPythonVersion (probe c)) as [version|[]] eqn:Hv; [|by apply Hrest].
      destruct (isPythonVersionSupported version) eqn:Hsup; [|by apply Hrest].
      exists [], cs. split_and!; try done.
      * unfold supported. by rewrite Hv.
      * simpl. by rewrite probesOf_cons_probed.
Qed.

End search.

Lemma toDouble_exact n : n < 2 ^ 53 → toDouble n = Whole n.
Proof. intros H. unfold toDouble. by rewrite (proj2 (N.ltb_lt _ _) H). Qed.

Lemma toDouble_three n : toDouble n = Whole 3 ↔ n = 3.
Proof.
  unfold toDouble. destruct (n <? 2 ^ 53) eqn:E.
  - split; [by intros [= ->]|by intros ->].
  - apply N.ltb_ge in E. split.
    + set (k := N.log2 n - 52).
      assert (1 ≤ k) as Hk.
      { unfold k. apply N.log2_le_mono in E. rewrite N.log2_pow2 in E by lia. lia. }
      generalize (if (2 ^ (k - 1) <? N.land n (N.ones k))
                     || (N.land n (N.ones k) =? 2 ^ (k - 1)) && N.odd (N.shiftr n k)
                  then N.shiftr n k + 1 else N.shiftr n k).
      intros q. destruct (2 ^ 1024 <=? N.shiftl q k); [discriminate|].
      intros [= H]. exfalso. rewrite N.shiftl_mul_pow2 in H.
      replace k with (N.succ (k - 1)) in H by lia. rewrite N.pow_succ_r' in H. lia.
    + intros ->. exfalso. revert E. change (2 ^ 53) with 9007199254740992. lia.
Qed.


Lemma skipped_missing env fs c : skipped env fs c = true ↔ missingOnDisk env fs c.
Proof.
  unfold skipped, missingOnDisk. rewrite andb_true_iff, negb_true_iff. done.
Qed.



Lemma probesOf_versionProbes env fs cs : probesOf env fs cs = versionProbes env fs cs.
Proof.
  unfold probesOf, versionProbes, probeOf. f_equal. apply list_filter_iff.
  intros x. rewrite <- skipped_missing. by destruct (skipped env fs x).
Qed.



(** ** [installWhisper] *)

(** C4, at the input where the code departs from it.  On darwin, when the
    package install is refused with an externally-managed-environment error,
    [installWhisper] runs the user-scoped install, sees it fail, and runs the
    same command a second time. *)
Theorem installWhisper_darwin_repeats_user_install :
  installWhisper Darwin managedEnvironmentOracle
  = (Raises managedEnvironmentError,
     [UpgradePip (upgradePipArgs Darwin);
      InstallPackage userScoped; InstallPackage userScoped])
  ∧ strategiesTried (installWhisper Darwin managedEnvironmentOracle).2
    = [userScoped; userScoped]
  ∧ buildInstallArgs userScoped
    = [js "-m"; js "pip"; js "install"; js "--user"; js "-U"; js "openai-whisper"].
Proof. split_and!; vm_compute; reflexivity. Qed.

Lemma strategiesTried_app l1 l2 :
  strategiesTried (l1 ++ l2) = strategiesTried l1 ++ strategiesTried l2.
Proof. apply omap_app. Qed.

Lemma upgradePipPhase_no_strategy p oracle :
  strategiesTried (upgradePipPhase p oracle).2 = [].
Proof. unfold upgradePipPhase, runCommand. by oracle_cases. Qed.

Lemma installPackagePhase_log p oracle log :
  ∃ tried, (installPackagePhase p oracle log).2 = log ++ (InstallPackage <$> tried)
    ∧ head tried = Some {| user := isDarwin p; legacy := false |}
    ∧ (isDarwin p = false → NoDup tried).
Proof.
  unfold installPackagePhase, runCommand.
  destruct (isDarwin p); oracle_cases; cbn [snd];
    rewrite <- ?(assoc_L (++)); cbn [app];
    first [ eexists [_]; split_and!; [reflexivity|reflexivity|]
          | eexists [_; _]; split_and!; [reflexivity|reflexivity|]
          | eexists [_; _; _]; split_and!; [reflexivity|reflexivity|] ];
    intros Hd; try discriminate Hd;
    repeat (apply NoDup_cons; split;
            [intros Hin%list_elem_of_In; cbn in Hin; intuition congruence|]);
    apply NoDup_nil_2.
Qed.

(** Off darwin no install strategy is tried twice in a run, and on every
    platform the first strategy tried is the plain one, user-scoped exactly
    on darwin. *)
Theorem installWhisper_strategies (p : Platform) (oracle : CommandOracle) :
  (isDarwin p = false → NoDup (strategiesTried (installWhisper p oracle).2))
  ∧ (∀ first, head (strategiesTried (installWhisper p oracle).2) = Some first →
              first = {| user := isDarwin p; legacy := false |}).
Proof.
  unfold installWhisper.
  pose proof (upgradePipPhase_no_strategy p oracle) as Hup.
  destruct (upgradePipPhase p oracle) as [[[]|e] log]; simpl in Hup.
  - destruct (installPackagePhase_log p oracle log) as (tried & -> & Hhead & Hnodup).
    rewrite strategiesTried_app, Hup. cbn [app].
    assert (strategiesTried (InstallPackage <$> tried) = tried) as ->.
    { clear. induction tried as [|t tried IH]; [done|]. cbn. by f_equal. }
    split; [done|]. intros first Hf. congruence.
  - simpl. rewrite Hup. split; [constructor|done].
Qed.

(** On Linux, with every install refused. *)
Lemma installWhisper_strategies_witness :
  NoDup (strategiesTried (installWhisper Linux managedEnvironmentOracle).2).
Proof. exact (proj1 (installWhisper_strategies Linux managedEnvironmentOracle) eq_refl). Defined.

(** ** [getFFmpegPath] *)

Lemma existsSync_nonempty fs p : existsSync fs p = true → p ≠ [].
Proof. by destruct p. Qed.

Lemma binaryName_nonempty env : binaryName env ≠ [].
Proof. unfold binaryName. by destruct (isWin32 (platform env)). Qed.

Lemma bundledFFmpegPath_verified env fs static p :
  bundledFFmpegPath env fs static = Some p →
  existsSync fs p = true ∧ accessExecutable fs p = true.
Proof.
  unfold bundledFFmpegPath. intros H.
  repeat case_match; simplify_eq;
    split; by apply negb_false_iff.
Qed.

Lemma truthyString_Some s : s ≠ [] → truthyString (Some s) = true.
Proof. by destruct s. Qed.

(** C8.  [getFFmpegPath] always returns, and what it returns is a string
    that is not empty.  With nothing cached, the path is the bundled binary
    when one is found that exists and is executable, and otherwise the name
    of the system binary, whatever the probe of that binary answers; the
    path is stored in the cache.  Every later call returns the same path and
    leaves the manager as it is, whatever the environment has become. *)
Theorem getFFmpegPath_never_throws
  (env : Env) (fs : FS) (static : Completion unit (option jsstring))
  (systemProbe : Completion jsstring jsstring) (m : Manager) :
  ∃ path m' trace,
    getFFmpegPath env fs static systemProbe m = (Returns path, m', trace)
    ∧ path ≠ []
    ∧ (truthyString (cachedFFmpegPath m) = false →
       cachedFFmpegPath m' = Some path
       ∧ match bundledFFmpegPath env fs static with
         | Some bundled =>
             path = bundled ∧ existsSync fs path = true
             ∧ accessExecutable fs path = true ∧ trace = []
         | None =>
             path = binaryName env
             ∧ trace = [Spawn (binaryName env) [js "--version"]]
         end)
    ∧ ∀ env' fs' static' systemProbe',
        getFFmpegPath env' fs' static' systemProbe' m' = (Returns path, m', []).
Proof.
  unfold getFFmpegPath at 1.
  destruct (truthyString (cachedFFmpegPath m)) eqn:Hc.
  - eexists _, _, _. split_and!; [done| |done|].
    + by destruct (cachedFFmpegPath m) as [[|??]|].
    + intros. unfold getFFmpegPath. by rewrite Hc.
  - destruct (bundledFFmpegPath env fs static) as [bundled|] eqn:Hb.
    + apply bundledFFmpegPath_verified in Hb as [Hex Hx].
      pose proof (existsSync_nonempty _ _ Hex) as Hne.
      eexists _, _, _. split_and!; [done|done|done|].
      intros. unfold getFFmpegPath. cbn [cachedFFmpegPath setCachedFFmpegPath].
      by rewrite truthyString_Some.
    + assert ((match systemProbe with
               | Returns _ => binaryName env
               | Raises _ => binaryName env
               end) = binaryName env) as -> by by destruct systemProbe.
      eexists _, _, _. split_and!; [done|apply binaryName_nonempty|done|].
      intros. unfold getFFmpegPath. cbn [cachedFFmpegPath setCachedFFmpegPath].
      by rewrite truthyString_Some by apply binaryName_nonempty.
Qed.

(** With no bundled binary and no [ffmpeg] on the PATH, the name [ffmpeg]
    comes back and is cached. *)
Lemma getFFmpegPath_never_throws_witness :
  ∃ m' trace,
    getFFmpegPath posixEnv ∅ (Raises ()) (Raises (js "spawn ffmpeg ENOENT")) newManager
    = (Returns (js "ffmpeg"), m', trace)
    ∧ cachedFFmpegPath m' = Some (js "ffmpeg")
    ∧ ∀ env' fs' static' systemProbe',
        getFFmpegPath env' fs' static' systemProbe' m' = (Returns (js "ffmpeg"), m', []).
Proof.
  destruct (getFFmpegPath_never_throws posixEnv ∅ (Raises ())
              (Raises (js "spawn ffmpeg ENOENT")) newManager)
    as (path & m' & trace & Heq & _ & Hfresh & Hlater).
  destruct (Hfresh eq_refl) as [Hcache Hpath].
  cbn in Hpath. destruct Hpath as [-> _].
  exists m', trace. by split_and!.
Defined.

(** ** The promise of [runWhisperProcess] *)

(** C2, at the input where the code departs from it.  When the timer fires
    before the process closes, the timer's callback rejects without setting
    [isResolved]; the close handler then finds the guard unset and calls
    [reject] a second time.  The promise keeps the first rejection. *)
Theorem runWhisperProcess_timeout_then_close :
  isResolved (runEvents [TimerFires]) = false
  ∧ settleCalls (runEvents [TimerFires; CloseEvent None])
    = [Raises TimedOut; Raises (ExitFailure None [] false)]
  ∧ promise (runEvents [TimerFires; CloseEvent None]) = Some (Raises TimedOut)
  ∧ signals (runEvents [TimerFires; CloseEvent None]) = [SIGTERM].
Proof. by split_and!. Qed.

Lemma handle_keeps_settlement s e c :
  promise s = Some c → promise (handle s e) = Some c.
Proof.
  destruct s as [r t o e' p calls sg]. cbn. intros ->.
  destruct e as [| | |code|enoent message]; cbn; unfold onTimeout, onClose, onError; cbn.
  - by destruct t, r.
  - done.
  - done.
  - destruct r; [done|]. by destruct (decide (code = Some 0%Z)).
  - destruct r; [done|]. by destruct enoent.
Qed.

Lemma promise_keeps_first_settlement (es later : list RunEvent) c :
  promise (runEvents es) = Some c → promise (runEvents (es ++ later)) = Some c.
Proof.
  unfold runEvents. rewrite foldl_app. generalize (foldl handle spawned es).
  induction later as [|e later IH]; intros s H; [done|].
  cbn [foldl]. apply IH. by apply handle_keeps_settlement.
Qed.

Lemma handle_reachable s e : reachable s → reachable (handle s e).
Proof.
  destruct s as [r t o e' p calls sg]. unfold reachable. cbn.
  intros [(-> & -> & ->)|[(-> & -> & -> & ->)|(-> & -> & c & Hp & Hc)]].
  - destruct e as [| | |code|enoent message]; cbn; unfold onTimeout, onClose, onError; cbn.
    + destruct t; cbn; pick_reachable.
    + pick_reachable.
    + pick_reachable.
    + destruct (decide (code = Some 0%Z)); cbn; pick_reachable.
    + destruct enoent; cbn; pick_reachable.
  - destruct e as [| | |code|enoent message]; cbn; unfold onTimeout, onClose, onError; cbn.
    + pick_reachable.
    + pick_reachable.
    + pick_reachable.
    + destruct (decide (code = Some 0%Z)); cbn; pick_reachable.
    + destruct enoent; cbn; pick_reachable.
  - destruct e as [| | |code|enoent message]; cbn; unfold onTimeout, onClose, onError; cbn;
      right; right; (split; [done|]); (split; [done|]); by exists c.
Qed.

Lemma runEvents_reachable es : reachable (runEvents es).
Proof.
  unfold runEvents.
  assert (reachable spawned) as H by (left; done).
  revert H. generalize spawned.
  induction es as [|e es IH]; intros s H; [done|].
  cbn [foldl]. by apply IH, handle_reachable.
Qed.

(** Whatever happens, [resolve] and [reject] are called at most twice, and
    twice only when the first call was the timer's. *)
Theorem runWhisperProcess_settle_calls (es : list RunEvent) :
  (length (settleCalls (runEvents es)) <= 2)%nat
  ∧ (length (settleCalls (runEvents es)) = 2%nat →
     head (settleCalls (runEvents es)) = Some (Raises TimedOut)).
Proof.
  destruct (runEvents_reachable es)
    as [(_ & -> & _)|[(_ & _ & -> & _)|(_ & _ & c & _ & [->| ->])]]; cbn; split; (lia || done).
Qed.

(** The timer, then close: the first of the two calls is the timer's. *)
Lemma runWhisperProcess_settle_calls_witness :
  head (settleCalls (runEvents [TimerFires; CloseEvent None]))
  = Some (Raises TimedOut).
Proof.
  exact (proj2 (runWhisperProcess_settle_calls [TimerFires; CloseEvent None]) eq_refl).
Defined.

Lemma handle_close_settles s code : reachable s → promise (handle s (CloseEvent code)) ≠ None.
Proof.
  destruct s as [r t o e' p calls sg]. unfold reachable. cbn.
  intros [(-> & -> & ->)|[(-> & -> & -> & ->)|(-> & -> & c & Hp & Hc)]];
    unfold onClose; cbn; [destruct (decide (code = Some 0%Z)); by cbn..|done].
Qed.

Lemma handle_error_settles s enoent message :
  reachable s → promise (handle s (ErrorEvent enoent message)) ≠ None.
Proof.
  destruct s as [r t o e' p calls sg]. unfold reachable. cbn.
  intros [(-> & -> & ->)|[(-> & -> & -> & ->)|(-> & -> & c & Hp & Hc)]];
    unfold onError; cbn; [destruct enoent; by cbn..|done].
Qed.

(** Once the process has closed or failed, the promise is settled. *)
Theorem runWhisperProcess_exit_always_settles
  (before later : list RunEvent) (code : option Z) (enoent : bool) (message : jsstring) :
  promise (runEvents (before ++ CloseEvent code :: later)) ≠ None
  ∧ promise (runEvents (before ++ ErrorEvent enoent message :: later)) ≠ None.
Proof.
  split.
  - destruct (promise (runEvents (before ++ [CloseEvent code]))) as [c|] eqn:E.
    + rewrite (cons_middle _ before later), (assoc_L (++)).
      by rewrite (promise_keeps_first_settlement _ later c E).
    + exfalso. revert E. unfold runEvents. rewrite foldl_app. cbn [foldl].
      apply handle_close_settles, runEvents_reachable.
  - destruct (promise (runEvents (before ++ [ErrorEvent enoent message]))) as [c|] eqn:E.
    + rewrite (cons_middle _ before later), (assoc_L (++)).
      by rewrite (promise_keeps_first_settlement _ later c E).
    + exfalso. revert E. unfold runEvents. rewrite foldl_app. cbn [foldl].
      apply handle_error_settles, runEvents_reachable.
Qed.

(** ** [createTempAudioFile] and [transcribeLocalWhisper] *)

(** C3, at the input where the code departs from it.  An empty buffer is
    written to the temporary file, the file is found empty and the call
    throws; the file stays on disk and [unlink] is never called. *)
Theorem transcribeLocalWhisper_empty_file_left_behind :
  match transcribeLocalWhisper posixEnv exampleAnswers exampleDisk newManager
          (ArrayBufferBlob []) None None with
  | (outcome, _, disk, trace) =>
      outcome = Some (Raises (TempFile AudioFileEmpty))
      ∧ disk !! exampleTempPath = Some emptyTempFile
      ∧ WriteFile exampleTempPath 0 ∈ trace
      ∧ filter (fun e => isUnlink e = true) trace = []
  end.
Proof.
  vm_compute. split_and!; try reflexivity.
  repeat first [apply list_elem_of_here | apply list_elem_of_further].
Qed.


Lemma createTempAudioFile_written env a fs blob buffer :
  toBuffer env blob = Returns buffer → writeFails a = false → statFails a = false →
  createTempAudioFile env a fs blob
  = (match buffer with
     | [] => Raises AudioFileEmpty
     | _ :: _ => Returns (tempAudioPathFor env (uuid a))
     end,
     <[tempAudioPathFor env (uuid a) := {| content := buffer; executable := false |}]> fs,
     [WriteFile (tempAudioPathFor env (uuid a)) (length buffer)]).
Proof.
  intros Hb Hw Hs. unfold createTempAudioFile. rewrite Hb, Hw, Hs.
  rewrite lookup_insert_eq. cbn [content]. by destruct buffer.
Qed.




(** Once [createTempAudioFile] has returned, every way out of
    [transcribeLocalWhisper] ends with [unlink] on the temporary file, which
    removes it unless [unlink] fails; whether it fails makes no difference
    to what the call returns or throws. *)
Theorem transcribeLocalWhisper_cleans_up
  (env : Env) (a : Answers) (fs : FS) (m : Manager) (blob : AudioBlob)
  (model language : option jsstring)
  (path : jsstring) (fs1 : FS) (t1 : list Effect)
  (outcome : Completion TranscribeError ParsedTranscript)
  (m' : Manager) (fs' : FS) (trace : list Effect) :
  truthyProp (getProp (checkFFmpegAvailability env fs (world a) m).1.1
                (js "available")) = true →
  createTempAudioFile env a fs blob = (Returns path, fs1, t1) →
  transcribeLocalWhisper env a fs m blob model language
  = (Some outcome, m', fs', trace) →
  last trace = Some (Unlink path)
  ∧ fs' = (if unlinkFails a then fs1 else delete path fs1)
  ∧ ∀ b, (transcribeLocalWhisper env (withUnlinkFails a b) fs m blob model language).1.1.1
         = Some outcome.
Proof.
  intros Hav Hc. unfold transcribeLocalWhisper.
  change (world (withUnlinkFails a ?b)) with (world a).
  change (createTempAudioFile env (withUnlinkFails a ?b) fs blob)
    with (createTempAudioFile env a fs blob).
  change (runWhisperProcess env (withUnlinkFails a ?b)) with (runWhisperProcess env a).
  destruct (checkFFmpegAvailability env fs (world a) m) as [[check m0] t0].
  cbn [fst snd] in Hav. rewrite Hav, Hc. cbn [negb].
  destruct (runWhisperProcess env a fs1 m0 path (modelOr model) language)
    as [[[settled|] m1] t2].
  2:{ by destruct check. }
  unfold cleanupTempFile. cbn [unlinkFails withUnlinkFails].
  intros H.
  assert (last ((t0 ++ t1 ++ t2) ++ [Unlink path]) = Some (Unlink path)) as Hlast
    by apply last_snoc.
  rewrite <- !(assoc_L (++)) in Hlast.
  destruct check; try done;
    destruct (unlinkFails a); simplify_eq; (split_and!; [done..|]);
    intros []; reflexivity.
Qed.

(** A transcription that succeeds. *)
Lemma transcribeLocalWhisper_cleans_up_witness :
  last (transcribeLocalWhisper posixEnv exampleAnswers exampleDisk newManager
          (ArrayBufferBlob [82; 73; 70; 70]) None None).2
  = Some (Unlink exampleTempPath).
Proof.
  pose proof (transcribeLocalWhisper_cleans_up posixEnv exampleAnswers exampleDisk
                newManager (ArrayBufferBlob [82; 73; 70; 70]) None None
                exampleTempPath) as H.
  assert ((transcribeLocalWhisper posixEnv exampleAnswers exampleDisk newManager
             (ArrayBufferBlob [82; 73; 70; 70]) None None).1.1.1
          = Some (Returns (Success (js "hi")))) as Ho
    by (vm_compute; reflexivity).
  destruct (transcribeLocalWhisper posixEnv exampleAnswers exampleDisk newManager
              (ArrayBufferBlob [82; 73; 70; 70]) None None)
    as [[[o m'] fs'] trace].
  cbn [fst snd] in Ho |- *. subst o.
  refine (proj1 (H _ _ _ m' fs' trace _ _ eq_refl)).
  - vm_compute. reflexivity.
  - etrans.
    + by apply (createTempAudioFile_written posixEnv exampleAnswers exampleDisk
                  (ArrayBufferBlob [82; 73; 70; 70]) [82; 73; 70; 70]).
    + reflexivity.
Defined.

(** ** [cancelDownload] *)

(** C7, at the input where the code departs from it.  A download is
    cancelled and its process does not exit: the graceful signal is sent,
    [killed] becomes true, and when the three seconds have passed the test
    on [killed] keeps the forced signal from being sent.  The process is
    still alive and has received the graceful signal only. *)
Theorem cancelDownload_never_escalates :
  currentDownloadProcess (manager (downloads [Start])) = Some 0%nat
  ∧ (cancelDownload (downloads [Start])).1.1 = Cancelled
  ∧ isAlive (downloads [Start; Cancel; CancelGrace]) 0 = true
  ∧ signalsOf (downloads [Start; Cancel; CancelGrace]) 0 = [SIGTERM].
Proof. split_and!; vm_compute; reflexivity. Qed.

Lemma signal_manager s pid sig : manager (signal s pid sig) = manager s.
Proof. unfold signal. by destruct (children s !! pid). Qed.





Lemma step_keeps_handle s e :
  e ≠ Start → endsDownload e = false →
  currentDownloadProcess (manager (step s e)) = currentDownloadProcess (manager s).
Proof.
  intros He Hend. destruct e; try done; cbn [step].
  - unfold processExits. by destruct (children s !! pid).
  - unfold onDownloadTimeout. by rewrite signal_manager.
  - unfold onDownloadTimeoutGrace. destruct (children s !! pid) as [c|]; [|done].
    destruct (negb (killed c)); [|done]. by rewrite signal_manager.
  - unfold cancelDownload. destruct (currentDownloadProcess (manager s)) eqn:E; [|done].
    cbn [fst snd]. by rewrite signal_manager.
  - unfold onGraceElapsed. destruct (currentDownloadProcess (manager s)) eqn:E; [|done].
    destruct (children s !! n) as [c|]; [|done].
    destruct (negb (killed c)); [|done]. by rewrite signal_manager.
Qed.

Lemma step_ends_download s e :
  endsDownload e = true → currentDownloadProcess (manager (step s e)) = None.
Proof. by destruct e. Qed.

Lemma downloadActive_snoc events e :
  downloadActive (events ++ [e]) ↔
  e = Start ∨ (endsDownload e = false ∧ downloadActive events).
Proof.
  unfold downloadActive. split.
  - intros (pre & post & Heq & Hpost).
    destruct (decide (post = [])) as [->|Hne].
    + left. apply (f_equal last) in Heq.
      rewrite !last_snoc in Heq. by simplify_eq.
    + right. destruct (exists_last Hne) as (post' & e' & ->).
      change (pre ++ Start :: post' ++ [e']) with (pre ++ (Start :: post') ++ [e']) in Heq.
      rewrite (assoc_L (++)) in Heq. apply app_inj_tail in Heq as [-> ->].
      apply Forall_app in Hpost as [Hpost' [He' _]%Forall_cons]. split; [done|].
      by exists pre, post'.
  - intros [->|(He & pre & post & -> & Hpost)].
    + by exists events, [].
    + exists pre, (post ++ [e]). split; [by rewrite <- (assoc_L (++))|].
      apply Forall_app. split; [done|]. by constructor.
Qed.

Lemma handle_downloadActive events :
  is_Some (currentDownloadProcess (manager (downloads events))) ↔ downloadActive events.
Proof.
  induction events as [|e events IH] using rev_ind.
  - split; [by intros [? ?]|]. by intros ([|? ?] & ? & ? & _).
  - unfold downloads in *. rewrite foldl_app. cbn [foldl].
    rewrite downloadActive_snoc.
    assert (e = Start ∨ e ≠ Start) as [->|He] by (destruct e; by (left + right)).
    { split; [by left|]. intros _. by eexists. }
    destruct (endsDownload e) eqn:Hend.
    + rewrite step_ends_download by done. split; [by intros [? ?]|].
      by intros [?|[? _]].
    + rewrite step_keeps_handle by done. rewrite IH. split; [by right|].
      by intros [?|[_ ?]].
Qed.

(** When [cancelDownload] succeeds.  On a manager that has seen the events
    [events], [cancelDownload] answers "Download cancelled" exactly when a
    download has been started and no download process, that one or an
    earlier one, has emitted [close] or [error] since; otherwise it answers
    "No active download to cancel", sets no timer and changes nothing.  It
    never changes the manager itself, so the handle stays until one of those
    events.  So a download that is cancelled and replaced by a new one
    leaves the new one out of reach once its own [close] arrives: the new
    process runs on and [cancelDownload] reports no active download. *)
Theorem cancelDownload_succeeds_iff (events : list DownloadEvent) :
  ((cancelDownload (downloads events)).1.1 = Cancelled ↔ downloadActive events)
  ∧ (¬ downloadActive events →
     cancelDownload (downloads events)
     = (CancelFailed noActiveDownload, downloads events, false))
  ∧ manager (cancelDownload (downloads events)).1.2 = manager (downloads events)
  ∧ (cancelDownload (downloads [Start; Cancel; Start; CloseEmitted 0])).1.1
    = CancelFailed noActiveDownload
  ∧ isAlive (downloads [Start; Cancel; Start; CloseEmitted 0]) 1 = true.
Proof.
  pose proof (handle_downloadActive events) as H. unfold cancelDownload.
  destruct (currentDownloadProcess (manager (downloads events))) as [pid|] eqn:E.
  - split_and!; [|by intros []; apply H
                 |by cbn [fst snd]; rewrite signal_manager|done|done].
    split; [|done]. intros _. by apply H.
  - split_and!; [|done..]. split; [done|]. intros [? ?]%H. done.
Qed.

(** ** [sanitizeErrorMessage] and the error classifiers *)

Lemma ansiLength_not_escape c r : c ≠ 27 → ansiLength (c :: r) = None.
Proof.
  intros Hc. unfold ansiLength. destruct r as [|b r]; [done|].
  by rewrite (proj2 (N.eqb_neq c 27) Hc).
Qed.

Lemma dropAnsi_app_plain pre s : 27 ∉ pre → dropAnsi 0 (pre ++ s) = pre ++ dropAnsi 0 s.
Proof.
  induction pre as [|c pre IH]; [done|].
  intros [Hc Hm]%not_elem_of_cons. cbn [app dropAnsi].
  rewrite ansiLength_not_escape by done. by rewrite IH.
Qed.

Lemma dropAnsi_skip k s : (k ≤ length s)%nat → dropAnsi k s = dropAnsi 0 (drop k s).
Proof.
  revert s. induction k as [|k IH]; intros s Hk; [done|].
  destruct s as [|c s]; [simpl in Hk; lia|].
  cbn [dropAnsi drop]. apply IH. simpl in Hk. lia.
Qed.

Lemma spanAnsiParams_app params c post :
  Forall (λ x, isAnsiParam x = true) params → isAnsiParam c = false →
  spanAnsiParams (params ++ c :: post) = (length params, c :: post).
Proof.
  intros Hp Hc. induction Hp as [|x params Hx Hp IH]; cbn [app spanAnsiParams].
  - by rewrite Hc.
  - by rewrite Hx, IH.
Qed.

Lemma dropAnsi_sequence params post :
  Forall (λ x, isAnsiParam x = true) params →
  dropAnsi 0 ([27; 91] ++ params ++ 109 :: post) = dropAnsi 0 post.
Proof.
  intros Hp. cbn [app dropAnsi ansiLength].
  change ((27 =? 27) && (91 =? 91)) with true. cbn match.
  rewrite spanAnsiParams_app by done.
  change (109 =? 109) with true. cbn match.
  replace (3 + length params - 1)%nat with (S (length params + 1)) by lia.
  cbn [dropAnsi].
  rewrite (dropAnsi_skip (length params + 1)) by (rewrite length_app; simpl; lia).
  rewrite (cons_middle 109 params post), (assoc_L (++)).
  rewrite drop_app_length'; [done|]. rewrite length_app. simpl. lia.
Qed.

(** A message that holds no escape character is returned as it is.  The
    first colour sequence of a message (escape, bracket, digits and
    semicolons, [m]) is removed whole, the text before it is kept, and the
    rest of the message is sanitized in turn. *)
Theorem sanitizeErrorMessage_strips (pre params post : jsstring) :
  27 ∉ pre →
  sanitizeErrorMessage pre = pre
  ∧ (Forall (λ c, isAnsiParam c = true) params →
     sanitizeErrorMessage (pre ++ [27; 91] ++ params ++ 109 :: post)
     = pre ++ sanitizeErrorMessage post).
Proof.
  intros Hpre. unfold sanitizeErrorMessage. split.
  - rewrite <- (app_nil_r pre) at 1. rewrite dropAnsi_app_plain by done.
    apply app_nil_r.
  - intros Hp. rewrite dropAnsi_app_plain by done. by rewrite dropAnsi_sequence.
Qed.

Lemma sanitizeErrorMessage_strips_witness :
  sanitizeErrorMessage (js "ERROR: ") = js "ERROR: "
  ∧ sanitizeErrorMessage (js "ERROR: " ++ [27; 91] ++ js "1;31" ++ 109 :: js "denied")
    = js "ERROR: " ++ sanitizeErrorMessage (js "denied").
Proof.
  destruct (sanitizeErrorMessage_strips (js "ERROR: ") (js "1;31") (js "denied"))
    as [Hplain Hstrip].
  - intros H%list_elem_of_In. vm_compute in H. intuition discriminate.
  - split; [exact Hplain|]. apply Hstrip. repeat constructor.
Defined.

Lemma stripPrefix_app p post : stripPrefix p (p ++ post) = Some post.
Proof. induction p as [|a p IH]; [done|]. cbn [app stripPrefix]. by rewrite N.eqb_refl. Qed.

Lemma includes_app pre p post : includes (pre ++ p ++ post) p = true.
Proof.
  induction pre as [|c pre IH].
  - destruct (p ++ post) eqn:E; cbn [app includes]; unfold startsWith;
      rewrite <- E, stripPrefix_app; done.
  - cbn [app includes]. rewrite IH. apply orb_true_r.
Qed.

Lemma toLowerCase_app a b : toLowerCase (a ++ b) = toLowerCase a ++ toLowerCase b.
Proof. unfold toLowerCase. apply bind_app. Qed.

Lemma includes_lower s pre w post :
  s = pre ++ w ++ post → includes (toLowerCase s) (toLowerCase w) = true.
Proof. intros ->. rewrite !toLowerCase_app. apply includes_app. Qed.

(** Colour and letter case do not hide an error from the classifiers: when
    the message, its colour sequences removed, contains a word that in lower
    case is one of the texts looked for, [shouldRetryWithUserInstall]
    (respectively [isTomlResolverError]) answers true. *)
Theorem install_errors_classified_in_any_case (message pre w post : jsstring) :
  sanitizeErrorMessage message = pre ++ w ++ post →
  (toLowerCase w ∈ retryKeywords → shouldRetryWithUserInstall message = true)
  ∧ (toLowerCase w ∈ tomlKeywords → isTomlResolverError message = true).
Proof.
  intros Hm. pose proof (includes_lower _ _ _ _ Hm) as Hi.
  unfold shouldRetryWithUserInstall, isTomlResolverError, retryKeywords, tomlKeywords.
  split; intros Hk; rewrite !elem_of_cons, elem_of_nil in Hk;
    destruct_or!; try done; rewrite <- Hk, Hi; by rewrite ?orb_true_r.
Qed.

Lemma install_errors_classified_in_any_case_witness :
  shouldRetryWithUserInstall colouredRefusal = true.
Proof.
  apply (proj1 (install_errors_classified_in_any_case colouredRefusal
                  (js "ERROR: ") (js "Externally-Managed-Environment") [] eq_refl)).
  apply list_elem_of_In. vm_compute. tauto.
Defined.

(** ** The candidates of [findPythonExecutable] *)

Lemma addCandidate_spec set c :
  NoDup set →
  NoDup (addCandidate set c)
  ∧ ∀ x, x ∈ addCandidate set c ↔ x ∈ set ∨ (x ≠ [] ∧ sanitizeCandidate c = x).
Proof.
  intros Hnd. unfold addCandidate.
  destruct (sanitizeCandidate c) as [|a s] eqn:E.
  - split; [done|]. intros x. split; [by left|]. by intros [?|[? <-]].
  - case_decide as Hin.
    + split; [done|]. intros x. split; [by left|]. by intros [?|[? <-]].
    + split.
      * apply NoDup_app. split_and!; [done| |apply NoDup_singleton].
        intros x Hx Hx'%list_elem_of_singleton. by subst.
      * intros x. rewrite elem_of_app, list_elem_of_singleton. split.
        -- intros [?| ->]; [by left|by right].
        -- intros [?|[? <-]]; [by left|by right].
Qed.

Lemma foldl_addCandidate_spec raw set :
  NoDup set →
  NoDup (foldl addCandidate set raw)
  ∧ ∀ x, x ∈ foldl addCandidate set raw
         ↔ x ∈ set ∨ (x ≠ [] ∧ ∃ r, r ∈ raw ∧ sanitizeCandidate r = x).
Proof.
  revert set. induction raw as [|c raw IH]; intros set Hnd; cbn [foldl].
  - split; [done|]. intros x. split; [by left|]. intros [?|(_ & r & []%elem_of_nil & _)]. done.
  - destruct (addCandidate_spec set c Hnd) as [Hnd' Hmem].
    destruct (IH _ Hnd') as [Hnd'' Hmem']. split; [done|].
    intros x. rewrite Hmem', Hmem. split.
    + intros [[?|[? ?]]|(? & r & ? & ?)]; [by left| |].
      * right. split; [done|]. exists c. split; [left|done].
      * right. split; [done|]. exists r. split; [by right|done].
    + intros [?|(? & r & [-> |?]%elem_of_cons & ?)].
      * by left; left.
      * by left; right.
      * right. split; [done|]. by exists r.
Qed.

(** The set of candidates holds no candidate twice and no empty string: it
    holds exactly the sanitized forms, where not empty, of the candidates
    offered to [addCandidate]. *)
Theorem candidateSet_spec (raw : list jsstring) :
  NoDup (candidateSet raw)
  ∧ ∀ c, c ∈ candidateSet raw ↔ c ≠ [] ∧ ∃ r, r ∈ raw ∧ sanitizeCandidate r = c.
Proof.
  destruct (foldl_addCandidate_spec raw [] (NoDup_nil_2)) as [Hnd Hmem].
  split; [done|]. intros c. unfold candidateSet. rewrite Hmem. split.
  - by intros [[]%elem_of_nil|?].
  - by right.
Qed.

Lemma foldl_addCandidate_head raw x set :
  ∃ rest, foldl addCandidate (x :: set) raw = x :: rest.
Proof.
  revert set. induction raw as [|c raw IH]; intros set; cbn [foldl]; [by eexists|].
  unfold addCandidate at 2. destruct (sanitizeCandidate c); [apply IH|].
  case_decide; [apply IH|]. cbn [app]. apply IH.
Qed.

Lemma searchCandidates_accepted env fs probe c rest :
  accepted env fs probe c = true →
  searchCandidates env fs probe (c :: rest) = (Some c, [probeOf c]).
Proof.
  unfold accepted, supported. intros [Hs Hv]%andb_true_iff.
  apply negb_true_iff in Hs. cbn [searchCandidates]. rewrite Hs.
  destruct (getPythonVersion (probe c)); [|done]. by rewrite Hv.
Qed.

(** The interpreter named by [OPENWHISPR_PYTHON] comes first: when its
    sanitized form is not empty and its probe is accepted, it is the one
    [findPythonExecutable] returns and caches, and it is the only candidate
    probed. *)
Theorem findPythonExecutable_override_first
  (env : Env) (fs : FS) (probe : jsstring → ProbeEnd) (m : Manager)
  (override : jsstring) :
  getenv env pythonOverride = Some override →
  sanitizeCandidate override ≠ [] →
  accepted env fs probe (sanitizeCandidate override) = true →
  truthyString (pythonCmd m) = false →
  findPythonExecutable env fs probe m
  = (Returns (sanitizeCandidate override),
     setPythonCmd m (Some (sanitizeCandidate override)),
     [probeOf (sanitizeCandidate override)]).
Proof.
  intros Henv Hne Hacc Hcache.
  unfold findPythonExecutable, findPythonExecutableFrom. rewrite Hcache.
  assert (∃ rest, candidateSet (rawCandidates env) = sanitizeCandidate override :: rest)
    as [rest ->].
  { unfold rawCandidates, candidateSet. fold pythonOverride. rewrite Henv.
    assert (truthyString (Some override) = true) as ->.
    { destruct override; [|done]. by vm_compute in Hne. }
    cbn [default app foldl from_option id].
    assert (addCandidate [] override = [sanitizeCandidate override]) as ->.
    { unfold addCandidate. destruct (sanitizeCandidate override); [done|].
      by rewrite decide_False by apply not_elem_of_nil. }
    apply foldl_addCandidate_head. }
  by rewrite searchCandidates_accepted.
Qed.

Lemma findPythonExecutable_override_first_witness :
  findPythonExecutable overrideEnv overrideDisk overrideProbe newManager
  = (Returns (js "/opt/py/bin/python3"),
     setPythonCmd newManager (Some (js "/opt/py/bin/python3")),
     [probeOf (js "/opt/py/bin/python3")]).
Proof.
  apply (findPythonExecutable_override_first overrideEnv overrideDisk overrideProbe
           newManager (js " '/opt/py/bin/python3' ")).
  - reflexivity.
  - vm_compute. discriminate.
  - vm_compute. reflexivity.
  - reflexivity.
Defined.

Lemma findPythonExecutable_found raw env fs probe m p m' t :
  findPythonExecutableFrom raw env fs probe m = (Returns p, m', t) →
  p ≠ [] ∧ pythonCmd m' = Some p
  ∧ (truthyString (pythonCmd m) = false → accepted env fs probe p = true)
  ∧ useMlx m' = useMlx m ∧ mlxInstalled m' = mlxInstalled m.
Proof.
  unfold findPythonExecutableFrom.
  destruct (truthyString (pythonCmd m)) eqn:Hc.
  - intros [= <- <- <-]. destruct (pythonCmd m) as [[|a s]|] eqn:Hp; try done.
  - pose proof (searchCandidates_spec env fs probe (candidateSet raw)) as Hs.
    destruct (searchCandidates env fs probe (candidateSet raw)) as [[c|] t0]; [|done].
    intros [= <- <- <-]. destruct Hs as (pre & post & Hcs & _ & Hsk & Hsu & _).
    split_and!; try done.
    + assert (c ∈ candidateSet raw) as Hin.
      { rewrite Hcs, elem_of_app. right. left. }
      unfold candidateSet in Hin.
      apply (foldl_addCandidate_spec raw [] NoDup_nil_2) in Hin as [[]%elem_of_nil|[? _]].
      done.
    + intros _. unfold accepted. by rewrite Hsk, Hsu.
Qed.

Lemma findPythonExecutable_missing raw env fs probe m e m' t :
  findPythonExecutableFrom raw env fs probe m = (Raises e, m', t) →
  m' = m ∧ truthyString (pythonCmd m) = false.
Proof.
  unfold findPythonExecutableFrom. destruct (truthyString (pythonCmd m)); [done|].
  destruct (searchCandidates _ _ _ _) as [[c|] ?]; [done|]. intros H. by simplify_eq.
Qed.

Lemma findPythonExecutable_cached raw env fs probe m p :
  pythonCmd m = Some p → p ≠ [] →
  findPythonExecutableFrom raw env fs probe m = (Returns p, m, []).
Proof.
  intros Hp Hne. unfold findPythonExecutableFrom.
  by rewrite Hp, truthyString_Some.
Qed.

(** What [findPythonExecutable] returns is never the empty string, and it
    is remembered: every later call returns the same interpreter and spawns
    nothing, whatever has become of the machine. *)
Theorem findPythonExecutable_caches
  (raw : list jsstring) (env : Env) (fs : FS) (probe : jsstring → ProbeEnd)
  (m m' : Manager) (pythonPath : jsstring) (trace : list Effect) :
  findPythonExecutableFrom raw env fs probe m = (Returns pythonPath, m', trace) →
  pythonPath ≠ []
  ∧ pythonCmd m' = Some pythonPath
  ∧ ∀ raw' env' fs' probe',
      findPythonExecutableFrom raw' env' fs' probe' m' = (Returns pythonPath, m', []).
Proof.
  intros (Hne & Hp & _)%findPythonExecutable_found.
  split_and!; [done..|]. intros. by apply findPythonExecutable_cached.
Qed.

Lemma findPythonExecutable_caches_witness :
  js "python3.9" ≠ []
  ∧ pythonCmd (setPythonCmd newManager (Some (js "python3.9"))) = Some (js "python3.9")
  ∧ ∀ raw' env' fs' probe',
      findPythonExecutableFrom raw' env' fs' probe'
        (setPythonCmd newManager (Some (js "python3.9")))
      = (Returns (js "python3.9"), setPythonCmd newManager (Some (js "python3.9")), []).
Proof.
  apply (findPythonExecutable_caches [js "python2"; js "python3.9"; js "python3.11"]
           posixEnv ∅ exampleProbe newManager _ _
           [probeOf (js "python2"); probeOf (js "python3.9")]).
  vm_compute. reflexivity.
Defined.

(** ** [getPythonVersion] *)

Lemma spanDigits_app ds rest :
  Forall (λ c, isDigit c = true) ds → noDigitAhead rest →
  spanDigits (ds ++ rest) = (ds, rest).
Proof.
  intros Hd Hr. induction Hd as [|c ds Hc Hd IH]; cbn [app].
  - destruct rest as [|c r]; [done|]. cbn [spanDigits]. simpl in Hr. by rewrite Hr.
  - cbn [spanDigits]. by rewrite Hc, IH.
Qed.

Lemma stripPrefixIgnoreCase_app p q s :
  foldAscii <$> q = foldAscii <$> p → stripPrefixIgnoreCase p (q ++ s) = Some s.
Proof.
  revert q. induction p as [|a p IH]; intros [|b q] [=]; [done|].
  cbn [app stripPrefixIgnoreCase]. rewrite (proj2 (N.eqb_eq _ _)) by done. by apply IH.
Qed.

Lemma matchVersionAt_version name mj mn rest :
  foldAscii <$> name = js "python " →
  mj ≠ [] → Forall (λ c, isDigit c = true) mj →
  mn ≠ [] → Forall (λ c, isDigit c = true) mn → noDigitAhead rest →
  matchVersionAt (name ++ mj ++ 46 :: mn ++ rest)
  = Some {| major := toDouble (digitsValue mj); minor := toDouble (digitsValue mn) |}.
Proof.
  intros Hname Hmj Dmj Hmn Dmn Hrest. unfold matchVersionAt.
  rewrite stripPrefixIgnoreCase_app by (by rewrite Hname).
  rewrite spanDigits_app by done.
  destruct mj as [|a mj]; [done|]. rewrite N.eqb_refl.
  rewrite spanDigits_app by done. by destruct mn.
Qed.

Lemma matchVersion_skips pre s :
  Forall (λ c, c ≠ 80 ∧ c ≠ 112) pre → matchVersion (pre ++ s) = matchVersion s.
Proof.
  intros Hpre. induction Hpre as [|c pre [H1 H2] Hpre IH]; [done|].
  cbn [app matchVersion]. rewrite IH.
  assert (matchVersionAt (c :: pre ++ s) = None) as ->; [|done].
  unfold matchVersionAt.
  change (js "python ") with (112 :: js "ython "). cbn [stripPrefixIgnoreCase].
  assert ((foldAscii 112 =? foldAscii c) = false) as ->; [|done].
  apply N.eqb_neq. unfold foldAscii.
  destruct ((65 <=? c) && (c <=? 90)) eqn:E; cbn; lia.
Qed.

Lemma digitsValue_bound ds acc :
  Forall (λ c, isDigit c = true) ds →
  foldl (λ acc c, 10 * acc + (c - 48)) acc ds + 1 ≤ 10 ^ N.of_nat (length ds) * (acc + 1).
Proof.
  intros Hd. revert acc. induction Hd as [|c ds Hc Hd IH]; intros acc.
  - cbn [foldl length]. change (10 ^ N.of_nat 0) with 1. lia.
  - cbn [foldl length]. etrans; [apply IH|].
    rewrite Nat2N.inj_succ, N.pow_succ_r'.
    unfold isDigit in Hc. apply andb_true_iff in Hc as [H1%N.leb_le H2%N.leb_le].
    generalize (10 ^ N.of_nat (length ds)). intros p. nia.
Qed.

Lemma digitsValue_short ds :
  Forall (λ c, isDigit c = true) ds → (length ds ≤ 15)%nat → digitsValue ds < 2 ^ 53.
Proof.
  intros Hd Hl. pose proof (digitsValue_bound ds 0 Hd) as H.
  fold (digitsValue ds) in H.
  assert (10 ^ N.of_nat (length ds) ≤ 10 ^ 15) as Hp.
  { apply N.pow_le_mono_r; lia. }
  revert H Hp. generalize (10 ^ N.of_nat (length ds)). intros p.
  change (10 ^ 15) with 1000000000000000. change (2 ^ 53) with 9007199254740992. lia.
Qed.

(** A probe that exits with 0 and prints, after text without the letter p,
    the word Python in any letter case, a blank, digits, a dot and digits,
    is read as that version.  Each number is the double nearest to the value
    of its digit run: the value itself for a run below 2^53, which covers
    every run of up to fifteen digits.  The version is supported exactly
    when the value of the first run is 3; no longer run rounds to 3. *)
Theorem getPythonVersion_reads_version (pre name mj mn rest : jsstring) :
  Forall (λ c, c ≠ 80 ∧ c ≠ 112) pre →
  foldAscii <$> name = js "python " →
  mj ≠ [] → Forall (λ c, isDigit c = true) mj →
  mn ≠ [] → Forall (λ c, isDigit c = true) mn →
  noDigitAhead rest →
  getPythonVersion (ProbeClosed (Some 0%Z) (pre ++ name ++ mj ++ 46 :: mn ++ rest))
  = Returns (Some {| major := toDouble (digitsValue mj);
                     minor := toDouble (digitsValue mn) |})
  ∧ (digitsValue mj < 2 ^ 53 → toDouble (digitsValue mj) = Whole (digitsValue mj))
  ∧ (digitsValue mn < 2 ^ 53 → toDouble (digitsValue mn) = Whole (digitsValue mn))
  ∧ ((length mj ≤ 15)%nat → digitsValue mj < 2 ^ 53)
  ∧ ((length mn ≤ 15)%nat → digitsValue mn < 2 ^ 53)
  ∧ isPythonVersionSupported
      (Some {| major := toDouble (digitsValue mj);
               minor := toDouble (digitsValue mn) |})
    = (digitsValue mj =? 3).
Proof.
  intros Hpre Hname Hmj Dmj Hmn Dmn Hrest.
  split_and!; [|apply toDouble_exact..|by apply digitsValue_short
               |by apply digitsValue_short|].
  - unfold getPythonVersion. rewrite decide_True by done. f_equal.
    rewrite matchVersion_skips by done.
    destruct (name ++ mj ++ 46 :: mn ++ rest) eqn:E; cbn [matchVersion];
      rewrite <- E, matchVersionAt_version; done.
  - cbn [isPythonVersionSupported major].
    destruct (toDouble (digitsValue mj)) as [n|] eqn:E.
    + destruct (N.eqb_spec (digitsValue mj) 3) as [H3|H3].
      * apply toDouble_three in H3. rewrite H3 in E. by simplify_eq.
      * apply N.eqb_neq. intros ->. by apply toDouble_three in E.
    + symmetry. apply N.eqb_neq. intros H3. apply toDouble_three in H3. congruence.
Qed.

(** A warning on the first line, then the version of a release newer than
    the ones the installer's messages name. *)
Lemma getPythonVersion_reads_version_witness :
  getPythonVersion
    (ProbeClosed (Some 0%Z)
       ((js "warning: shim" ++ [10]) ++ js "PYTHON " ++ js "3" ++ 46 :: js "13" ++ js ".1"))
  = Returns (Some {| major := Whole 3; minor := Whole 13 |}).
Proof.
  refine (proj1 (getPythonVersion_reads_version (js "warning: shim" ++ [10])
                   (js "PYTHON ") (js "3") (js "13") (js ".1") _ _ _ _ _ _ _)).
  - apply Forall_forall. intros c Hc%list_elem_of_In. vm_compute in Hc.
    intuition (subst; discriminate).
  - reflexivity.
  - discriminate.
  - repeat constructor.
  - discriminate.
  - repeat constructor.
  - reflexivity.
Defined.

(** ** The installation checks *)

Lemma importCheckResult_installed check :
  let result := match importCheckResult check with
                | Returns result => result
                | Raises message => failed (Some message)
                end in
  (installed result = true ↔
     ∃ output stderr, check = Closed (Some 0%Z) output stderr
                      ∧ includes output (js "OK") = true)
  ∧ working result = installed result.
Proof.
  unfold importCheckResult. destruct check as [msg|msg|code out err].
  - split; [|done]. split; [done|]. by intros (? & ? & ? & _).
  - split; [|done]. split; [done|]. by intros (? & ? & ? & _).
  - case_bool_decide as Hcode; destruct (includes out (js "OK")) eqn:Hi;
      cbn [andb installed working succeeded failed]; (split; [|done]).
    + split; [|done]. intros _. subst. by eexists _, _.
    + split; [done|]. intros (? & ? & ? & ?). simplify_eq. congruence.
    + split; [done|]. intros (? & ? & ? & ?). by simplify_eq.
    + split; [done|]. intros (? & ? & ? & ?). by simplify_eq.
Qed.

Lemma runImportCheck_forced env fs probe args check m result m' trace :
  runImportCheck env fs probe args check true m = (result, m', trace) →
  (installed result = true ↔
     (∃ p, pythonCmd m' = Some p)
     ∧ ∃ output stderr, check = Closed (Some 0%Z) output stderr
                        ∧ includes output (js "OK") = true)
  ∧ (working result = installed result)
  ∧ (∀ p, pythonCmd m' = Some p →
          accepted env fs probe p = true ∧ last trace = Some (Spawn p args))
  ∧ (pythonCmd m' = None → result = failed (Some pythonNotFoundMessage))
  ∧ useMlx m' = useMlx m ∧ mlxInstalled m' = mlxInstalled m.
Proof.
  unfold runImportCheck, findPythonExecutable.
  destruct (findPythonExecutableFrom _ _ _ _ _) as [[[p|e] m1] t] eqn:Hf.
  - apply findPythonExecutable_found in Hf as (Hne & Hp & Hacc & Hu & Hx).
    destruct (importCheckResult_installed check) as [Hi Hw].
    intros [= <- <- <-]. rewrite Hp. split_and!; try done.
    + rewrite Hi. split; [|by intros [_ ?]]. intros ?. split; [by eexists|done].
    + intros ? [= <-]. split; [by apply Hacc|]. by rewrite last_snoc.
  - apply findPythonExecutable_missing in Hf as [-> _].
    intros [= <- <- <-]. cbn [pythonCmd setPythonCmd]. split_and!; try done.
    split; [done|]. by intros [[? ?] _].
Qed.

Lemma runImportCheck_unforced env fs probe args check m p :
  pythonCmd m = Some p → p ≠ [] →
  ∃ result, runImportCheck env fs probe args check false m
            = (result, m, [Spawn p args]).
Proof.
  intros Hp Hne. unfold runImportCheck, findPythonExecutable.
  rewrite (findPythonExecutable_cached _ _ _ _ _ _ Hp Hne). by eexists.
Qed.

(** What a check of the Whisper or of the MLX installation finds, a failure
    included, is stored: the next call that is not forced returns the same
    result, leaves the manager as it is, looks for no interpreter and
    spawns nothing, whatever has become of the machine. *)
Theorem installation_checks_are_cached
  (env : Env) (fs : FS) (probe : jsstring → ProbeEnd) (check : ProcessEnd)
  (forceCheck : bool) (s : Setup) :
  (let '(result, s', _) :=
     checkWhisperInstallation env fs probe check forceCheck s in
   ∀ env' fs' probe' check',
     checkWhisperInstallation env' fs' probe' check' false s' = (result, s', []))
  ∧ (let '(result, s', _) :=
       checkMlxInstallation env fs probe check forceCheck s in
     ∀ env' fs' probe' check',
       checkMlxInstallation env' fs' probe' check' false s' = (result, s', [])).
Proof.
  split.
  - unfold checkWhisperInstallation at 1.
    destruct (if forceCheck then None else whisperInstalled s) as [cached|] eqn:Hc.
    + intros. unfold checkWhisperInstallation. destruct forceCheck; [done|].
      by rewrite Hc.
    + by destruct (runImportCheck _ _ _ _ _ _ _) as [[r m] t].
  - unfold checkMlxInstallation at 1.
    destruct (if forceCheck then None else mlxInstalledResult s) as [cached|] eqn:Hc.
    + intros. unfold checkMlxInstallation. destruct forceCheck; [done|].
      by rewrite Hc.
    + destruct (runImportCheck _ _ _ _ _ _ _) as [[r m] t].
      by destruct (installed r && working r).
Qed.

(** A forced check trusts nothing that was cached.  The result is stored;
    it says installed exactly when an interpreter was found and the import
    process printed its marker and exited with 0; the interpreter the
    manager holds afterwards was accepted by a probe made during this call
    and is the one the import ran on; and when none is held the result is
    the failure that says Python was not found. *)
Theorem checkWhisperInstallation_forced
  (env : Env) (fs : FS) (probe : jsstring → ProbeEnd) (check : ProcessEnd)
  (s s' : Setup) (result : InstallStatus) (trace : list Effect) :
  checkWhisperInstallation env fs probe check true s = (result, s', trace) →
  whisperInstalled s' = Some result
  ∧ (installed result = true ↔
       (∃ p, pythonCmd (core s') = Some p)
       ∧ ∃ output stderr, check = Closed (Some 0%Z) output stderr
                          ∧ includes output (js "OK") = true)
  ∧ (∀ p, pythonCmd (core s') = Some p →
          accepted env fs probe p = true
          ∧ last trace = Some (Spawn p whisperImportArgs))
  ∧ (pythonCmd (core s') = None → result = failed (Some pythonNotFoundMessage)).
Proof.
  unfold checkWhisperInstallation.
  destruct (runImportCheck _ _ _ _ _ _ _) as [[r m] t] eqn:Hr.
  intros [= <- <- <-]. apply runImportCheck_forced in Hr as (? & ? & ? & ? & _).
  by split_and!.
Qed.

(** The stale interpreter is dropped and [python3.11] is found. *)
Lemma checkWhisperInstallation_forced_witness :
  whisperInstalled
    (setWhisperInstalled
       (withCore staleSetup (setPythonCmd newManager (Some (js "python3.11"))))
       succeeded)
  = Some succeeded.
Proof.
  refine (proj1 (checkWhisperInstallation_forced posixEnv ∅ exampleProbe importWorks
                   staleSetup _ succeeded
                   [probeOf (js "python3.12"); probeOf (js "python3.11");
                    Spawn (js "python3.11") whisperImportArgs]
                   _)).
  vm_compute. reflexivity.
Defined.

Lemma bridgeName_mlx m :
  bridgeName m = mlxBridge ↔ useMlx m = true ∧ mlxInstalled m = true.
Proof.
  unfold bridgeName. destruct (useMlx m), (mlxInstalled m); cbn [andb];
    (split; [|intros [? ?]; done]); try done; intros H; by vm_compute in H.
Qed.

(** After a forced check of the MLX installation, the worker script every
    later operation uses is the MLX bridge exactly when the check found MLX
    installed, which is exactly when an interpreter was found and the import
    process printed its marker and exited with 0.  The check never turns
    [useMlx] off. *)
Theorem checkMlxInstallation_selects_bridge
  (env : Env) (fs : FS) (probe : jsstring → ProbeEnd) (check : ProcessEnd)
  (s s' : Setup) (result : InstallStatus) (trace : list Effect) :
  checkMlxInstallation env fs probe check true s = (result, s', trace) →
  (bridgeName (core s') = mlxBridge ↔ installed result = true)
  ∧ (installed result = true ↔
       (∃ p, pythonCmd (core s') = Some p)
       ∧ ∃ output stderr, check = Closed (Some 0%Z) output stderr
                          ∧ includes output (js "OK") = true)
  ∧ (useMlx (core s) = true → useMlx (core s') = true).
Proof.
  unfold checkMlxInstallation.
  destruct (runImportCheck _ _ _ _ _ _ _) as [[r m] t] eqn:Hr.
  apply runImportCheck_forced in Hr as (Hi & Hw & _ & _ & Hu & _).
  intros [= <- <- <-]. rewrite bridgeName_mlx, Hw, andb_diag.
  destruct (installed r) eqn:Hin;
    cbn [core withCore setMlxInstalledResult setUseMlx setMlxInstalled useMlx
         mlxInstalled pythonCmd installed]; rewrite ?Hin.
  - by split_and!.
  - split_and!; [|done|by rewrite Hu]. split; [by intros [_ ?]|done].
Qed.

Lemma checkMlxInstallation_selects_bridge_witness :
  bridgeName (core (checkMlxInstallation posixEnv ∅ exampleProbe importWorks true
                      staleSetup).1.2) = mlxBridge
  ↔ installed succeeded = true.
Proof.
  refine (proj1 (checkMlxInstallation_selects_bridge posixEnv ∅ exampleProbe
                   importWorks staleSetup _ succeeded
                   (checkMlxInstallation posixEnv ∅ exampleProbe importWorks true
                      staleSetup).2 _)).
  vm_compute. reflexivity.
Defined.

(** ** [installPython] and [initializeAtStartup] *)

(** [installPython] returns the installer's result, and only when an
    interpreter is found afterwards by a fresh search.  On every failure
    the manager is left with no interpreter, also when it held one before
    the call: either the installer failed and nothing was probed, or no
    candidate was accepted and the error says that Python was installed but
    not found. *)
Theorem installPython_forgets_interpreter {R : Type}
  (env : Env) (fs : FS) (probe : jsstring → ProbeEnd)
  (installer : Completion jsstring R) (m : Manager) :
  match installPython env fs probe installer m with
  | (Returns result, m', trace) =>
      installer = Returns result
      ∧ ∃ p, pythonCmd m' = Some p ∧ p ≠ [] ∧ accepted env fs probe p = true
  | (Raises error, m', trace) =>
      pythonCmd m' = None
      ∧ (installer = Raises error ∧ trace = []
         ∨ error = installedButNotFound
           ∧ Forall (λ c, accepted env fs probe c = false)
                    (candidateSet (rawCandidates env)))
  end.
Proof.
  unfold installPython. destruct installer as [result|error].
  - unfold findPythonExecutable.
    destruct (findPythonExecutableFrom _ _ _ _ _) as [[[p|e] m1] t] eqn:Hf.
    + apply findPythonExecutable_found in Hf as (Hne & Hp & Hacc & _).
      split; [done|]. exists p. split_and!; [done|done|]. by apply Hacc.
    + pose proof Hf as Hm. apply findPythonExecutable_missing in Hm as [-> _].
      split; [done|]. right. split; [done|].
      unfold findPythonExecutableFrom in Hf. cbn [pythonCmd setPythonCmd truthyString] in Hf.
      pose proof (searchCandidates_spec env fs probe (candidateSet (rawCandidates env))) as Hs.
      destruct (searchCandidates _ _ _ _) as [[c|] t0]; [done|]. by destruct Hs.
  - split; [done|]. by left.
Qed.

(** [initializeAtStartup] always ends with [isInitialized] set.  When it
    leaves an interpreter cached, both installation checks have been run
    and stored, so that later calls of them that are not forced spawn
    nothing; when it leaves none, nothing else of the manager has changed. *)
Theorem initializeAtStartup_fills_caches
  (env : Env) (fs : FS) (probe : jsstring → ProbeEnd)
  (whisperCheck mlxCheck : ProcessEnd) (s : Setup) :
  let s' := (initializeAtStartup env fs probe whisperCheck mlxCheck s).1 in
  isInitialized s' = true
  ∧ if truthyString (pythonCmd (core s')) then
      is_Some (whisperInstalled s') ∧ is_Some (mlxInstalledResult s')
      ∧ ∀ env' fs' probe' check',
          (checkWhisperInstallation env' fs' probe' check' false s').2 = []
          ∧ (checkMlxInstallation env' fs' probe' check' false s').2 = []
    else s' = setInitialized s.
Proof.
  unfold initializeAtStartup, findPythonExecutable.
  destruct (findPythonExecutableFrom _ _ _ _ _) as [[[p|e] m1] t] eqn:Hf.
  - apply findPythonExecutable_found in Hf as (Hne & Hp & _).
    assert (∃ r1 s1 t1,
      checkWhisperInstallation env fs probe whisperCheck false (withCore s m1)
      = (r1, s1, t1) ∧ pythonCmd (core s1) = Some p
      ∧ is_Some (whisperInstalled s1)) as (r1 & s1 & t1 & -> & Hp1 & Hw1).
    { unfold checkWhisperInstallation.
      destruct (whisperInstalled (withCore s m1)) as [cached|] eqn:Hc.
      - eexists _, _, _. by split_and!.
      - destruct (runImportCheck_unforced env fs probe whisperImportArgs
                    whisperCheck (core (withCore s m1)) p Hp Hne) as [r ->].
        eexists _, _, _. by split_and!. }
    assert (∃ r2 s2 t2,
      checkMlxInstallation env fs probe mlxCheck false s1 = (r2, s2, t2)
      ∧ pythonCmd (core s2) = Some p
      ∧ is_Some (whisperInstalled s2)
      ∧ is_Some (mlxInstalledResult s2)) as (r2 & s2 & t2 & -> & Hp2 & Hw2 & Hm2).
    { unfold checkMlxInstallation.
      destruct (mlxInstalledResult s1) as [cached|] eqn:Hc.
      - eexists _, _, _. by split_and!.
      - destruct (runImportCheck_unforced env fs probe mlxImportArgs
                    mlxCheck (core s1) p Hp1 Hne) as [r ->].
        eexists _, _, _. split; [done|].
        by destruct (installed r && working r). }
    cbn [fst isInitialized setInitialized core whisperInstalled mlxInstalledResult].
    rewrite Hp2, truthyString_Some by done.
    split_and!; [done..|]. intros env' fs' probe' check'.
    destruct Hw2 as [w Hw2], Hm2 as [x Hm2].
    unfold checkWhisperInstallation, checkMlxInstallation.
    cbn [whisperInstalled mlxInstalledResult setInitialized].
    by rewrite Hw2, Hm2.
  - apply findPythonExecutable_missing in Hf as [-> Hnone].
    cbn [fst isInitialized setInitialized withCore core]. split; [done|].
    rewrite Hnone. by destruct s.
Qed.

(** ** [checkFFmpegAvailability]: what is cached *)

Lemma checkFFmpegAvailability_cached env fs w m :
  cachedFFmpegAvailability m ≠ JNull →
  checkFFmpegAvailability env fs w m = (cachedFFmpegAvailability m, m, []).
Proof. unfold checkFFmpegAvailability. by destruct (cachedFFmpegAvailability m). Qed.

Lemma checkFFmpegAvailability_fresh env fs w m :
  cachedFFmpegAvailability m = JNull →
  ∃ m1 t, checkFFmpegAvailability env fs w m
          = (cachedFFmpegAvailability m1, m1, t)
    ∧ (cachedFFmpegAvailability m1 = JNull →
       ∃ stdout stderr, ffmpegCheck w = Closed (Some 0%Z) stdout stderr
                        ∧ Json.parse stdout = Some JNull).
Proof.
  intros Hc. unfold checkFFmpegAvailability. rewrite Hc.
  destruct (findPythonExecutable _ _ _ _) as [[[p|e] m1] t1].
  - destruct (getWhisperScriptPath env m1) as [script|error].
    2:{ eexists (setCachedFFmpegAvailability _ _), _. split; [reflexivity|]. done. }
    destruct (getFFmpegPath _ _ _ _ _) as [[[f|e] m2] t2].
    + unfold ffmpegCheckResult.
      destruct (ffmpegCheck w) as [msg|msg|code out err].
      * eexists (setCachedFFmpegAvailability _ _), _. split; [reflexivity|]. done.
      * eexists (setCachedFFmpegAvailability _ _), _. split; [reflexivity|]. done.
      * case_decide as Hcode.
        -- destruct (Json.parse out) as [v|] eqn:Hv.
           ++ eexists (setCachedFFmpegAvailability _ _), _. split; [reflexivity|].
              cbn [cachedFFmpegAvailability setCachedFFmpegAvailability].
              intros ->. subst. by eexists _, _.
           ++ eexists (setCachedFFmpegAvailability _ _), _. split; [reflexivity|]. done.
        -- eexists (setCachedFFmpegAvailability _ _), _. split; [reflexivity|]. done.
    + eexists (setCachedFFmpegAvailability _ _), _. split; [reflexivity|]. done.
  - eexists (setCachedFFmpegAvailability _ _), _. split; [reflexivity|]. done.
Qed.

Lemma getWhisperScriptPath_undefined env m :
  isDevelopment env = false → resourcesPath env = None →
  getWhisperScriptPath env m = Raises pathArgumentError.
Proof. intros Hd Hr. unfold getWhisperScriptPath. by rewrite Hd, Hr. Qed.

Lemma checkFFmpegAvailability_path_error env fs w m pythonCmd m1 t1 :
  cachedFFmpegAvailability m = JNull →
  isDevelopment env = false → resourcesPath env = None →
  findPythonExecutable env fs (probe w) m = (Returns pythonCmd, m1, t1) →
  checkFFmpegAvailability env fs w m
  = (unavailable pathArgumentError,
     setCachedFFmpegAvailability m1 (unavailable pathArgumentError), t1).
Proof.
  intros Hc Hd Hr Hf. unfold checkFFmpegAvailability.
  by rewrite Hc, Hf, getWhisperScriptPath_undefined.
Qed.

Lemma checkFFmpegAvailability_kept env fs w m m' result trace :
  checkFFmpegAvailability env fs w m = (result, m', trace) →
  cachedFFmpegAvailability m' = result
  ∧ (result ≠ JNull →
     ∀ env' fs' w', checkFFmpegAvailability env' fs' w' m' = (result, m', []))
  ∧ (result = JNull →
     ∃ stdout stderr, ffmpegCheck w = Closed (Some 0%Z) stdout stderr
                      ∧ Json.parse stdout = Some JNull).
Proof.
  intros H.
  assert (cachedFFmpegAvailability m = JNull ∨ cachedFFmpegAvailability m ≠ JNull)
    as [Hc|Hc] by (destruct (cachedFFmpegAvailability m); by (left + right)).
  - destruct (checkFFmpegAvailability_fresh env fs w m Hc) as (m1 & t & Heq & Hnull).
    rewrite Heq in H. injection H as <- <- <-. split_and!; [done| |done].
    intros Hr env' fs' w'. by apply checkFFmpegAvailability_cached.
  - rewrite checkFFmpegAvailability_cached in H by done.
    injection H as <- <- <-. split_and!; [done| |done].
    intros _ env' fs' w'. by apply checkFFmpegAvailability_cached.
Qed.

(** What [checkFFmpegAvailability] returns is what it leaves in the cache.
    Unless that is [null], every later call returns it again without
    looking for anything or spawning a process: a failure is remembered
    like a success.  The result is [null], and is then looked up afresh by
    the next call, only when the check process exited with 0 and printed
    the JSON text [null].  One failure that is remembered in this way:
    outside development and without [process.resourcesPath], once an
    interpreter is found the script path cannot be built, and the result is
    the failure carrying the [TypeError] of [path.join], with nothing
    spawned but the version probes of the interpreter search. *)
Theorem checkFFmpegAvailability_caches
  (env : Env) (fs : FS) (w : World) (m m' : Manager) (result : json)
  (trace : list Effect) :
  checkFFmpegAvailability env fs w m = (result, m', trace) →
  cachedFFmpegAvailability m' = result
  ∧ (result ≠ JNull →
     ∀ env' fs' w', checkFFmpegAvailability env' fs' w' m' = (result, m', []))
  ∧ (result = JNull →
     ∃ stdout stderr, ffmpegCheck w = Closed (Some 0%Z) stdout stderr
                      ∧ Json.parse stdout = Some JNull)
  ∧ (cachedFFmpegAvailability m = JNull →
     isDevelopment env = false → resourcesPath env = None →
     ∀ pythonCmd m1 t1,
       findPythonExecutable env fs (probe w) m = (Returns pythonCmd, m1, t1) →
       result = unavailable pathArgumentError ∧ trace = t1
       ∧ ∀ env' fs' w', checkFFmpegAvailability env' fs' w' m'
                        = (unavailable pathArgumentError, m', [])).
Proof.
  intros H. destruct (checkFFmpegAvailability_kept _ _ _ _ _ _ _ H) as (Hc & Hk & Hn).
  split_and!; [done..|]. intros Hnull Hd Hr pythonCmd m1 t1 Hf.
  rewrite (checkFFmpegAvailability_path_error _ _ _ _ _ _ _ Hnull Hd Hr Hf) in H.
  injection H as <- <- <-. split_and!; [done..|]. by apply Hk.
Qed.

Lemma checkFFmpegAvailability_caches_witness :
  cachedFFmpegAvailability
    (setCachedFFmpegAvailability newManager (unavailable pythonNotFoundMessage))
  = unavailable pythonNotFoundMessage.
Proof.
  refine (proj1 (checkFFmpegAvailability_caches posixEnv ∅ noPython newManager _ _
                   (probesOf posixEnv ∅ (candidateSet (rawCandidates posixEnv))) _)).
  vm_compute. reflexivity.
Defined.

(** Once the check has found FFmpeg unavailable, every later call of
    [transcribeLocalWhisper] on that manager throws the same error at once:
    no interpreter is looked for, no file is written and no process is
    spawned, whatever audio it is given and whatever has become of the
    machine. *)
Theorem transcribeLocalWhisper_unavailable_is_kept
  (env : Env) (fs : FS) (w : World) (m m' : Manager) (result : json)
  (trace : list Effect) :
  checkFFmpegAvailability env fs w m = (result, m', trace) →
  result ≠ JNull →
  truthyProp (getProp result (js "available")) = false →
  ∀ env' a' fs' audioBlob model language,
    transcribeLocalWhisper env' a' fs' m' audioBlob model language
    = (Some (Raises (FFmpegNotAvailable (getProp result (js "error")))), m', fs', []).
Proof.
  intros H Hr Hav env' a' fs' audioBlob model language.
  apply checkFFmpegAvailability_kept in H as (Hc & Hk & _).
  unfold transcribeLocalWhisper. rewrite (Hk Hr). rewrite Hav. cbn [negb].
  by destruct result.
Qed.

(** Python is missing when the check is first made; it is installed later,
    and the transcription still fails without looking. *)
Lemma transcribeLocalWhisper_unavailable_is_kept_witness :
  (transcribeLocalWhisper posixEnv exampleAnswers exampleDisk
     (setCachedFFmpegAvailability newManager (unavailable pythonNotFoundMessage))
     (ArrayBufferBlob [82; 73; 70; 70]) None None).1.1.1
  = Some (Raises (FFmpegNotAvailable (Some (JString pythonNotFoundMessage)))).
Proof.
  rewrite (transcribeLocalWhisper_unavailable_is_kept posixEnv ∅ noPython newManager
             (setCachedFFmpegAvailability newManager (unavailable pythonNotFoundMessage))
             (unavailable pythonNotFoundMessage)
             (probesOf posixEnv ∅ (candidateSet (rawCandidates posixEnv)))).
  - reflexivity.
  - vm_compute. reflexivity.
  - discriminate.
  - reflexivity.
Defined.

(** ** Progress lines of [downloadWhisperModel] *)

Lemma splitLines_line l s :
  noLineFeed l → splitLines (l ++ 10 :: s) = l :: splitLines s.
Proof.
  unfold noLineFeed. induction l as [|c l IH]; intros H; cbn [app splitLines].
  - done.
  - apply not_elem_of_cons in H as [Hc Hl].
    destruct (N.eqb_spec c 10) as [->|_]; [done|]. by rewrite IH.
Qed.

Lemma splitLines_joinLines ls :
  ls ≠ [] → Forall noLineFeed ls → splitLines (joinLines ls) = ls.
Proof.
  intros Hne Hls. induction Hls as [|l ls Hl Hls IH]; [done|].
  destruct ls as [|l' ls].
  - by apply splitLines_single.
  - change (joinLines (l :: l' :: ls)) with (l ++ 10 :: joinLines (l' :: ls)).
    rewrite splitLines_line by done. by rewrite IH.
Qed.

Lemma stripPrefix_Some p s r : stripPrefix p s = Some r → s = p ++ r.
Proof.
  revert s. induction p as [|a p IH]; intros [|b s]; cbn [stripPrefix app]; try done.
  - by intros [= ->].
  - by intros [= ->].
  - destruct (N.eqb_spec a b) as [->|_]; [|done]. intros H. f_equal. by apply IH.
Qed.

Lemma progressOf_line modelName line :
  (∀ payload progressData,
     trim line = js "PROGRESS:" ++ payload → Json.parse payload = Some progressData →
     progressOf modelName line = Some (progressPayload modelName progressData))
  ∧ (∀ payload,
       trim line = js "PROGRESS:" ++ payload → Json.parse payload = None →
       progressOf modelName line = None)
  ∧ ((∀ payload, trim line ≠ js "PROGRESS:" ++ payload) →
     progressOf modelName line = None).
Proof.
  unfold progressOf. split_and!.
  - intros payload progressData -> Hp. by rewrite stripPrefix_app, Hp.
  - intros payload -> Hp. by rewrite stripPrefix_app, Hp.
  - intros Hno. destruct (stripPrefix _ _) as [payload|] eqn:E; [|done].
    apply stripPrefix_Some in E. by destruct (Hno payload).
Qed.

(** A chunk of standard error made of whole lines gives the calls of its
    lines one after the other.  A line gives one call of the progress
    callback when, once trimmed, it is [PROGRESS:] followed by JSON text:
    the call is handed the payload built from the parsed value.  A line
    whose text after [PROGRESS:] is not JSON, and a line that does not start
    with [PROGRESS:] once trimmed, gives no call and has no effect on the
    lines around it. *)
Theorem progressUpdates_per_line (modelName : jsstring) (lines : list jsstring) :
  Forall noLineFeed lines →
  ∃ calls : list (list json),
    progressUpdates modelName (joinLines lines) = concat calls
    ∧ Forall2 (λ line call,
         (∀ payload progressData,
            trim line = js "PROGRESS:" ++ payload →
            Json.parse payload = Some progressData →
            call = [progressPayload modelName progressData])
         ∧ (∀ payload,
              trim line = js "PROGRESS:" ++ payload → Json.parse payload = None →
              call = [])
         ∧ ((∀ payload, trim line ≠ js "PROGRESS:" ++ payload) → call = []))
        lines calls.
Proof.
  intros Hls.
  exists ((λ line, option_list (progressOf modelName line)) <$> lines). split.
  - transitivity (omap (progressOf modelName) lines).
    + destruct lines as [|l ls]; [done|].
      unfold progressUpdates. by rewrite splitLines_joinLines.
    + clear Hls. induction lines as [|l ls IH]; [done|].
      cbn [omap list_omap fmap list_fmap concat]. rewrite IH.
      by destruct (progressOf modelName l).
  - clear Hls. induction lines as [|l ls IH]; constructor; [|done].
    destruct (progressOf_line modelName l) as (H1 & H2 & H3). split_and!.
    + intros payload progressData Ht Hp. by rewrite (H1 _ _ Ht Hp).
    + intros payload Ht Hp. by rewrite (H2 _ Ht Hp).
    + intros Hno. by rewrite (H3 Hno).
Qed.

(** Four lines: no progress line, a progress line with an object, one whose
    payload is no JSON text, and one with white space around it. *)
Lemma progressUpdates_per_line_witness :
  ∃ calls : list (list json),
    progressUpdates (js "base") (joinLines progressChunk) = concat calls
    ∧ calls = [[];
               [progressPayload (js "base") (JObject [(js "percent", JNumber false 50 0)])];
               [];
               [progressPayload (js "base") (JNumber false 100 0)]].
Proof.
  destruct (progressUpdates_per_line (js "base") progressChunk)
    as (calls & Heq & Hcalls).
  { repeat constructor; intros H%list_elem_of_In; vm_compute in H;
      intuition discriminate. }
  exists calls. split; [exact Heq|].
  unfold progressChunk in Hcalls.
  repeat match goal with
         | H : Forall2 _ (_ :: _) _ |- _ =>
             apply Forall2_cons_inv_l in H as (? & ? & ? & H & ->)
         | H : Forall2 _ [] _ |- _ => apply Forall2_nil_inv_l in H as ->
         end.
  repeat match goal with H : _ ∧ _ |- _ => destruct H as [? ?] end.
  f_equal; [|f_equal; [|f_equal; [|f_equal]]].
  - match goal with H : (∀ payload, trim (js "Downloading base...") ≠ _) → _ |- _ =>
      apply H end.
    intros payload Hp. vm_compute in Hp. discriminate.
  - match goal with
    | H : ∀ payload progressData, trim (jsq "PROGRESS:{'percent': 50}") = _ → _ |- _ =>
        apply (H (jsq "{'percent': 50}")); vm_compute; reflexivity
    end.
  - match goal with
    | H : ∀ payload, trim (js "PROGRESS:half") = _ → _ → _ = [] |- _ =>
        apply (H (js "half")); vm_compute; reflexivity
    end.
  - match goal with
    | H : ∀ payload progressData, trim (js "  PROGRESS:100" ++ [13]) = _ → _ |- _ =>
        apply (H (js "100")); vm_compute; reflexivity
    end.
Defined.

Lemma digitsOf_digits fuel n acc :
  Forall (λ c, isDigit c = true) acc → Forall (λ c, isDigit c = true) (digitsOf fuel n acc).
Proof.
  revert n acc. induction fuel as [|fuel IH]; intros n acc Hacc; cbn [digitsOf]; [done|].
  assert (isDigit (48 + n mod 10) = true) as Hd.
  { unfold isDigit. pose proof (N.mod_lt n 10 ltac:(lia)) as H.
    revert H. generalize (n `mod` 10). intros k Hk. apply andb_true_iff.
    split; apply N.leb_le; lia. }
  destruct (n <? 10); [by constructor|]. apply IH. by constructor.
Qed.

Lemma indexKey_digits i : Forall (λ c, isDigit c = true) (indexKey i).
Proof. apply digitsOf_digits. constructor. Qed.

Lemma lookupMember_imap_none {A} key (f : nat → A → jsstring * json) (l : list A) :
  (∀ i x, (f i x).1 ≠ key) → lookupMember key (imap f l) = None.
Proof.
  revert f. induction l as [|x l IH]; intros f Hf; [done|].
  cbn [imap lookupMember]. destruct (f 0%nat x) as [k v] eqn:E.
  rewrite IH by (intros; apply Hf). rewrite decide_False; [done|].
  specialize (Hf 0%nat x). by rewrite E in Hf.
Qed.

Lemma spread_no_letters key value :
  (∃ c, c ∈ key ∧ isDigit c = false) →
  lookupMember key (spread value) = getProp value key.
Proof.
  intros (c & Hin & Hc). destruct value; try done; cbn [spread getProp].
  - apply lookupMember_imap_none. intros i x Hk. cbn [fst] in Hk. subst key.
    pose proof (indexKey_digits i) as Hd. rewrite Forall_forall in Hd.
    specialize (Hd c Hin). congruence.
  - apply lookupMember_imap_none. intros i x Hk. cbn [fst] in Hk. subst key.
    pose proof (indexKey_digits i) as Hd. rewrite Forall_forall in Hd.
    specialize (Hd c Hin). congruence.
Qed.

(** What the progress callback is handed carries the worker's own fields;
    [type] and [model] are only defaults.  For a key that is no array
    index, a property of the parsed progress data is passed on as it is, and
    only when the data has none of that name does [model] read as the
    model's name and [type] as [progress]. *)
Theorem progressPayload_fields (modelName : jsstring) (progressData : json)
  (key : jsstring) :
  (∃ c, c ∈ key ∧ isDigit c = false) →
  getProp (progressPayload modelName progressData) key
  = match getProp progressData key with
    | Some v => Some v
    | None =>
        if decide (key = js "model") then Some (JString modelName)
        else if decide (key = js "type") then Some (JString (js "progress"))
        else None
    end.
Proof.
  intros Hkey. unfold progressPayload. cbn [getProp lookupMember].
  rewrite (spread_no_letters key progressData Hkey).
  destruct (getProp progressData key); [done|].
  destruct (decide (js "model" = key)) as [<-|Hm].
  - by rewrite decide_True.
  - rewrite (decide_False (P := key = js "model")) by done.
    destruct (decide (js "type" = key)) as [<-|Ht].
    + by rewrite decide_True.
    + by rewrite decide_False.
Qed.

(** A worker that reports its own model name overrides the one asked for. *)
Lemma progressPayload_fields_witness :
  getProp (progressPayload (js "base") (JObject [(js "model", JString (js "tiny"))]))
    (js "model")
  = Some (JString (js "tiny")).
Proof.
  apply (progressPayload_fields (js "base")
           (JObject [(js "model", JString (js "tiny"))]) (js "model")).
  exists 109. split; [|reflexivity]. apply list_elem_of_In. vm_compute. tauto.
Defined.

(** ** [checkModelStatus], [listWhisperModels], [deleteWhisperModel] *)

Lemma requestResult_returns finish v :
  requestResult finish = Returns v ↔
  ∃ stdout stderr, finish = Closed (Some 0%Z) stdout stderr ∧ Json.parse stdout = Some v.
Proof.
  unfold requestResult. destruct finish as [msg|msg|code out err].
  - split; [done|]. by intros (? & ? & ? & _).
  - split; [done|]. by intros (? & ? & ? & _).
  - case_decide as Hc.
    + destruct (Json.parse out) as [r|] eqn:Hr.
      * split.
        -- intros [= ->]. subst. by eexists _, _.
        -- intros (? & ? & ? & ?). simplify_eq; congruence.
      * split; [done|]. intros (? & ? & ? & ?). simplify_eq; congruence.
    + split; [done|]. intros (? & ? & ? & ?). by simplify_eq.
Qed.

(** [checkModelStatus], [listWhisperModels] and [deleteWhisperModel]
    resolve exactly when an interpreter is found, the script path can be
    built, the worker exits with 0 and its standard output as a whole is
    JSON text, and then with the parsed value.  The script path cannot be
    built exactly when the application runs outside development without
    [process.resourcesPath]: with an interpreter found, the request is then
    rejected with the [TypeError] of [path.join] and nothing is spawned but
    the version probes of the interpreter search.  Otherwise, when an
    interpreter is found the worker is spawned on it, last, with the script
    and the arguments of the request; when none is found the request is
    rejected after every candidate was probed and nothing else is spawned.
    Of the manager nothing changes but the cached interpreter. *)
Theorem modelRequest_outcome
  (env : Env) (fs : FS) (probe : jsstring → ProbeEnd) (finish : ProcessEnd)
  (m : Manager) (request : Request) :
  let '(outcome, m', trace) := modelRequest env fs probe finish m request in
  (∀ v, outcome = Returns v ↔
        truthyString (pythonCmd m') = true
        ∧ (isDevelopment env = true ∨ is_Some (resourcesPath env))
        ∧ ∃ stdout stderr, finish = Closed (Some 0%Z) stdout stderr
                           ∧ Json.parse stdout = Some v)
  ∧ (truthyString (pythonCmd m') = true →
     ∃ p, pythonCmd m' = Some p
          ∧ (isDevelopment env = true →
             last trace
             = Some (Spawn p (requestArgs
                                (pathJoin env [dirname env; js ".."; js ".."; bridgeName m'])
                                request)))
          ∧ (isDevelopment env = false → ∀ resources,
             resourcesPath env = Some resources →
             last trace
             = Some (Spawn p (requestArgs
                                (pathJoin env [resources; js "app.asar.unpacked";
                                               bridgeName m'])
                                request)))
          ∧ (isDevelopment env = false → resourcesPath env = None →
             outcome = Raises (ScriptPathFailed pathArgumentError)
             ∧ trace = (findPythonExecutable env fs probe m).2))
  ∧ (truthyString (pythonCmd m') = false →
     outcome = Raises InterpreterMissing ∧ m' = m
     ∧ trace = versionProbes env fs (candidateSet (rawCandidates env)))
  ∧ (m' = m ∨ ∃ p, m' = setPythonCmd m (Some p)).
Proof.
  unfold modelRequest, findPythonExecutable.
  destruct (findPythonExecutableFrom _ _ _ _ _) as [[[p|e] m1] t] eqn:Hf.
  - pose proof Hf as (Hne & Hp & _)%findPythonExecutable_found.
    assert (m1 = m ∨ ∃ p, m1 = setPythonCmd m (Some p)) as Hm.
    { unfold findPythonExecutableFrom in Hf.
      destruct (truthyString (pythonCmd m)).
      - left. by simplify_eq.
      - destruct (searchCandidates _ _ _ _) as [[c|] ?]; [|done].
        right. exists c. by simplify_eq. }
    unfold getWhisperScriptPath.
    destruct (isDevelopment env) eqn:Hd; [|destruct (resourcesPath env) as [r|] eqn:Hr].
    + rewrite Hp, truthyString_Some by done. split_and!; [| |done|done].
      * intros v. rewrite requestResult_returns.
        split; [intros H; split_and!; [done|by left|done]|by intros (_ & _ & H)].
      * intros _. exists p. split_and!; [done| |done|done].
        intros _. by rewrite last_snoc.
    + rewrite Hp, truthyString_Some by done. split_and!; [| |done|done].
      * intros v. rewrite requestResult_returns.
        split; [intros H; split_and!; [done|by right|done]|by intros (_ & _ & H)].
      * intros _. exists p. split_and!; [done|done| |done].
        intros _ resources [= <-]. by rewrite last_snoc.
    + rewrite Hp, truthyString_Some by done. split_and!; [| |done|done].
      * intros v. split; [done|]. intros (_ & [?|[? ?]] & _); done.
      * intros _. exists p. split_and!; [done|done|done|]. done.
  - pose proof Hf as [-> Hnone]%findPythonExecutable_missing.
    rewrite Hnone. split_and!; [|done| |by left].
    + intros v. split; [done|]. by intros [? _].
    + intros _. split_and!; [done..|].
      unfold findPythonExecutableFrom in Hf. rewrite Hnone in Hf.
      pose proof (searchCandidates_spec env fs probe (candidateSet (rawCandidates env))) as Hs.
      destruct (searchCandidates _ _ _ _) as [[c|] t0]; [done|].
      destruct Hs as [_ ->]. rewrite <- probesOf_versionProbes. by simplify_eq.
Qed.

(** ** Signals sent to download processes *)

Lemma kill_gentle sig c :
  gentle c → (sig = SIGKILL → killed c = false) → gentle (kill sig c).
Proof.
  intros [Hk Ht] Hsig. unfold kill. destruct (alive c); [|done].
  split; [done|]. cbn [received].
  destruct (received c) as [|r rs] eqn:Hr; [apply not_elem_of_nil|].
  cbn [app tail]. cbn [tail] in Ht. rewrite elem_of_app, list_elem_of_singleton.
  intros [?|Heq]; [done|]. subst sig. specialize (Hk (Hsig eq_refl)). done.
Qed.

Lemma signal_gentle s pid sig :
  allGentle s →
  (sig = SIGKILL → ∀ c, children s !! pid = Some c → killed c = false) →
  allGentle (signal s pid sig).
Proof.
  intros Hs Hsig. unfold signal. destruct (children s !! pid) as [c|] eqn:Hc; [|done].
  intros pid' c'. cbn [children withChild].
  destruct (decide (pid = pid')) as [<-|Hne].
  - rewrite lookup_insert_eq. intros [= <-]. apply kill_gentle; [by eapply Hs|].
    intros Hk. by apply Hsig.
  - rewrite lookup_insert_ne by done. apply Hs.
Qed.

Lemma processExits_gentle s pid : allGentle s → allGentle (processExits s pid).
Proof.
  intros Hs. unfold processExits. destruct (children s !! pid) as [c|] eqn:Hc; [|done].
  intros pid' c'. cbn [children withChild].
  destruct (decide (pid = pid')) as [<-|Hne].
  - rewrite lookup_insert_eq. intros [= <-]. by apply (Hs pid c).
  - rewrite lookup_insert_ne by done. apply Hs.
Qed.

Lemma step_gentle s e : allGentle s → allGentle (step s e).
Proof.
  intros Hs. destruct e; cbn [step].
  - intros pid' c'. unfold startDownload. cbn [children withChild withManager].
    destruct (decide (freshPid s = pid')) as [<-|Hne].
    + rewrite lookup_insert_eq. intros [= <-]. split; [done|]. apply not_elem_of_nil.
    + rewrite lookup_insert_ne by done. apply Hs.
  - by apply processExits_gentle.
  - by apply processExits_gentle.
  - done.
  - by apply signal_gentle.
  - unfold onDownloadTimeoutGrace. destruct (children s !! pid) as [c|] eqn:Hc; [|done].
    destruct (killed c) eqn:Hk; [done|]. apply signal_gentle; [done|].
    intros _ c' Hc'. congruence.
  - unfold cancelDownload. destruct (currentDownloadProcess (manager s)); [|done].
    by apply signal_gentle.
  - unfold onGraceElapsed. destruct (currentDownloadProcess (manager s)) as [pid|]; [|done].
    destruct (children s !! pid) as [c|] eqn:Hc; [|done].
    destruct (killed c) eqn:Hk; [done|]. apply signal_gentle; [done|].
    intros _ c' Hc'. congruence.
Qed.

Lemma downloads_gentle es s : allGentle s → allGentle (foldl step s es).
Proof.
  revert s. induction es as [|e es IH]; intros s Hs; [done|].
  cbn [foldl]. by apply IH, step_gentle.
Qed.

(** Whatever happens in whatever order (downloads started, processes
    exiting, close and error events, either timeout, cancellations and
    their timers), no download process is sent the forced signal after it
    has been sent any signal: a cancelled or timed-out process is never
    escalated.  The forced signal can still be delivered, as a first
    signal: the three-second timer of a cancelled download that has closed
    kills the download started in the meantime. *)
Theorem download_forced_signal_only_first :
  (∀ (es : list DownloadEvent) (pid : nat),
     SIGKILL ∉ tail (signalsOf (downloads es) pid))
  ∧ signalsOf (downloads [Start; Cancel; CloseEmitted 0; Start; CancelGrace]) 1
    = [SIGKILL].
Proof.
  split; [|vm_compute; reflexivity].
  intros es pid. unfold signalsOf.
  destruct (children (downloads es) !! pid) as [c|] eqn:Hc; [|apply not_elem_of_nil].
  eapply (downloads_gentle es idle); [|done]. intros ? ? H. cbn [idle children] in H. by rewrite lookup_empty in H.
Qed.

(** ** [audioBufferToWav] *)

Lemma littleEndian_length width v : length (littleEndian width v) = width.
Proof. unfold littleEndian. by rewrite length_fmap, length_seq. Qed.

Lemma list_inserts_at {A} (pre bytes old rest : list A) :
  length old = length bytes →
  list_inserts (length pre) bytes (pre ++ old ++ rest) = pre ++ bytes ++ rest.
Proof.
  intros H. rewrite <- (Nat.add_0_r (length pre)), list_inserts_app_r.
  by rewrite list_inserts_0_r by done.
Qed.

Lemma writeSamples_spec samples pre :
  writeSamples (length pre) samples (pre ++ replicate (length samples * 2) 0)
  = pre ++ (samples ≫= sampleBytes).
Proof.
  revert pre. induction samples as [|x samples IH]; intros pre.
  - cbn [writeSamples length Nat.mul replicate mbind list_bind]. by rewrite !app_nil_r.
  - cbn [writeSamples length Nat.mul Nat.add replicate mbind list_bind].
    unfold setInt16.
    change (pre ++ 0 :: 0 :: ?r) with (pre ++ [0; 0] ++ r).
    rewrite (list_inserts_at pre (littleEndian 2 _) [0; 0] _) by done.
    replace (length pre + 2)%nat with (length (pre ++ sampleBytes x))
      by (rewrite length_app; unfold sampleBytes; by rewrite littleEndian_length).
    rewrite (assoc_L (++)). fold (sampleBytes x). rewrite IH.
    by rewrite <- (assoc_L (++)).
Qed.

Lemma truncate_ofZ k : truncate (ofZ k) = k.
Proof. apply Z.quot_1_r. Qed.

Lemma header_written n rate rest :
  let view := replicate 44 0 ++ rest in
  let view := writeString 0 (js "RIFF") view in
  let view := setUint32 4 (ofZ (36 + Z.of_nat n * 2)) view in
  let view := writeString 8 (js "WAVE") view in
  let view := writeString 12 (js "fmt ") view in
  let view := setUint32 16 (ofZ 16) view in
  let view := setUint16 20 (ofZ 1) view in
  let view := setUint16 22 (ofZ 1) view in
  let view := setUint32 24 rate view in
  let view := setUint32 28 (times rate 2) view in
  let view := setUint16 32 (ofZ 2) view in
  let view := setUint16 34 (ofZ 16) view in
  let view := writeString 36 (js "data") view in
  let view := setUint32 40 (ofZ (Z.of_nat n * 2)) view in
  view = wavHeader n rate ++ rest.
Proof.
  cbv zeta. unfold setUint32, setUint16, wavHeader. rewrite !truncate_ofZ.
  generalize (36 + Z.of_nat n * 2)%Z (Z.of_nat n * 2)%Z (truncate rate)
             (truncate (times rate 2)).
  intros a b c d.
  reflexivity.
Qed.

Lemma header_length n rate : length (wavHeader n rate) = 44%nat.
Proof. unfold wavHeader. by rewrite !length_app, !littleEndian_length. Qed.

Lemma audioBufferToWav_bytes buffer :
  audioBufferToWav buffer
  = wavHeader (length (channelData buffer)) (sampleRate buffer)
    ++ (channelData buffer ≫= sampleBytes).
Proof.
  unfold audioBufferToWav. cbv zeta. rewrite replicate_add.
  rewrite (header_written (length (channelData buffer)) (sampleRate buffer)).
  rewrite <- (header_length (length (channelData buffer)) (sampleRate buffer)) at 1.
  apply writeSamples_spec.
Qed.

Lemma sampleBytes_length x : length (sampleBytes x) = 2%nat.
Proof. apply littleEndian_length. Qed.

Lemma bind_sampleBytes_length samples :
  length (samples ≫= sampleBytes) = (length samples * 2)%nat.
Proof.
  induction samples as [|x samples IH]; [done|].
  cbn [mbind list_bind]. rewrite length_app, sampleBytes_length.
  change (list_bind _ _ _ samples) with (samples ≫= sampleBytes). rewrite IH.
  simpl. lia.
Qed.

Lemma drop_bind_sampleBytes samples i x :
  samples !! i = Some x →
  take 2 (drop (i * 2) (samples ≫= sampleBytes)) = sampleBytes x.
Proof.
  revert i. induction samples as [|y samples IH]; intros [|i] H; try done.
  - injection H as ->. cbn [mbind list_bind Nat.mul]. rewrite drop_0.
    rewrite take_app_length'; [done|apply (sampleBytes_length x)].
  - cbn [mbind list_bind]. replace (S i * 2)%nat with (2 + i * 2)%nat by lia.
    rewrite <- (sampleBytes_length y) at 1. rewrite drop_app_add'; [|done].
    by apply IH.
Qed.

Lemma littleEndian_bytes width v : Forall (λ b, b < 256) (littleEndian width v).
Proof.
  unfold littleEndian. apply Forall_fmap, Forall_forall. intros k _. cbn.
  pose proof (Z.mod_pos_bound ((v `mod` 2 ^ (8 * Z.of_nat width)) `div` 2 ^ (8 * Z.of_nat k)) 256
                ltac:(lia)) as H.
  revert H. generalize (((v `mod` 2 ^ (8 * Z.of_nat width)) `div` 2 ^ (8 * Z.of_nat k)) `mod` 256)%Z.
  intros z Hz. lia.
Qed.

(** The encoder fills the whole buffer: the file is 44 bytes of header
    followed by two bytes for each sample, in order, and every element is a
    byte. *)
Theorem audioBufferToWav_layout (buffer : AudioBuffer) :
  let wav := audioBufferToWav buffer in
  let n := length (channelData buffer) in
  length wav = (44 + n * 2)%nat
  ∧ take 44 wav = wavHeader n (sampleRate buffer)
  ∧ (∀ i x, channelData buffer !! i = Some x →
            take 2 (drop (44 + i * 2) wav) = sampleBytes x)
  ∧ Forall (λ b, b < 256) wav.
Proof.
  cbv zeta. rewrite audioBufferToWav_bytes.
  pose proof (header_length (length (channelData buffer)) (sampleRate buffer)) as Hh.
  split_and!.
  - by rewrite length_app, Hh, bind_sampleBytes_length.
  - by rewrite take_app_length'.
  - intros i x Hx. rewrite <- Hh at 1. rewrite drop_app_add'; [|done].
    by apply drop_bind_sampleBytes.
  - apply Forall_app. split.
    + unfold wavHeader. rewrite !Forall_app.
      split_and!; try apply littleEndian_bytes;
        apply Forall_forall; intros c Hc%list_elem_of_In; vm_compute in Hc;
        intuition (subst; reflexivity).
    + apply Forall_bind, Forall_forall. intros x _. apply littleEndian_bytes.
Qed.

Lemma stored_finite n d :
  stored (Fraction n d)
  = if (Z.pos d <? n)%Z then 32767%Z
    else if (n <? - Z.pos d)%Z then (-32768)%Z
    else if (n <? 0)%Z then (n * 32768 ÷ Z.pos d)%Z
    else (n * 32767 ÷ Z.pos d)%Z.
Proof.
  unfold stored, scaled, min1, maxMinus1, ofZ.
  destruct (Z.ltb_spec (Z.pos d) n) as [H1|H1].
  - reflexivity.
  - destruct (Z.ltb_spec n (- Z.pos d)) as [H2|H2].
    + reflexivity.
    + cbn [isNegative]. by destruct (n <? 0)%Z.
Qed.

Lemma stored_range x : (-32768 ≤ stored x ≤ 32767)%Z.
Proof.
  destruct x as [|[]|n d]; try (vm_compute; split; discriminate).
  rewrite stored_finite.
  destruct (Z.ltb_spec (Z.pos d) n) as [H1|H1]; [lia|].
  destruct (Z.ltb_spec n (- Z.pos d)) as [H2|H2]; [lia|].
  destruct (Z.ltb_spec n 0) as [H3|H3].
  - pose proof (Z.quot_opp_l (- (n * 32768)) (Z.pos d) ltac:(lia)) as Hq.
    rewrite Z.opp_involutive in Hq. rewrite Hq.
    rewrite Z.quot_div_nonneg by lia.
    pose proof (Z.div_le_upper_bound (- (n * 32768)) (Z.pos d) 32768 ltac:(lia) ltac:(lia)).
    pose proof (Z.div_pos (- (n * 32768)) (Z.pos d) ltac:(lia) ltac:(lia)). lia.
  - rewrite Z.quot_div_nonneg by lia.
    pose proof (Z.div_le_upper_bound (n * 32767) (Z.pos d) 32767 ltac:(lia) ltac:(lia)).
    pose proof (Z.div_pos (n * 32767) (Z.pos d) ltac:(lia) ltac:(lia)). lia.
Qed.

Lemma littleEndianValue_littleEndian4 v : littleEndianValue (littleEndian 4 v) = (v mod 4294967296)%Z.
Proof.
  unfold littleEndian, littleEndianValue. cbn [seq fmap list_fmap foldr].
  change (2 ^ (8 * Z.of_nat 4))%Z with 4294967296%Z.
  change (2 ^ (8 * Z.of_nat 0))%Z with 1%Z.
  change (2 ^ (8 * Z.of_nat 1))%Z with 256%Z.
  change (2 ^ (8 * Z.of_nat 2))%Z with 65536%Z.
  change (2 ^ (8 * Z.of_nat 3))%Z with 16777216%Z.
  pose proof (Z.mod_pos_bound v 4294967296 ltac:(lia)) as Hu.
  revert Hu. generalize (v mod 4294967296)%Z. intros u Hu.
  rewrite !Z2N.id by (apply Z.mod_pos_bound; lia).
  Z.div_mod_to_equations. lia.
Qed.

Lemma littleEndianValue_littleEndian2 v : littleEndianValue (littleEndian 2 v) = (v mod 65536)%Z.
Proof.
  unfold littleEndian, littleEndianValue. cbn [seq fmap list_fmap foldr].
  change (2 ^ (8 * Z.of_nat 2))%Z with 65536%Z.
  change (2 ^ (8 * Z.of_nat 0))%Z with 1%Z.
  change (2 ^ (8 * Z.of_nat 1))%Z with 256%Z.
  pose proof (Z.mod_pos_bound v 65536 ltac:(lia)) as Hu.
  revert Hu. generalize (v mod 65536)%Z. intros u Hu.
  rewrite !Z2N.id by (apply Z.mod_pos_bound; lia).
  Z.div_mod_to_equations. lia.
Qed.

Lemma unsignedAt_field width offset bytes field :
  take width (drop offset bytes) = field → length field = width →
  unsignedAt width offset bytes = Some (littleEndianValue field).
Proof. intros H Hl. unfold unsignedAt. rewrite H, decide_True by done. done. Qed.

Lemma header_fields n rate rest :
  take 4 (drop 4 (wavHeader n rate ++ rest)) = littleEndian 4 (36 + Z.of_nat n * 2)
  ∧ take 4 (drop 24 (wavHeader n rate ++ rest)) = littleEndian 4 (truncate rate)
  ∧ take 4 (drop 28 (wavHeader n rate ++ rest)) = littleEndian 4 (truncate (times rate 2))
  ∧ take 4 (drop 40 (wavHeader n rate ++ rest)) = littleEndian 4 (Z.of_nat n * 2).
Proof.
  unfold wavHeader.
  generalize (36 + Z.of_nat n * 2)%Z (Z.of_nat n * 2)%Z (truncate rate)
             (truncate (times rate 2)).
  intros a b c d. by split_and!.
Qed.

(** Read back little-endian, the size fields of a file shorter than
    [2^32] bytes agree with the file: the RIFF chunk size is the file
    length less 8, the data chunk size is the file length less 44, that is
    two bytes per sample, and for a whole sample rate the byte rate is twice
    the sample rate. *)
Theorem audioBufferToWav_sizes (buffer : AudioBuffer) :
  let wav := audioBufferToWav buffer in
  (Z.of_nat (length wav) < 2 ^ 32)%Z →
  getUint32 4 wav = Some (Z.of_nat (length wav) - 8)%Z
  ∧ getUint32 40 wav = Some (Z.of_nat (length wav) - 44)%Z
  ∧ getUint32 40 wav = Some (2 * Z.of_nat (length (channelData buffer)))%Z
  ∧ ∀ r, sampleRate buffer = ofZ r → (0 ≤ r)%Z → (2 * r < 2 ^ 32)%Z →
         getUint32 24 wav = Some r ∧ getUint32 28 wav = Some (2 * r)%Z.
Proof.
  cbv zeta. intros Hsize.
  assert (length (audioBufferToWav buffer) = 44 + length (channelData buffer) * 2)%nat
    as Hlen.
  { rewrite audioBufferToWav_bytes, length_app, header_length.
    by rewrite bind_sampleBytes_length. }
  rewrite Hlen in *. rewrite audioBufferToWav_bytes.
  set (n := length (channelData buffer)) in *.
  destruct (header_fields n (sampleRate buffer) (channelData buffer ≫= sampleBytes))
    as (H4 & H24 & H28 & H40).
  unfold getUint32.
  rewrite (unsignedAt_field 4 4 _ _ H4) by apply littleEndian_length.
  rewrite (unsignedAt_field 4 40 _ _ H40) by apply littleEndian_length.
  rewrite (unsignedAt_field 4 24 _ _ H24) by apply littleEndian_length.
  rewrite (unsignedAt_field 4 28 _ _ H28) by apply littleEndian_length.
  rewrite !littleEndianValue_littleEndian4.
  change (2 ^ 32)%Z with 4294967296%Z in *.
  rewrite !Z.mod_small by lia. split_and!; [f_equal; lia..|].
  intros r -> Hr0 Hr. change (times (ofZ r) 2) with (ofZ (r * 2)).
  rewrite !truncate_ofZ, !Z.mod_small by lia. split; f_equal; lia.
Qed.

Lemma audioBufferToWav_sizes_witness :
  getUint32 4 (audioBufferToWav exampleBuffer) = Some 42%Z
  ∧ getUint32 40 (audioBufferToWav exampleBuffer) = Some 6%Z.
Proof.
  destruct (audioBufferToWav_sizes exampleBuffer) as (H4 & H40 & _).
  - vm_compute. reflexivity.
  - split; [exact H4|exact H40].
Defined.

Lemma getInt16_sample x rest pre :
  getInt16 (length pre) (pre ++ sampleBytes x ++ rest) = Some (stored x).
Proof.
  unfold getInt16.
  rewrite (unsignedAt_field 2 (length pre) _ (sampleBytes x)).
  - unfold sampleBytes. rewrite littleEndianValue_littleEndian2. fold (stored x).
    pose proof (stored_range x) as Hr. cbn [fmap option_fmap option_map]. f_equal.
    destruct (Z.ltb_spec (stored x `mod` 65536) 32768) as [H|H];
      revert H; Z.div_mod_to_equations; lia.
  - rewrite drop_app_length. apply take_app_length'. apply (sampleBytes_length x).
  - apply (sampleBytes_length x).
Qed.

(** Each sample is stored without wrapping around: read back as a signed
    16-bit integer at its place, it is the integer part of the clamped and
    scaled sample, which lies between -32768 and 32767. *)
Theorem audioBufferToWav_samples (buffer : AudioBuffer) (i : nat) (x : Number) :
  channelData buffer !! i = Some x →
  getInt16 (44 + i * 2) (audioBufferToWav buffer) = Some (stored x)
  ∧ (-32768 ≤ stored x ≤ 32767)%Z.
Proof.
  intros Hx. split; [|apply stored_range].
  rewrite audioBufferToWav_bytes.
  apply list_elem_of_split_length in Hx as (before & after & Hsplit & Hi).
  rewrite Hsplit, bind_app, bind_cons, (assoc_L (++)).
  replace (44 + i * 2)%nat
    with (length (wavHeader (length (before ++ x :: after)) (sampleRate buffer)
                  ++ before ≫= sampleBytes)).
  - apply getInt16_sample.
  - rewrite length_app, header_length, bind_sampleBytes_length. lia.
Qed.

Lemma audioBufferToWav_samples_witness :
  getInt16 46 (audioBufferToWav exampleBuffer) = Some (-32768)%Z.
Proof.
  exact (proj1 (audioBufferToWav_samples exampleBuffer 1 (Fraction (-1) 1) eq_refl)).
Defined.

Lemma quot_bounds a d :
  (0 < d)%Z →
  ((0 ≤ a → (a ÷ d) * d ≤ a < (a ÷ d + 1) * d)
   ∧ (a ≤ 0 → (a ÷ d - 1) * d < a ≤ (a ÷ d) * d))%Z.
Proof.
  intros Hd. split; intros Ha.
  - rewrite Z.quot_div_nonneg by lia.
    pose proof (Z.mul_div_le a d Hd). pose proof (Z.mul_succ_div_gt a d Hd). lia.
  - pose proof (Z.quot_opp_l (- a) d ltac:(lia)) as Hq.
    rewrite Z.opp_involutive in Hq. rewrite Hq.
    rewrite Z.quot_div_nonneg by lia.
    pose proof (Z.mul_div_le (- a) d Hd). pose proof (Z.mul_succ_div_gt (- a) d Hd). lia.
Qed.

Lemma cross_lt a1 d1 a2 d2 l u :
  (0 < d1 → 0 < d2 → a1 * d2 ≤ a2 * d1 → l * d1 < a1 → a2 ≤ u * d2 → l < u)%Z.
Proof.
  intros H1 H2 Hle Hl Hu.
  assert (l * d1 * d2 < a1 * d2)%Z by (by apply Z.mul_lt_mono_pos_r).
  assert (a2 * d1 ≤ u * d2 * d1)%Z by (apply Z.mul_le_mono_nonneg_r; lia).
  apply (Z.mul_lt_mono_pos_r (d1 * d2)); [lia|]. lia.
Qed.

Lemma cross_le a1 d1 a2 d2 l u :
  (0 < d1 → 0 < d2 → a1 * d2 ≤ a2 * d1 → l * d1 ≤ a1 → a2 < u * d2 → l < u)%Z.
Proof.
  intros H1 H2 Hle Hl Hu.
  assert (l * d1 * d2 ≤ a1 * d2)%Z by (apply Z.mul_le_mono_nonneg_r; lia).
  assert (a2 * d1 < u * d2 * d1)%Z by (by apply Z.mul_lt_mono_pos_r).
  apply (Z.mul_lt_mono_pos_r (d1 * d2)); [lia|]. lia.
Qed.

Lemma stored_monotone_finite n1 d1 n2 d2 :
  (n1 * Z.pos d2 ≤ n2 * Z.pos d1)%Z →
  (stored (Fraction n1 d1) ≤ stored (Fraction n2 d2))%Z.
Proof.
  intros Hle.
  pose proof (stored_range (Fraction n1 d1)) as R1.
  pose proof (stored_range (Fraction n2 d2)) as R2.
  rewrite !stored_finite in *.
  assert (0 < Z.pos d1)%Z as D1 by lia. assert (0 < Z.pos d2)%Z as D2 by lia.
  revert Hle R1 R2 D1 D2. generalize (Z.pos d1) (Z.pos d2). clear d1 d2.
  intros d1 d2 Hle R1 R2 D1 D2.
  destruct (Z.ltb_spec d2 n2) as [A2|A2]; [lia|].
  destruct (Z.ltb_spec n1 (- d1)) as [B1|B1].
  { destruct (Z.ltb_spec d1 n1); lia. }
  destruct (Z.ltb_spec d1 n1) as [A1|A1].
  { exfalso. assert (d1 * d2 < n1 * d2)%Z by (by apply Z.mul_lt_mono_pos_r).
    assert (n2 * d1 ≤ d2 * d1)%Z by (apply Z.mul_le_mono_nonneg_r; lia). lia. }
  destruct (Z.ltb_spec n2 (- d2)) as [B2|B2].
  { exfalso. assert (n2 * d1 < - d2 * d1)%Z by (by apply Z.mul_lt_mono_pos_r).
    assert (- d1 * d2 ≤ n1 * d2)%Z by (apply Z.mul_le_mono_nonneg_r; lia). lia. }
  destruct (quot_bounds (n1 * 32768) d1 D1) as [_ N1].
  destruct (quot_bounds (n1 * 32767) d1 D1) as [P1 _].
  destruct (quot_bounds (n2 * 32768) d2 D2) as [_ N2].
  destruct (quot_bounds (n2 * 32767) d2 D2) as [P2 _].
  destruct (Z.ltb_spec n1 0) as [C1|C1], (Z.ltb_spec n2 0) as [C2|C2].
  - specialize (N1 ltac:(lia)). specialize (N2 ltac:(lia)).
    assert (n1 * 32768 ÷ d1 - 1 < n2 * 32768 ÷ d2)%Z; [|lia].
    apply (cross_lt (n1 * 32768) d1 (n2 * 32768) d2); lia.
  - specialize (N1 ltac:(lia)). specialize (P2 ltac:(lia)).
    assert (n1 * 32768 ÷ d1 - 1 < 0)%Z.
    { apply (Z.mul_lt_mono_pos_r d1); lia. }
    assert (0 < n2 * 32767 ÷ d2 + 1)%Z.
    { apply (Z.mul_lt_mono_pos_r d2); lia. }
    lia.
  - exfalso. assert (n2 * d1 < 0 * d1)%Z by (by apply Z.mul_lt_mono_pos_r).
    assert (0 * d2 ≤ n1 * d2)%Z by (apply Z.mul_le_mono_nonneg_r; lia). lia.
  - specialize (P1 ltac:(lia)). specialize (P2 ltac:(lia)).
    assert (n1 * 32767 ÷ d1 < n2 * 32767 ÷ d2 + 1)%Z; [|lia].
    apply (cross_le (n1 * 32767) d1 (n2 * 32767) d2); lia.
Qed.

(** What is stored for a sample.  [NaN] is stored as 0; a sample of 1 or
    more, and positive infinity, as 32767; a sample of -1 or less, and
    negative infinity, as -32768.  In between, the stored integer is the
    sample times 32767 (times 32768 for a negative sample) rounded towards
    zero, so it is less than one step away from it.  Quantisation keeps the
    order of the samples: a larger sample is never stored as a smaller
    integer. *)
Theorem audioBufferToWav_quantisation :
  stored NaN = 0%Z
  ∧ stored (Infinite false) = 32767%Z
  ∧ stored (Infinite true) = (-32768)%Z
  ∧ (∀ n d,
      ((Z.pos d ≤ n → stored (Fraction n d) = 32767)
       ∧ (n ≤ - Z.pos d → stored (Fraction n d) = -32768)
       ∧ (0 ≤ n ≤ Z.pos d →
          stored (Fraction n d) * Z.pos d ≤ n * 32767
          < (stored (Fraction n d) + 1) * Z.pos d)
       ∧ (- Z.pos d ≤ n < 0 →
          (stored (Fraction n d) - 1) * Z.pos d < n * 32768
          ≤ stored (Fraction n d) * Z.pos d))%Z)
  ∧ ∀ x y, below x y → (stored x ≤ stored y)%Z.
Proof.
  split_and!; [done..| |].
  - intros n d. rewrite stored_finite.
    destruct (quot_bounds (n * 32768) (Z.pos d) ltac:(lia)) as [_ N].
    destruct (quot_bounds (n * 32767) (Z.pos d) ltac:(lia)) as [P _].
    destruct (Z.ltb_spec (Z.pos d) n) as [A|A];
      [|destruct (Z.ltb_spec n (- Z.pos d)) as [B|B];
        [|destruct (Z.ltb_spec n 0) as [C|C]]].
    + split_and!; [done|lia..].
    + split_and!; [lia|done|lia|lia].
    + split_and!; [lia| |lia|].
      * intros Hn. assert (n = - Z.pos d)%Z as -> by lia.
        replace (- Z.pos d * 32768)%Z with (-32768 * Z.pos d)%Z by lia.
        by rewrite Z.quot_mul.
      * intros _. apply N. lia.
    + split_and!; [|lia| |lia].
      * intros Hn. assert (n = Z.pos d)%Z as -> by lia.
        replace (Z.pos d * 32767)%Z with (32767 * Z.pos d)%Z by lia.
        by rewrite Z.quot_mul.
      * intros _. apply P. lia.
  - intros x y.
    pose proof (stored_range x) as Rx. pose proof (stored_range y) as Ry.
    destruct x as [|[]|n1 d1], y as [|[]|n2 d2]; cbn [below]; try done;
      try (intros _; change (stored (Infinite true)) with (-32768)%Z in *;
           change (stored (Infinite false)) with 32767%Z in *; lia).
    apply stored_monotone_finite.
Qed.

(** ** [processWithLocalWhisper] *)

Lemma startsWith_app p s : startsWith (p ++ s) p = true.
Proof. unfold startsWith. by rewrite stripPrefix_app. Qed.

Lemma interpretLocal_cases a result :
  (∃ transcript, interpretLocal a result = (Returns transcript, [])
     ∧ success transcript = true ∧ source transcript = js "local"
     ∧ truthy (text transcript) = true)
  ∨ (interpretLocal a result = (Raises noAudioDetected, [NoAudioNotice])
     ∧ getProp result (js "success") = Some (JBool false)
     ∧ getProp result (js "message") = Some (JString noAudioDetected))
  ∨ (interpretLocal a result
     = (Raises (failureMessage a (getProp result (js "error"))), [])).
Proof.
  unfold interpretLocal.
  destruct (truthyProp (getProp result (js "success"))
            && truthyProp (getProp result (js "text"))) eqn:Hs.
  - left. eexists. split; [reflexivity|]. cbn [success source text].
    split_and!; [done..|]. apply andb_true_iff in Hs as [_ Ht].
    destruct (processTranscription a _) as [|c s]; [|done].
    by destruct (getProp result (js "text")).
  - destruct (isFalse (getProp result (js "success"))
              && isString (getProp result (js "message")) noAudioDetected) eqn:Hn.
    + right. left. split; [done|]. apply andb_true_iff in Hn as [Hf Hm].
      unfold isFalse, isString in *.
      destruct (getProp result (js "success")) as [[| [] | | | |]|]; try done.
      destruct (getProp result (js "message")) as [[| | |t| |]|]; try done.
      by apply bool_decide_eq_true in Hm as ->.
    + by right; right.
Qed.

Lemma attemptLocal_cases a :
  (∃ transcript, attemptLocal a = (Returns transcript, [])
     ∧ success transcript = true ∧ source transcript = js "local"
     ∧ truthy (text transcript) = true)
  ∨ (∃ result, attemptLocal a = (Raises noAudioDetected, [NoAudioNotice])
     ∧ ipc a = Returns result
     ∧ getProp result (js "success") = Some (JBool false)
     ∧ getProp result (js "message") = Some (JString noAudioDetected))
  ∨ (∃ message, attemptLocal a = (Raises message, [])).
Proof.
  unfold attemptLocal. destruct (arrayBuffer a); [|by right; right; eexists].
  destruct (ipc a) as [result|]; [|by right; right; eexists].
  destruct (interpretLocal_cases a result) as [(t & -> & ?)|[(-> & ? & ?)|Hr]].
  - destruct result; first [by right; right; eexists | left; by eexists].
  - destruct result; first [done | right; left; by eexists].
  - right; right. destruct result; by eexists.
Qed.

(** What [processWithLocalWhisper] can end with.  A transcript it returns
    comes from the backend (source [local], [success] true, a text that is
    not empty) or, after the fallback was called, from
    [processWithOpenAIAPI] (source [openai-fallback]).  An error it throws
    is the no-audio error, passed on as it is without the fallback being
    called, or has a message that starts with "Local Whisper failed: ";
    the fallback is then called exactly when both settings allow it, and
    its own error is appended.  [onError] is called at most once, and only
    ahead of the no-audio error. *)
Theorem processWithLocalWhisper_outcomes (storage : Storage) (a : LocalAnswers) :
  match processWithLocalWhisper storage a with
  | (Returns transcript, notices, fellBack) =>
      notices = []
      ∧ if fellBack then
          fallbackEnabled storage = true
          ∧ source transcript = js "openai-fallback"
          ∧ ∃ fallbackResult, openai a = Returns fallbackResult
              ∧ success transcript = success fallbackResult
              ∧ text transcript = text fallbackResult
        else
          source transcript = js "local" ∧ success transcript = true
          ∧ truthy (text transcript) = true
  | (Raises message, notices, fellBack) =>
      if bool_decide (message = noAudioDetected) then
        fellBack = false
        ∧ (notices = [] ∨ notices = [NoAudioNotice])
      else
        notices = [] ∧ fellBack = fallbackEnabled storage
        ∧ startsWith message (js "Local Whisper failed: ") = true
        ∧ if fellBack then
            ∃ local fallbackMessage,
              openai a = Raises fallbackMessage
              ∧ message = bothFailed local fallbackMessage
          else ∃ local, message = localFailed local
  end.
Proof.
  unfold processWithLocalWhisper. fold (fallbackEnabled storage).
  destruct (attemptLocal_cases a)
    as [(t & -> & ? & ? & ?)|[(result & -> & _)|(message & ->)]].
  - by split_and!.
  - rewrite !bool_decide_eq_true_2 by done. split; [done|by right].
  - case_bool_decide as Hm.
    + rewrite bool_decide_eq_true_2 by done. split; [done|by left].
    + destruct (fallbackEnabled storage) eqn:Hf.
      * destruct (openai a) as [fallbackResult|fallbackMessage] eqn:Ho.
        -- split; [done|]. cbn [source success text]. split_and!; [done..|].
           by exists fallbackResult.
        -- rewrite bool_decide_eq_false_2 by (by vm_compute).
           split_and!; [done|done|apply startsWith_app|]. by eexists _, _.
      * rewrite bool_decide_eq_false_2 by (by vm_compute).
        split_and!; [done|done|apply startsWith_app|]. by eexists.
Qed.

Lemma interpretResult_success_nonempty result text :
  interpretResult result = Success text → text ≠ [].
Proof.
  unfold interpretResult. intros H.
  assert (∀ r,
    match getProp r (js "success") with
    | Some (JBool false) =>
        SoftFailure (if truthyProp (getProp r (js "error"))
                     then default transcriptionFailed (getProp r (js "error"))
                     else transcriptionFailed)
    | _ =>
        if negb (truthyProp (getProp r (js "text"))) then SoftFailure noTextMessage
        else match getProp r (js "text") with
             | Some (JString t) =>
                 if decide (length (trim t) = 0%nat) then SoftFailure noTextMessage
                 else Success (trim t)
             | _ => Throws TextNotAString
             end
    end = Success text → text ≠ []) as Hmain.
  { intros r Hr.
    assert ((if negb (truthyProp (getProp r (js "text"))) then SoftFailure noTextMessage
             else match getProp r (js "text") with
                  | Some (JString t) =>
                      if decide (length (trim t) = 0%nat) then SoftFailure noTextMessage
                      else Success (trim t)
                  | _ => Throws TextNotAString
                  end) = Success text → text ≠ []) as Hin.
    { destruct (negb (truthyProp (getProp r (js "text")))); [done|].
      destruct (getProp r (js "text")) as [[| | |t| |]|]; try done.
      case_decide as Hl; [done|]. intros [= <-]. by destruct (trim t). }
    destruct (getProp r (js "success")) as [[|[]| | | |]|]; try done; by apply Hin. }
  destruct result; try done; eapply Hmain; exact H.
Qed.

Lemma parseWhisperResult_success_nonempty stdout text :
  parseWhisperResult stdout = Success text → text ≠ [].
Proof.
  unfold parseWhisperResult. destruct (findJsonLine _); [done|].
  destruct (Json.parse _); [|done]. apply interpretResult_success_nonempty.
Qed.

(** What the user gets for each result of [parseWhisperResult], when the
    renderer receives the object it returns.  A transcription is returned
    with source [local] and a text that is not empty: the text after
    [processTranscription], or the transcription itself when that is
    empty.  A soft failure whose message is "No audio detected" raises the
    notice and is thrown as such.  Any other soft failure is thrown as
    "Local Whisper transcription failed": the object has [message] where
    the renderer reads [error], so the reason the worker gave is lost. *)
Theorem processWithLocalWhisper_of_worker_output
  (storage : Storage) (a : LocalAnswers) (stdout : jsstring) (result : json) :
  arrayBuffer a = Returns () →
  resultObject (parseWhisperResult stdout) = Some result →
  ipc a = Returns result →
  match parseWhisperResult stdout with
  | Success text =>
      let cleaned := processTranscription a (JString text) in
      let shown := match cleaned with [] => text | _ :: _ => cleaned end in
      shown ≠ []
      ∧ processWithLocalWhisper storage a
        = (Returns {| success := true; text := JString shown; source := js "local" |},
           [], false)
  | SoftFailure message =>
      if isString (Some message) noAudioDetected then
        processWithLocalWhisper storage a
        = (Raises noAudioDetected, [NoAudioNotice], false)
      else
        attemptLocal a = (Raises genericLocalFailure, [])
        ∧ (fallbackEnabled storage = false →
           processWithLocalWhisper storage a
           = (Raises (localFailed genericLocalFailure), [], false))
  | Throws _ => False
  end.
Proof.
  intros Hb Hobj Hipc.
  destruct (parseWhisperResult stdout) as [text|message|why] eqn:Hp; [| |done].
  - apply parseWhisperResult_success_nonempty in Hp.
    injection Hobj as <-. cbv zeta.
    assert (attemptLocal a
            = (Returns {| success := true;
                          text := JString match processTranscription a (JString text) with
                                          | [] => text
                                          | _ :: _ => processTranscription a (JString text)
                                          end;
                          source := js "local" |}, [])) as Ha.
    { unfold attemptLocal. rewrite Hb, Hipc. unfold interpretLocal.
      change (getProp _ (js "success")) with (Some (JBool true)).
      change (getProp _ (js "text")) with (Some (JString text)).
      cbn [truthyProp truthy default from_option id andb].
      destruct text as [|c s]; [done|]. cbn match.
      by destruct (processTranscription a _). }
    split.
    + by destruct (processTranscription a _).
    + unfold processWithLocalWhisper. by rewrite Ha.
  - injection Hobj as <-.
    assert (attemptLocal a
            = if isString (Some message) noAudioDetected
              then (Raises noAudioDetected, [NoAudioNotice])
              else (Raises genericLocalFailure, [])) as Ha.
    { unfold attemptLocal. rewrite Hb, Hipc. unfold interpretLocal.
      change (getProp _ (js "success")) with (Some (JBool false)).
      change (getProp _ (js "text")) with (@None json).
      change (getProp _ (js "message")) with (Some message).
      change (getProp _ (js "error")) with (@None json).
      cbn [truthyProp truthy andb isFalse]. done. }
    destruct (isString (Some message) noAudioDetected) eqn:Hm.
    + unfold processWithLocalWhisper. rewrite Ha.
      by rewrite bool_decide_eq_true_2.
    + split; [done|]. intros Hf. unfold processWithLocalWhisper. rewrite Ha.
      rewrite bool_decide_eq_false_2 by (by vm_compute).
      fold (fallbackEnabled storage). by rewrite Hf.
Qed.

(** The worker ran out of memory; the user is told that the transcription
    failed. *)
Lemma processWithLocalWhisper_of_worker_output_witness :
  processWithLocalWhisper noSettings outOfMemoryAnswers
  = (Raises (localFailed genericLocalFailure), [], false).
Proof.
  pose proof (processWithLocalWhisper_of_worker_output noSettings outOfMemoryAnswers
                outOfMemoryStdout outOfMemoryResult eq_refl
                ltac:(vm_compute; reflexivity) eq_refl) as H.
  assert (parseWhisperResult outOfMemoryStdout
          = SoftFailure (JString (js "CUDA out of memory"))) as Hp
    by (vm_compute; reflexivity).
  rewrite Hp in H. change (isString _ _) with false in H.
  exact (proj2 H eq_refl).
Defined.

(** ** [getAPIKey] and [isReasoningAvailable] *)

Lemma unusable_false apiKey :
  unusable apiKey = false →
  ∃ key, apiKey = Some key ∧ key ≠ [] ∧ trim key ≠ [] ∧ key ≠ placeholderKey.
Proof.
  unfold unusable. destruct apiKey as [[|c s]|]; try done.
  intros [H1 H2]%orb_false_iff.
  apply bool_decide_eq_false in H1. apply bool_decide_eq_false in H2.
  by exists (c :: s).
Qed.

Lemma transcriptionKey_Some localStorage key :
  transcriptionKey localStorage = Some key →
  key ≠ [] ∧ trim key = key
  ∧ ∃ getItem raw, localStorage = Some getItem
      ∧ getItem (js "cloudTranscriptionApiKey") = Some raw ∧ key = trim raw.
Proof.
  unfold transcriptionKey. destruct localStorage as [getItem|]; [|done].
  destruct (getItem _) as [raw|] eqn:Hr; [|done].
  destruct (trim raw) as [|c s] eqn:Ht; [done|]. intros [= <-].
  split_and!; [done| |by eexists _, _].
  rewrite <- Ht. apply trim_idempotent.
Qed.

Lemma unusable_true apiKey :
  unusable apiKey = true →
  apiKey = None ∨ ∃ key, apiKey = Some key ∧ (trim key = [] ∨ key = placeholderKey).
Proof.
  unfold unusable. destruct apiKey as [[|c s]|]; intros H; [right|right|by left].
  - exists []. split; [done|]. by left.
  - apply orb_true_iff in H as [H|H]; apply bool_decide_eq_true in H;
      exists (c :: s); auto.
Qed.

Lemma isCustomEndpoint_true localStorage :
  isCustomEndpoint localStorage = true →
  ∃ getItem url, localStorage = Some getItem
    ∧ getItem (js "cloudTranscriptionBaseUrl") = Some url
    ∧ trim url ≠ [] ∧ includes (trim url) (js "api.openai.com") = false.
Proof.
  unfold isCustomEndpoint, customBaseUrl. destruct localStorage as [getItem|]; [|done].
  destruct (getItem (js "cloudTranscriptionBaseUrl")) as [url|] eqn:Hu;
    cbn [default from_option id].
  2:{ change (trim []) with (@nil N). done. }
  destruct (trim url) as [|c r] eqn:Ht; [done|].
  intros H%negb_true_iff. exists getItem, url. by rewrite Ht.
Qed.

(** A key [getAPIKey] returns is never empty and is kept: every later
    call returns it without reading a setting or asking the key store.
    With nothing cached, the key is not blank.  When the key store was not
    asked, there is a custom endpoint (a base URL is stored that is not
    blank and does not contain [api.openai.com]) and the key is the stored
    [cloudTranscriptionApiKey], trimmed.  When the key store was asked, the
    key is its answer, or, where that answer is missing, blank or the
    placeholder, the stored [openaiApiKey]; it is not the placeholder, and
    a custom endpoint gets it only for want of a key of its own.  An error
    leaves the cache as it was. *)
Theorem getAPIKey_spec (localStorage : LocalStorage)
  (getOpenAIKey : Completion jsstring (option jsstring))
  (cachedApiKey : option jsstring) :
  match getAPIKey localStorage getOpenAIKey cachedApiKey with
  | (Returns key, cached', asked) =>
      key ≠ [] ∧ cached' = Some key
      ∧ (∀ localStorage' getOpenAIKey',
           getAPIKey localStorage' getOpenAIKey' cached' = (Returns key, cached', false))
      ∧ (truthyString cachedApiKey = true → cachedApiKey = Some key ∧ asked = false)
      ∧ (truthyString cachedApiKey = false →
         trim key ≠ []
         ∧ if asked then
             key ≠ placeholderKey
             ∧ (isCustomEndpoint localStorage = true →
                transcriptionKey localStorage = None)
             ∧ (getOpenAIKey = Returns (Some key)
                ∨ ∃ answer getItem,
                    getOpenAIKey = Returns answer
                    ∧ (answer = None
                       ∨ ∃ k, answer = Some k ∧ (trim k = [] ∨ k = placeholderKey))
                    ∧ localStorage = Some getItem
                    ∧ getItem (js "openaiApiKey") = Some key)
           else
             isCustomEndpoint localStorage = true
             ∧ transcriptionKey localStorage = Some key
             ∧ ∃ getItem url raw,
                 localStorage = Some getItem
                 ∧ getItem (js "cloudTranscriptionBaseUrl") = Some url
                 ∧ trim url ≠ [] ∧ includes (trim url) (js "api.openai.com") = false
                 ∧ getItem (js "cloudTranscriptionApiKey") = Some raw
                 ∧ key = trim raw)
  | (Raises _, cached', asked) =>
      cached' = cachedApiKey ∧ asked = true ∧ truthyString cachedApiKey = false
  end.
Proof.
  unfold getAPIKey.
  destruct (truthyString cachedApiKey) eqn:Hc.
  - destruct cachedApiKey as [[|c s]|]; try done.
  - assert (∀ key : jsstring, key ≠ [] →
            ∀ localStorage' getOpenAIKey',
              getAPIKey localStorage' getOpenAIKey' (Some key)
              = (Returns key, Some key, false)) as Hkept.
    { intros key Hne localStorage' getOpenAIKey'. unfold getAPIKey.
      by rewrite truthyString_Some. }
    assert (match
              match getOpenAIKey with
              | Returns apiKey =>
                  match
                    (if unusable apiKey
                     then match localStorage with
                          | Some getItem => Returns (getItem (js "openaiApiKey"))
                          | None => Raises NoLocalStorage
                          end
                     else Returns apiKey)
                  with
                  | Returns apiKey0 =>
                      if unusable apiKey0
                      then (Raises (KeyNotFound (isCustomEndpoint localStorage)),
                            cachedApiKey, true)
                      else (Returns (default [] apiKey0), apiKey0, true)
                  | Raises e => (Raises e, cachedApiKey, true)
                  end
              | Raises message => (Raises (KeyStoreFailed message), cachedApiKey, true)
              end
            with
            | (Returns key, cached', asked) =>
                asked = true ∧ key ≠ [] ∧ cached' = Some key ∧ trim key ≠ []
                ∧ key ≠ placeholderKey
                ∧ (getOpenAIKey = Returns (Some key)
                   ∨ ∃ answer getItem,
                       getOpenAIKey = Returns answer
                       ∧ (answer = None
                          ∨ ∃ k, answer = Some k ∧ (trim k = [] ∨ k = placeholderKey))
                       ∧ localStorage = Some getItem
                       ∧ getItem (js "openaiApiKey") = Some key)
            | (Raises _, cached', asked) => cached' = cachedApiKey ∧ asked = true
            end) as Hstore.
    { destruct getOpenAIKey as [apiKey|message]; [|done].
      destruct (unusable apiKey) eqn:Hu.
      - destruct localStorage as [getItem|]; [|done].
        destruct (unusable (getItem _)) eqn:Hu'; [done|].
        apply unusable_false in Hu' as (key & Hk & ? & ? & ?). rewrite Hk.
        split_and!; [done..|]. right. exists apiKey, getItem.
        split_and!; [done|by apply unusable_true|done|done].
      - rewrite Hu. apply unusable_false in Hu as (key & -> & ? & ? & ?).
        split_and!; [done..|]. by left. }
    destruct (isCustomEndpoint localStorage) eqn:Hcustom.
    + destruct (transcriptionKey localStorage) as [key|] eqn:Hk.
      * pose proof Hk as (Hne & Ht & getItem & raw & Hl & Hraw & Hkey)%transcriptionKey_Some.
        apply isCustomEndpoint_true in Hcustom as (getItem' & url & Hl' & Hurl & ? & ?).
        assert (getItem' = getItem) as -> by congruence.
        split_and!; [done|done|by apply Hkept|done|].
        intros _. rewrite Ht. split_and!; [done..|].
        by exists getItem, url, raw.
      * destruct (match getOpenAIKey with Returns _ => _ | Raises _ => _ end)
          as [[[key|e] cached'] asked]; [|by destruct Hstore as [-> ->]].
        destruct Hstore as (-> & ? & -> & ? & ? & ?).
        split_and!; [done|done|by apply Hkept|done|]. intros _. by split_and!.
    + destruct (match getOpenAIKey with Returns _ => _ | Raises _ => _ end)
        as [[[key|e] cached'] asked]; [|by destruct Hstore as [-> ->]].
      destruct Hstore as (-> & ? & -> & ? & ? & ?).
      split_and!; [done|done|by apply Hkept|done|]. intros _. by split_and!.
Qed.

(** Without [localStorage] reasoning is unavailable and nothing changes.
    Otherwise the answer is stored with the preference it was computed for:
    until the stored time has passed, and as long as the preference reads
    the same, every later call gives the same answer, changes nothing and
    does not ask the service.  The service is asked only when the
    preference wants reasoning (it is set, and not to "false"); the answer
    is then kept for thirty seconds, and it is true only if the service
    said so. *)
Theorem isReasoningAvailable_spec (localStorage : LocalStorage) (now : Z)
  (isAvailable : Completion jsstring bool) (s : ReasoningState) :
  let '(result, s', asked) := isReasoningAvailable localStorage now isAvailable s in
  match localStorage with
  | None => result = false ∧ s' = s ∧ asked = false
  | Some getItem =>
      value s' = result
      ∧ cachedReasoningPreference s' = getItem (js "useReasoningModel")
      ∧ (asked = true → reasoningWanted (getItem (js "useReasoningModel")) = true
                        ∧ expiresAt s' = (now + REASONING_CACHE_TTL)%Z
                        ∧ (result = true → isAvailable = Returns true))
      ∧ ∀ getItem' now' isAvailable',
          getItem' (js "useReasoningModel") = getItem (js "useReasoningModel") →
          (now' < expiresAt s')%Z →
          isReasoningAvailable (Some getItem') now' isAvailable' s' = (result, s', false)
  end.
Proof.
  unfold isReasoningAvailable. destruct localStorage as [getItem|]; [|done].
  set (storedValue := getItem (js "useReasoningModel")).
  assert (∀ v t, ∀ getItem' now' isAvailable',
    getItem' (js "useReasoningModel") = storedValue →
    (now' < t)%Z →
    isReasoningAvailable (Some getItem') now' isAvailable'
      {| value := v; expiresAt := t; cachedReasoningPreference := storedValue |}
    = (v, {| value := v; expiresAt := t; cachedReasoningPreference := storedValue |},
       false)) as Hhit.
  { intros v t getItem' now' isAvailable' Hs Ht. unfold isReasoningAvailable.
    cbn [expiresAt cachedReasoningPreference value]. rewrite Hs.
    by rewrite (proj2 (Z.ltb_lt _ _) Ht), bool_decide_eq_true_2. }
  destruct ((now <? expiresAt s)%Z
            && bool_decide (cachedReasoningPreference s = storedValue)) eqn:Hvalid.
  - apply andb_true_iff in Hvalid as [Hlt Hpref].
    apply bool_decide_eq_true in Hpref. split_and!; [done..|].
    intros getItem' now' isAvailable' Hs Ht. destruct s as [v t p].
    cbn in Hpref. subst p. by apply Hhit.
  - destruct (reasoningWanted storedValue) eqn:Hw; cbn [negb].
    + destruct isAvailable as [available|message].
      * split_and!; [done|done| |by apply Hhit].
        intros _. split_and!; [done..|]. cbn. by intros ->.
      * split_and!; [done|done| |by apply Hhit].
        intros _. by split_and!.
    + split_and!; [done..|by apply Hhit].
Qed.
